(** * robotpy-build: the wrapper-generation hooks (robotpy_build/hooks.py)

    A shallow embedding of the [Hooks] class: name resolution, enum value
    normalisation, the type-caster registry, parameter classification and
    return aggregation of [_function_hook], and the hierarchy and trampoline
    decisions of [class_hook].

    Conventions of the embedding.
    - Python [str] is [string]; characters are the code points 0..255
      (C++ identifiers and type names), with Python's case rules on that
      range.
    - A Python [dict] whose key order is observable (the two buffer tables,
      the [ignored_bases] table) is an association list with dict
      semantics: at most one binding per key, insertion order kept.
      [self.types] is a [gset string], [self.casters] and
      [self.class_hierarchy] are [gmap]s.
    - Parser records (dicts with ad hoc keys) are records; a key that may be
      absent is an [option] field.
    - Exceptions are values of [exn]; a hook that mutates [self] returns the
      state reached together with its outcome. *)

From Stdlib Require Import Ascii String.
From stdpp Require Import base option list strings gmap sorting pretty.

Local Open Scope string_scope.
Local Open Scope list_scope.

(** ** Python string primitives *)

Module PyStr.

(** [s.startswith(pfx)] *)
Fixpoint startswith (s pfx : string) {struct pfx} : bool :=
  match pfx, s with
  | EmptyString, _ => true
  | String a pfx', String b s' => if decide (a = b) then startswith s' pfx' else false
  | String _ _, EmptyString => false
  end.

(** [s[n:]] *)
Fixpoint drop (n : nat) (s : string) : string :=
  match n, s with
  | O, _ => s
  | S n', String _ s' => drop n' s'
  | S _, EmptyString => EmptyString
  end.

(** [s[:n]] *)
Fixpoint take (n : nat) (s : string) : string :=
  match n, s with
  | O, _ => EmptyString
  | S n', String a s' => String a (take n' s')
  | S _, EmptyString => EmptyString
  end.

(** [s.find(c)] for a one-character needle; [None] stands for [-1]. *)
Fixpoint find (c : ascii) (s : string) : option nat :=
  match s with
  | EmptyString => None
  | String a s' => if decide (a = c) then Some 0 else S <$> find c s'
  end.

(** [sep.join(l)] *)
Definition join (sep : string) (l : list string) : string := String.concat sep l.

(** [c * n] for a one-character string [c] *)
Fixpoint repeat (c : ascii) (n : nat) : string :=
  match n with
  | O => EmptyString
  | S n' => String c (repeat c n')
  end.

(** [s.replace(" >", ">")] *)
Fixpoint replace_space_gt (s : string) : string :=
  match s with
  | String " " (String ">" s') => String ">" (replace_space_gt s')
  | String a s' => String a (replace_space_gt s')
  | EmptyString => EmptyString
  end.

(** [s.replace(".", "_")] *)
Fixpoint replace_dot (s : string) : string :=
  match s with
  | String a s' => String (if decide (a = "."%char) then "_"%char else a) (replace_dot s')
  | EmptyString => EmptyString
  end.

(** ["::" in s] *)
Fixpoint contains_colons (s : string) : bool :=
  match s with
  | String ":" (String ":" _) => true
  | String _ s' => contains_colons s'
  | EmptyString => false
  end.

Definition code (c : ascii) : nat := nat_of_ascii c.

Definition between (lo hi n : nat) : bool := (lo <=? n)%nat && (n <=? hi)%nat.

(** Code points with the Uppercase property: A-Z, and in the upper half
    U+00C0..U+00DE except the multiplication sign. *)
Definition char_isupper (c : ascii) : bool :=
  let n := code c in
  between 65 90 n || (between 192 222 n && negb (n =? 215)%nat).

(** Code points with the Lowercase property: a-z, the two ordinal
    indicators and the micro sign, and U+00DF..U+00FF except the division
    sign. *)
Definition char_islower (c : ascii) : bool :=
  let n := code c in
  between 97 122 n || (n =? 170)%nat || (n =? 181)%nat || (n =? 186)%nat
  || (between 223 255 n && negb (n =? 247)%nat).

(** [c.lower()] *)
Definition char_lower (c : ascii) : ascii :=
  if char_isupper c then ascii_of_nat (code c + 32) else c.

Fixpoint any (f : ascii → bool) (s : string) : bool :=
  match s with
  | EmptyString => false
  | String a s' => f a || any f s'
  end.

(** [s.isupper()]: no lowercase character and at least one uppercase one. *)
Definition isupper (s : string) : bool :=
  negb (any char_islower s) && any char_isupper s.

(** Truth value of a string: non-empty. *)
Definition truthy (s : string) : bool :=
  match s with EmptyString => false | _ => true end.

(** Truth value of an [Optional[str]]. *)
Definition otruthy (o : option string) : bool :=
  match o with Some s => truthy s | None => false end.

End PyStr.

(** ** Insertion-ordered dictionaries *)

Module Dict.
Section Dict.
Context {V : Type}.

Definition t := list (string * V).

(** [d[k] = v] *)
Fixpoint set (k : string) (v : V) (d : t) : t :=
  match d with
  | [] => [(k, v)]
  | (k', v') :: d' => if decide (k' = k) then (k, v) :: d' else (k', v') :: set k v d'
  end.

(** [d.get(k)] *)
Fixpoint get (k : string) (d : t) : option V :=
  match d with
  | [] => None
  | (k', v') :: d' => if decide (k' = k) then Some v' else get k d'
  end.

(** the dictionary left by [d.pop(k, None)] *)
Fixpoint remove (k : string) (d : t) : t :=
  match d with
  | [] => []
  | (k', v') :: d' => if decide (k' = k) then d' else (k', v') :: remove k d'
  end.

(** [d.pop(k, None)]: the value and the dictionary left *)
Definition pop (k : string) (d : t) : option V * t := (get k d, remove k d).

(** [d.keys()] *)
Definition keys (d : t) : list string := d.*1.

(** Truth value of a dict: non-empty. *)
Definition truthy (d : t) : bool :=
  match d with [] => false | _ => true end.
End Dict.
Arguments t : clear implicits.
End Dict.

(** ** Exceptions *)

Inductive exn :=
| ValueError (msg : string)
| IndexError
| HookError (path : string) (cause : exn).

Inductive result (A : Type) :=
| Ok (a : A)
| Raise (e : exn).
Arguments Ok {A} a.
Arguments Raise {A} e.

(** Sequencing stops at the first exception. *)
Global Instance result_ret : MRet result := @Ok.
Global Instance result_bind : MBind result := λ A B k r,
  match r with Ok a => k a | Raise e => Raise e end.

(** ** Name resolution: [_set_name] *)

(** The loop of [_set_name]: the first prefix of [sp], in list order, that
    [name] starts with is cut off, and the loop breaks. *)
Fixpoint strip_first_prefix (sp : list string) (name : string) : string :=
  match sp with
  | [] => name
  | pfx :: sp' =>
      if PyStr.startswith name pfx then PyStr.drop (String.length pfx) name
      else strip_first_prefix sp' name
  end.

(** [_set_name(name, data)]; [rename] is [data.rename] and [sp] is
    [self.rawdata.strip_prefixes] (an empty or missing list is falsy, and
    looping over the empty list changes nothing either). *)
Definition _set_name (sp : list string) (name : string) (rename : option string) : string :=
  match rename with
  | Some r => if PyStr.truthy r then r else strip_first_prefix sp name
  | None => strip_first_prefix sp name
  end.

(** Lines 181-183 of [_function_hook]: the exposed name before the
    internal/constructor renames.  [x_name[0]] of an empty name raises. *)
Definition camel_name (sp : list string) (name : string) (rename : option string) : result string :=
  let x_name := _set_name sp name rename in
  if negb (PyStr.otruthy rename) && negb (PyStr.isupper (PyStr.take 2 x_name)) then
    match x_name with
    | EmptyString => Raise IndexError
    | String c rest => Ok (String (PyStr.char_lower c) rest)
    end
  else Ok x_name.

(** ** Enums: [_enum_hook] *)

(** Modelled from the spec: the override record for enums ([EnumData] of
    hooks_datacfg, not among the sources); the fields the hooks read. *)
Record EnumData := {
  ed_rename : option string;
  ed_value_prefix : option string;
  ed_subpackage : option string;
}.

Record EnumValue := {
  ev_name : string;
  ev_x_name : option string;
}.

Record Enum := {
  en_name : option string;
  en_namespace : string;
  en_values : list EnumValue;
  en_x_name : option string;
  en_x_namespace : option string;
}.

(** [value_prefix] as computed at the top of [_enum_hook]. *)
Definition enum_value_prefix (en : Enum) (enum_data : EnumData) : option string :=
  if PyStr.otruthy (en_name en) then
    if PyStr.otruthy (ed_value_prefix enum_data) then ed_value_prefix enum_data
    else en_name en
  else None.

(** Body of the loop over [en["values"]]: the new [x_name] of one value. *)
Definition enum_value_x_name (value_prefix : option string) (name : string) : result string :=
  match value_prefix with
  | Some pfx =>
      if PyStr.truthy pfx && PyStr.startswith name pfx then
        match PyStr.drop (String.length pfx) name with
        | EmptyString => Raise IndexError
        | String c rest as name' => if decide (c = "_"%char) then Ok rest else Ok name'
        end
      else Ok name
  | None => Ok name
  end.

Fixpoint enum_values_loop (value_prefix : option string) (vs : list EnumValue)
  : result (list EnumValue) :=
  match vs with
  | [] => Ok []
  | v :: vs' =>
      x ← enum_value_x_name value_prefix (ev_name v) ;
      vs'' ← enum_values_loop value_prefix vs' ;
      Ok ({| ev_name := ev_name v; ev_x_name := Some x |} :: vs'')
  end.

(** [_enum_hook(en, enum_data)]: the enum as left by a normal return. *)
Definition _enum_hook (sp : list string) (en : Enum) (enum_data : EnumData) : result Enum :=
  let value_prefix := enum_value_prefix en enum_data in
  let x_name :=
    match en_name en with
    | Some ename => if PyStr.truthy ename then Some (_set_name sp ename (ed_rename enum_data))
                    else en_x_name en
    | None => en_x_name en
    end in
  vs ← enum_values_loop value_prefix (en_values en) ;
  Ok {| en_name := en_name en; en_namespace := en_namespace en; en_values := vs;
        en_x_name := x_name; en_x_namespace := en_x_namespace en |}.

(** ** Functions and methods: [_function_hook] *)

(** [_gen_int_types()] and the set built from it. *)
Definition _gen_int_types : list string :=
  (i ← ["int"; "uint"];
   j ← [""; "_fast"; "_least"];
   k ← ["8"; "16"; "32"; "64"];
   [i +:+ j +:+ k +:+ "_t"]) ++ ["intmax_t"; "uintmax_t"].

Definition _int32_types : gset string := list_to_set _gen_int_types.

(** Modelled from the spec: the override records of hooks_datacfg are not
    among the sources.  [BufferType] has the member [IN] the hook tests for;
    every other member takes the same branch. *)
Inductive BufferType := IN | OUT.

(** Modelled from the spec: a buffer specification (source-parameter name,
    length-parameter name, direction, optional minimum size). *)
Record BufferData := {
  buf_src : string;
  buf_len : string;
  buf_type : BufferType;
  buf_minsz : option Z;
}.

Inductive ReturnValuePolicy :=
| TAKE_OWNERSHIP | COPY | MOVE | REFERENCE | REFERENCE_INTERNAL
| AUTOMATIC | AUTOMATIC_REFERENCE.

Definition _rvp_map (p : ReturnValuePolicy) : string :=
  match p with
  | TAKE_OWNERSHIP => ", py::return_value_policy::take_ownership"
  | COPY => ", py::return_value_policy::copy"
  | MOVE => ", py::return_value_policy::move"
  | REFERENCE => ", py::return_value_policy::reference"
  | REFERENCE_INTERNAL => ", py::return_value_policy::reference_internal"
  | AUTOMATIC => ""
  | AUTOMATIC_REFERENCE => ", py::return_value_policy::automatic_reference"
  end.

(** An array size is text when it comes from the parser and a number when it
    comes from an override. *)
Inductive ArraySize := SizeText (s : string) | SizeInt (n : Z).

Definition asz_truthy (a : ArraySize) : bool :=
  match a with SizeText s => PyStr.truthy s | SizeInt n => negb (n =? 0)%Z end.

Definition asz_str (a : ArraySize) : string :=
  match a with SizeText s => s | SizeInt n => pretty n end.

(** Modelled from the spec: the per-parameter override ([ParamData]); a
    field left unset in the configuration is [None] and is not copied by
    [p.update(po.dict(exclude_unset=True))]. *)
Record ParamOverride := {
  po_name : option string;
  po_x_type : option string;
  po_default : option string;
  po_force_out : option bool;
  po_array_size : option Z;
  po_ignore : option bool;
}.

(** A parameter record: the parser's keys, the keys an override may add,
    and the keys the hook computes (absent before the hook has run). *)
Record Param := {
  p_name : string;
  p_raw_type : string;
  p_enum : option string;
  p_reference : nat;
  p_pointer : nat;
  p_constant : nat;
  p_fundamental : bool;
  p_unresolved : bool;
  p_array : nat;
  p_array_size : option ArraySize;
  p_default : option string;
  p_class_is_cls : bool;    (* [p["class"] is cls] for the enclosing class *)
  p_force_out : option bool;
  p_ignore : option bool;
  p_x_type : option string;
  p_x_callname : option string;
  p_x_retname : option string;
  p_x_pyarg : option string;
  p_x_type_full : option string;
  p_x_decl : option string;
}.

(** The enclosing class of a method, as [_resolve_default] reads it. *)
Record FnParent := {
  par_name : string;
  par_namespace : string;
  par_public_properties : list string;
}.

Record Function := {
  fn_name : string;
  fn_returns : string;
  fn_rtnType : string;
  fn_constructor : bool;
  fn_destructor : bool;
  fn_operator : bool;
  fn_const : bool;
  fn_virtual : bool;
  fn_override : bool;
  fn_parent : option FnParent;
  fn_parameters : list Param;
}.

(** Modelled from the spec: the override record for functions
    ([FunctionData]); the fields [_function_hook] reads. *)
Record FunctionData := {
  fd_rename : option string;
  fd_ignore : bool;
  fd_internal : bool;
  fd_no_release_gil : option bool;
  fd_cpp_code : option string;
  fd_buffers : list BufferData;
  fd_param_override : gmap string ParamOverride;
  fd_return_value_policy : ReturnValuePolicy;
  fd_keepalive : option (list (nat * nat));
  fd_subpackage : option string;
}.

(** [_resolve_default(fn, name)] for a textual default. *)
Definition _resolve_default (parent : option FnParent) (name : string) : string :=
  if decide (name = "NULL" ∨ name = "nullptr") then name
  else match parent with
       | Some par =>
           foldl (λ name prop,
                    if decide (prop = name)
                    then par_namespace par +:+ "::" +:+ par_name par +:+ "::" +:+ name
                    else name)
                 name (par_public_properties par)
       | None => name
       end.

(** [_get_function_signature(fn)] *)
Definition _get_function_signature (fn : Function) : string :=
  let param_sig :=
    PyStr.replace_space_gt
      (PyStr.join ", "
         ((λ p, default (p_raw_type p) (p_enum p)
                +:+ PyStr.repeat "&" (p_reference p)
                +:+ PyStr.repeat "*" (p_pointer p)) <$> fn_parameters fn)) in
  if fn_const fn then
    if PyStr.truthy param_sig then param_sig +:+ " [const]" else "[const]"
  else param_sig.

(** The role a parameter gets ([ptype]). *)
Inductive PType := pt_in | pt_out | pt_ignored.

Global Instance PType_eq_dec : EqDecision PType.
Proof. solve_decision. Defined.

(** The double-quote character of the generated C++ text. *)
Definition dq : string := String "034" "".

Definition nonzero (n : nat) : bool := negb (n =? 0)%nat.

(** What the role classification of one parameter changes: the role, the
    keys of the parameter it rewrites, and what it appends to
    [x_lambda_pre] and (for an ignored length) to [x_temps]. *)
Record Classified := {
  c_ptype : PType;
  c_genlambda : bool;
  c_temp_ignored : bool;
  c_lambda_pre : list string;
  c_x_callname : string;
  c_x_type : string;
  c_constant : nat;
  c_reference : nat;
  c_pointer : nat;
}.

(** The [if bufinfo: ... elif buflen: ... elif ...: ... elif p["array"]:]
    chain of the parameter loop. *)
Definition classify (bufinfo buflen : option BufferData)
    (name x_type x_callname : string) (constant reference pointer : nat)
    (fundamental : bool) (force_out : option bool) (array : nat)
    (array_size : option ArraySize) : Classified :=
  match bufinfo with
  | Some bufinfo =>
      let bname := "__" +:+ buf_src bufinfo in
      let request :=
        match buf_type bufinfo with
        | IN => "auto " +:+ bname +:+ " = " +:+ name +:+ ".request(false)"
        | _ => "auto " +:+ bname +:+ " = " +:+ name +:+ ".request(true)"
        end in
      let size :=
        buf_len bufinfo +:+ " = " +:+ bname +:+ ".size * " +:+ bname +:+ ".itemsize" in
      let check :=
        match buf_minsz bufinfo with
        | Some minsz =>
            if (minsz =? 0)%Z then []
            else ["if (" +:+ buf_len bufinfo +:+ " < " +:+ pretty minsz
                  +:+ ") throw py::value_error(" +:+ dq +:+ name
                  +:+ ": minimum buffer size is " +:+ pretty minsz +:+ dq +:+ ")"]
        | None => []
        end in
      {| c_ptype := pt_in; c_genlambda := true; c_temp_ignored := false;
         c_lambda_pre := [request; size] ++ check;
         c_x_callname := "(" +:+ x_type +:+ "*)" +:+ bname +:+ ".ptr";
         c_x_type := "py::buffer";
         c_constant := 1; c_reference := 1; c_pointer := 0 |}
  | None =>
      let keep ptype temp callname xt :=
        {| c_ptype := ptype; c_genlambda := false; c_temp_ignored := temp;
           c_lambda_pre := []; c_x_callname := callname; c_x_type := xt;
           c_constant := constant; c_reference := reference; c_pointer := pointer |} in
      match buflen with
      | Some buflen =>
          if nonzero pointer then keep pt_out false ("&" +:+ buf_len buflen) x_type
          else keep pt_ignored true (buf_len buflen) x_type
      | None =>
          if default false force_out
             || (nonzero pointer && negb (nonzero constant) && fundamental)
          then keep pt_out false ("&" +:+ x_callname) x_type
          else if nonzero array then
            match array_size with
            | Some asz =>
                if asz_truthy asz
                then keep pt_out false (x_callname +:+ ".data()")
                       ("std::array<" +:+ x_type +:+ ", " +:+ asz_str asz +:+ ">")
                else keep pt_out false x_callname x_type
            | None => keep pt_out false x_callname x_type
            end
          else keep pt_in false x_callname x_type
      end
  end.

(** The locals and the part of [self] that the parameter loop updates;
    [ls_params] is [fn["parameters"]] with the records mutated so far. *)
Record LoopState := {
  ls_types : gset string;
  ls_buffer_params : Dict.t BufferData;
  ls_buflen_params : Dict.t BufferData;
  ls_in_params : list Param;
  ls_out_params : list Param;
  ls_all_params : list Param;
  ls_temps : list Param;
  ls_keepalives : list (nat * nat);
  ls_genlambda : bool;
  ls_lambda_pre : list string;
  ls_params : list Param;
}.

Section ParamLoop.
Variable is_constructor : bool.
Variable param_override : gmap string ParamOverride.
Variable parent : option FnParent.

(** The role of parameter [p] at position [i] and the record it is
    mutated into, given the buffer tables as they stand. *)
Definition param_body (bp bl : Dict.t BufferData) (i : nat) (p : Param)
  : PType * Classified * Param :=
  let in_int := bool_decide (p_raw_type p ∈ _int32_types) in
  let fundamental := if in_int then true else p_fundamental p in
  let unresolved := if in_int then false else p_unresolved p in
  let name := if decide (p_name p = "") then "param" +:+ pretty i else p_name p in
  let x_type := default (p_raw_type p) (p_enum p) in
  let x_callname := name in
  let x_retname := name in
  (* p.update(po.dict(exclude_unset=True)) *)
  let po := param_override !! name in
  let name := default name (po ≫= po_name) in
  let x_type := default x_type (po ≫= po_x_type) in
  let dflt := match po ≫= po_default with Some d => Some d | None => p_default p end in
  let force_out := match po ≫= po_force_out with Some b => Some b | None => p_force_out p end in
  let array_size :=
    match po ≫= po_array_size with Some n => Some (SizeInt n) | None => p_array_size p end in
  let ignore := match po ≫= po_ignore with Some b => Some b | None => p_ignore p end in
  let x_pyarg := "py::arg(" +:+ dq +:+ name +:+ dq +:+ ")" in
  let dflt := _resolve_default parent <$> dflt in
  let x_pyarg := match dflt with Some d => x_pyarg +:+ "=" +:+ d | None => x_pyarg end in
  let c := classify (Dict.get name bp) (Dict.get name bl) name x_type x_callname
             (p_constant p) (p_reference p) (p_pointer p) fundamental force_out
             (p_array p) array_size in
  let x_type := if nonzero (c_constant c) then "const " +:+ c_x_type c else c_x_type c in
  let x_type_full :=
    x_type +:+ PyStr.repeat "&" (c_reference c) +:+ PyStr.repeat "*" (c_pointer c) in
  (c_ptype c, c,
   {| p_name := name; p_raw_type := p_raw_type p; p_enum := p_enum p;
      p_reference := c_reference c; p_pointer := c_pointer c;
      p_constant := c_constant c;
      p_fundamental := fundamental; p_unresolved := unresolved;
      p_array := p_array p; p_array_size := array_size; p_default := dflt;
      p_class_is_cls := p_class_is_cls p;
      p_force_out := force_out; p_ignore := ignore;
      p_x_type := Some x_type; p_x_callname := Some (c_x_callname c);
      p_x_retname := Some x_retname; p_x_pyarg := Some x_pyarg;
      p_x_type_full := Some x_type_full;
      p_x_decl := Some (x_type_full +:+ " " +:+ name) |}).

(** One turn of [for i, p in enumerate(fn["parameters"])].  The lists
    hold the parameter record itself, so they show it as it is when the
    turn ends. *)
Definition param_step (st : LoopState) (i : nat) (p : Param) : LoopState :=
  let '(ptype, c, p') := param_body (ls_buffer_params st) (ls_buflen_params st) i p in
  let ignored := default false (p_ignore p') in
  let temps := if c_temp_ignored c then ls_temps st ++ [p'] else ls_temps st in
  {| ls_types := {[ c_x_type c ]} ∪ ls_types st;
     ls_buffer_params := Dict.remove (p_name p') (ls_buffer_params st);
     ls_buflen_params := Dict.remove (p_name p') (ls_buflen_params st);
     ls_in_params :=
       if negb ignored && bool_decide (ptype = pt_in)
       then ls_in_params st ++ [p'] else ls_in_params st;
     ls_out_params :=
       if negb ignored && bool_decide (ptype = pt_out)
       then ls_out_params st ++ [p'] else ls_out_params st;
     ls_all_params := if ignored then ls_all_params st else ls_all_params st ++ [p'];
     ls_temps :=
       if negb ignored && bool_decide (ptype = pt_out) then temps ++ [p'] else temps;
     ls_keepalives :=
       if is_constructor && nonzero (p_reference p)
       then ls_keepalives st ++ [(1, i + 2)] else ls_keepalives st;
     ls_genlambda := c_genlambda c || ls_genlambda st;
     ls_lambda_pre := ls_lambda_pre st ++ c_lambda_pre c;
     ls_params := ls_params st ++ [p'] |}.

(** The whole loop, from position [i] on. *)
Fixpoint param_loop (st : LoopState) (i : nat) (ps : list Param) : LoopState :=
  match ps with
  | [] => st
  | p :: ps' => param_loop (param_step st i p) (S i) ps'
  end.
End ParamLoop.

(** An entry of [x_rets]: the dict made for the primary return value, or a
    parameter record (the very record of [x_out_params]). *)
Inductive RetEntry :=
| PrimaryRet (x_retname x_type : string)
| ParamRet (p : Param).

(** [r["x_type"]] and [r["x_retname"]]; a parameter held by one of the
    lists has been through the loop and carries both keys. *)
Definition ret_x_type (r : RetEntry) : string :=
  match r with PrimaryRet _ t => t | ParamRet p => default "" (p_x_type p) end.

Definition ret_x_retname (r : RetEntry) : string :=
  match r with PrimaryRet n _ => n | ParamRet p => default "" (p_x_retname p) end.

(** The attributes [fn.update(...)] binds at the end of [_function_hook]
    (the docstring attributes, made by an external converter, are left
    out). *)
Record FunctionOut := {
  x_name : string;
  x_all_params : list Param;
  x_in_params : list Param;
  x_out_params : list Param;
  x_rets : list RetEntry;
  x_keepalives : list (nat * nat);
  x_return_value_policy : string;
  x_genlambda : bool;
  x_callstart : string;
  x_lambda_pre : list string;
  x_lambda_post : list string;
  x_callend : string;
  x_wrap_return : string;
}.

(** The loop over [data.buffers] that fills [buffer_params] and
    [buflen_params]. *)
Fixpoint buffer_tables (bufs : list BufferData) (bp bl : Dict.t BufferData)
  : result (Dict.t BufferData * Dict.t BufferData) :=
  match bufs with
  | [] => Ok (bp, bl)
  | bufinfo :: bufs' =>
      if decide (buf_src bufinfo = buf_len bufinfo) then
        Raise (ValueError ("buffer src(" +:+ buf_src bufinfo +:+ ") and len("
                           +:+ buf_len bufinfo +:+ ") cannot be the same"))
      else buffer_tables bufs' (Dict.set (buf_src bufinfo) bufinfo bp)
                               (Dict.set (buf_len bufinfo) bufinfo bl)
  end.

(** Return aggregation: [x_rets] from the out-parameters and the declared
    return type. *)
Definition make_rets (rtnType : string) (out_params : list Param) : list RetEntry :=
  let x_rets := if bool_decide (out_params = []) then [] else ParamRet <$> out_params in
  if decide (rtnType = "void") then x_rets
  else PrimaryRet "__ret" rtnType :: x_rets.

(** [x_wrap_return] from [x_rets]. *)
Definition make_wrap_return (x_rets : list RetEntry) : string :=
  match x_rets with
  | [r] => if decide (ret_x_type r = "void") then ""
           else "return " +:+ ret_x_retname r +:+ ";"
  | _ :: _ :: _ =>
      "return std::make_tuple(" +:+ PyStr.join "," (ret_x_retname <$> x_rets) +:+ ");"
  | [] => ""
  end.

(** The declarations of the temporaries, put in front of [x_lambda_pre] one
    by one, last temporary first. *)
Definition declare_temps (temps : list Param) (pre : list string) : list string :=
  foldl (λ pre out, (default "" (p_x_type out) +:+ " " +:+ p_name out +:+ " = 0") :: pre)
        pre (reverse temps).

(** What a run of [_function_hook] leaves behind: [self.types],
    [fn["parameters"]], [data.no_release_gil], and either the attributes
    bound to [fn] or the exception raised. *)
Record FnRun := {
  fr_types : gset string;
  fr_parameters : list Param;
  fr_no_release_gil : option bool;
  fr_outcome : result FunctionOut;
}.

Definition init_loop (types : gset string) (bp bl : Dict.t BufferData) : LoopState :=
  {| ls_types := types; ls_buffer_params := bp; ls_buflen_params := bl;
     ls_in_params := []; ls_out_params := []; ls_all_params := []; ls_temps := [];
     ls_keepalives := []; ls_genlambda := false; ls_lambda_pre := []; ls_params := [] |}.

(** The part of [_function_hook] after the parameter loop. *)
Definition finish_function (x_name0 : string) (fn : Function) (data : FunctionData)
    (internal : bool) (st : LoopState) : result FunctionOut :=
  if Dict.truthy (ls_buffer_params st) then
    Raise (ValueError ("incorrect buffer param names '"
                       +:+ PyStr.join "', '" (Dict.keys (ls_buffer_params st)) +:+ "'"))
  else
    let rets := make_rets (fn_rtnType fn) (ls_out_params st) in
    Ok {| x_name :=
            if PyStr.otruthy (fd_rename data) then default "" (fd_rename data)
            else if fd_internal data || internal then "_" +:+ x_name0
            else if fn_constructor fn then "__init__"
            else x_name0;
          x_all_params := ls_all_params st;
          x_in_params := ls_in_params st;
          x_out_params := ls_out_params st;
          x_rets := rets;
          x_keepalives := default (ls_keepalives st) (fd_keepalive data);
          x_return_value_policy := _rvp_map (fd_return_value_policy data);
          x_genlambda :=
            if bool_decide (ls_out_params st = []) then ls_genlambda st else true;
          x_callstart := if decide (fn_rtnType fn = "void") then "" else "auto __ret =";
          x_lambda_pre := declare_temps (ls_temps st) (ls_lambda_pre st);
          x_lambda_post := [];
          x_callend := "";
          x_wrap_return := make_wrap_return rets |}.

(** [_function_hook(fn, data, internal)], started with [self.types = types]
    and [self.rawdata.strip_prefixes = sp]. *)
Definition _function_hook (sp : list string) (types : gset string)
    (fn : Function) (data : FunctionData) (internal : bool) : FnRun :=
  match camel_name sp (fn_name fn) (fd_rename data) with
  | Raise e =>
      {| fr_types := types; fr_parameters := fn_parameters fn;
         fr_no_release_gil := fd_no_release_gil data; fr_outcome := Raise e |}
  | Ok x_name0 =>
      let no_release_gil :=
        match fd_no_release_gil data with
        | None => if PyStr.otruthy (fd_cpp_code data) then Some true else None
        | Some b => Some b
        end in
      match buffer_tables (fd_buffers data) [] [] with
      | Raise e =>
          {| fr_types := types; fr_parameters := fn_parameters fn;
             fr_no_release_gil := no_release_gil; fr_outcome := Raise e |}
      | Ok (bp, bl) =>
          let st := param_loop (fn_constructor fn) (fd_param_override data) (fn_parent fn)
                      (init_loop ({[ fn_returns fn ]} ∪ types) bp bl) 0 (fn_parameters fn) in
          {| fr_types := ls_types st; fr_parameters := ls_params st;
             fr_no_release_gil := no_release_gil;
             fr_outcome := finish_function x_name0 fn data internal st |}
      end
  end.

(** ** The state of a [Hooks] object *)

Record Hooks := {
  types : gset string;
  class_hierarchy : gmap string (list string);
  subpackages : gmap string string;
}.

(** A method of [Hooks]: it runs from a state of [self] to the state it
    leaves, with a value or the exception that ended it. *)
Definition HookM (A : Type) : Type := Hooks → Hooks * result A.

Global Instance HookM_ret : MRet HookM := λ A a self, (self, Ok a).
Global Instance HookM_bind : MBind HookM := λ A B k m self,
  match m self with
  | (self', Ok a) => k a self'
  | (self', Raise e) => (self', Raise e)
  end.

Definition raise {A} (e : exn) : HookM A := λ self, (self, Raise e).
Definition lift {A} (r : result A) : HookM A := λ self, (self, r).

(** Reading [self.types]. *)
Definition get_types : HookM (gset string) := λ self, (self, Ok (types self)).

(** [self._add_type_caster(typename)] *)
Definition _add_type_caster (typename : string) : HookM () := λ self,
  ({| types := {[ typename ]} ∪ types self;
      class_hierarchy := class_hierarchy self;
      subpackages := subpackages self |}, Ok ()).

(** [self._add_subpackage(v, data)]; the value is [v["x_module_var"]]. *)
Definition _add_subpackage (subpackage : option string) : HookM string := λ self,
  match subpackage with
  | Some sub =>
      if PyStr.truthy sub then
        let var := "pkg_" +:+ PyStr.replace_dot sub in
        ({| types := types self; class_hierarchy := class_hierarchy self;
            subpackages := <[sub := var]> (subpackages self) |}, Ok var)
      else (self, Ok "m")
  | None => (self, Ok "m")
  end.

(** ** The type-caster registry: [_get_type_caster_includes] *)

(** The loop body: the header a recorded type asks for, if any. *)
Definition caster_header (casters : gmap string string) (typename : string) : option string :=
  let typename :=
    match PyStr.find "<" typename with
    | Some tmpl_idx => PyStr.take tmpl_idx typename
    | None => typename
    end in
  match casters !! typename with
  | Some header => if PyStr.truthy header then Some header else None
  | None => None
  end.

(** [self._get_type_caster_includes()] with [self.casters = casters]: the
    set [includes] built from [self.types], then [sorted(includes)]. *)
Definition _get_type_caster_includes (casters : gmap string string) (types : gset string)
  : list string :=
  let includes : gset string :=
    set_fold (λ typename includes,
                match caster_header casters typename with
                | Some header => {[ header ]} ∪ includes
                | None => includes
                end) ∅ types in
  merge_sort String.le (elements includes).

(** ** Classes: [class_hook] *)

Inductive Access := public | protected | private.

Global Instance Access_eq_dec : EqDecision Access.
Proof. solve_decision. Defined.

Record Base := {
  base_class : string;
  base_x_qualname : option string;
  base_x_qualname_ : option string;
}.

Inductive PropAccess := PA_AUTOMATIC | PA_READONLY | PA_READWRITE.

(** Modelled from the spec: the override record for properties
    ([PropData]); the fields [class_hook] reads or sets. *)
Record PropData := {
  pd_ignore : bool;
  pd_rename : option string;
  pd_access : PropAccess;
}.

Record Property := {
  v_name : string;
  v_raw_type : string;
  v_fundamental : bool;
  v_reference : nat;
  v_data : option PropData;
  v_x_name : option string;
  v_x_readonly : option bool;
}.

(** Modelled from the spec: the override record for classes ([ClassData]);
    the fields [class_hook] reads. *)
Record ClassData := {
  cd_ignore : bool;
  cd_rename : option string;
  cd_subpackage : option string;
  cd_is_polymorphic : bool;
  cd_force_no_trampoline : bool;
  cd_ignored_bases : list string;
  cd_base_qualnames : gmap string string;
  cd_force_depends : list string;
}.

Record Class := {
  cls_name : string;
  cls_namespace : string;
  cls_parents : list string;   (* names along [c["parent"]], innermost first *)
  cls_access_in_parent : Access;
  cls_final : bool;
  cls_inherits : list Base;
  cls_enums_public : list Enum;
  cls_methods : Access → list Function;
  cls_properties : Access → list Property;
}.

(** A method after the hook: the function with its parameters as mutated,
    and the attributes bound to it unless it was skipped or ignored. *)
Record MethodOut := {
  m_fn : Function;
  m_out : option FunctionOut;
}.

(** The attributes [class_hook] computes for a class it does not skip. *)
Record ClassOut := {
  cls_x_module_var : string;
  cls_x_enums : list Enum;
  cls_inherits' : list Base;
  cls_x_inherits : list Base;
  cls_x_qualname : string;
  cls_x_qualname_ : string;
  cls_x_methods : list MethodOut;
  cls_x_properties : list Property;
  cls_x_has_trampoline : bool;
  cls_x_trampoline_name : option string;
  cls_x_has_constructor : bool;
  cls_x_varname : string;
  cls_x_name : string;
}.

(** [s.translate(self._qualname_trans)]: each of [:<>=] becomes [_]. *)
Fixpoint qualname_translate (s : string) : string :=
  match s with
  | String a s' =>
      String (if bool_decide (a ∈ [":"; "<"; ">"; "="]%char) then "_"%char else a)
             (qualname_translate s')
  | EmptyString => EmptyString
  end.

(** The [while c["parent"]] loop that builds [cls_key]. *)
Definition class_key (parents : list string) (cls_name : string) : string :=
  foldl (λ cls_key name, name +:+ "::" +:+ cls_key) cls_name parents.

(** [base["x_qualname"]] as the loop "update inheritance" sets it, from
    [base["class"]]. *)
Definition base_qualname (namespace : string) (base_qualnames : gmap string string)
    (class : string) : string :=
  if PyStr.otruthy (base_qualnames !! class) then default "" (base_qualnames !! class)
  else if negb (PyStr.contains_colons class) then namespace +:+ "::" +:+ class
  else class.

(** The loop "update inheritance", for one base. *)
Definition qualify_base (namespace : string) (base_qualnames : gmap string string)
    (base : Base) : Base :=
  let x_qualname := base_qualname namespace base_qualnames (base_class base) in
  {| base_class := base_class base; base_x_qualname := Some x_qualname;
     base_x_qualname_ := Some (qualname_translate x_qualname) |}.

(** [{ib: True for ib in class_data.ignored_bases}] *)
Definition ignored_bases_dict (ignored : list string) : Dict.t bool :=
  foldl (λ d ib, Dict.set ib true d) [] ignored.

(** The comprehension that builds [cls["x_inherits"]]: a base is dropped
    when popping its name from [ignored_bases] finds an entry; the second
    component is [ignored_bases] as the comprehension leaves it. *)
Fixpoint filter_bases (bases : list Base) (ignored_bases : Dict.t bool)
  : list Base * Dict.t bool :=
  match bases with
  | [] => ([], ignored_bases)
  | base :: bases' =>
      let '(found, ignored_bases') := Dict.pop (base_class base) ignored_bases in
      let '(kept, unmatched) := filter_bases bases' ignored_bases' in
      (if default false found then kept else base :: kept, unmatched)
  end.

(** The message of the error for unmatched [ignored_bases]. *)
Definition ignored_bases_error (cls_name : string) (inherits : list Base)
    (unmatched : Dict.t bool) : exn :=
  let bases := PyStr.join ", " (base_class <$> inherits) in
  let invalid_bases := PyStr.join ", " (Dict.keys unmatched) in
  ValueError (cls_name +:+ ": ignored_bases contains non-existant bases "
              +:+ invalid_bases +:+ "; valid bases are " +:+ bases).

(** [self.class_hierarchy[k] = v] *)
Definition set_class_hierarchy (k : string) (v : list string) : HookM () := λ self,
  ({| types := types self; class_hierarchy := <[k := v]> (class_hierarchy self);
      subpackages := subpackages self |}, Ok ()).

(** Running [_function_hook] as a method of [self]. *)
Definition run_function_hook (sp : list string) (fn : Function) (data : FunctionData)
    (internal : bool) : HookM (list Param * FunctionOut) := λ self,
  let r := _function_hook sp (types self) fn data internal in
  ({| types := fr_types r; class_hierarchy := class_hierarchy self;
      subpackages := subpackages self |},
   out ← fr_outcome r; Ok (fr_parameters r, out)).

Definition with_parameters (fn : Function) (ps : list Param) : Function :=
  {| fn_name := fn_name fn; fn_returns := fn_returns fn; fn_rtnType := fn_rtnType fn;
     fn_constructor := fn_constructor fn; fn_destructor := fn_destructor fn;
     fn_operator := fn_operator fn; fn_const := fn_const fn;
     fn_virtual := fn_virtual fn; fn_override := fn_override fn;
     fn_parent := fn_parent fn; fn_parameters := ps |}.

(** The locals of the loop over the methods of a class. *)
Record MethodLoop := {
  ml_has_constructor : bool;
  ml_is_polymorphic : bool;
  ml_methods : list MethodOut;
}.

Section ClassHook.
(** Modelled from the spec: the override registry ([GeneratorData], not
    among the sources) is the lookups the hooks make in it. *)
Variable get_class_data : string → ClassData.
Variable get_function_data :
  Function → string → option (string * ClassData) → FunctionData.
Variable get_cls_enum_data : option string → string → ClassData → EnumData.
Variable get_cls_prop_data : string → string → ClassData → PropData.
Variable get_enum_data : option string → EnumData.
(** [self.rawdata.strip_prefixes] *)
Variable sp : list string.

(** The loop "fix enum paths". *)
Fixpoint class_enums (cls : Class) (cls_key : string) (class_data : ClassData)
    (es : list Enum) : HookM (list Enum) :=
  match es with
  | [] => mret []
  | e :: es' =>
      let e1 := {| en_name := en_name e; en_namespace := en_namespace e;
                   en_values := en_values e; en_x_name := en_x_name e;
                   en_x_namespace :=
                     Some (en_namespace e +:+ "::" +:+ cls_name cls +:+ "::") |} in
      let enum_data := get_cls_enum_data (en_name e) cls_key class_data in
      e2 ← lift (_enum_hook sp e1 enum_data);
      es'' ← class_enums cls cls_key class_data es';
      mret (e2 :: es'')
  end.

(** One turn of the loop over [cls["methods"][access]]. *)
Definition method_step (cls_key : string) (class_data : ClassData) (access : Access)
    (st : MethodLoop) (fn : Function) : HookM MethodLoop :=
  let has_constructor := fn_constructor fn || ml_has_constructor st in
  let is_polymorphic := fn_override fn || fn_virtual fn || ml_is_polymorphic st in
  let skip := mret {| ml_has_constructor := has_constructor;
                      ml_is_polymorphic := is_polymorphic;
                      ml_methods := ml_methods st ++ [{| m_fn := fn; m_out := None |}] |} in
  if fn_operator fn || fn_destructor fn
     || (fn_constructor fn
         && match fn_parameters fn with p :: _ => p_class_is_cls p | [] => false end)
  then skip
  else if decide (access = private) then skip
  else
    let internal := negb (bool_decide (access = public)) in
    let signature := _get_function_signature fn in
    let method_data := get_function_data fn signature (Some (cls_key, class_data)) in
    if fd_ignore method_data then skip
    else λ self,
      match run_function_hook sp fn method_data internal self with
      | (self', Ok (ps, out)) =>
          (self', Ok {| ml_has_constructor := has_constructor;
                        ml_is_polymorphic := is_polymorphic;
                        ml_methods := ml_methods st
                          ++ [{| m_fn := with_parameters fn ps; m_out := Some out |}] |})
      | (self', Raise e) =>
          (self', Raise (HookError (cls_key +:+ "::" +:+ fn_name fn) e))
      end.

Fixpoint methods_loop (cls_key : string) (class_data : ClassData) (access : Access)
    (st : MethodLoop) (fns : list Function) : HookM MethodLoop :=
  match fns with
  | [] => mret st
  | fn :: fns' =>
      st' ← method_step cls_key class_data access st fn;
      methods_loop cls_key class_data access st' fns'
  end.

(** One turn of the loop over [cls["properties"][access]]. *)
Definition property_step (cls_key : string) (class_data : ClassData) (access : Access)
    (has_trampoline : bool) (v : Property) : HookM Property :=
  if bool_decide (access = private)
     || (bool_decide (access = protected) && negb has_trampoline)
  then mret {| v_name := v_name v; v_raw_type := v_raw_type v;
               v_fundamental := v_fundamental v; v_reference := v_reference v;
               v_data := Some {| pd_ignore := true; pd_rename := None;
                                 pd_access := PA_AUTOMATIC |};
               v_x_name := v_x_name v; v_x_readonly := v_x_readonly v |}
  else
    let propdata := get_cls_prop_data (v_name v) cls_key class_data in
    _ ← _add_type_caster (v_raw_type v);
    mret {| v_name := v_name v; v_raw_type := v_raw_type v;
            v_fundamental := v_fundamental v; v_reference := v_reference v;
            v_data := Some propdata;
            v_x_name :=
              Some (if PyStr.otruthy (pd_rename propdata) then default "" (pd_rename propdata)
                    else if bool_decide (access = public) then v_name v
                    else "_" +:+ v_name v);
            v_x_readonly :=
              Some match pd_access propdata with
                   | PA_AUTOMATIC => negb (v_fundamental v) && negb (nonzero (v_reference v))
                   | PA_READONLY => true
                   | PA_READWRITE => false
                   end |}.

Fixpoint properties_loop (cls_key : string) (class_data : ClassData) (access : Access)
    (has_trampoline : bool) (vs : list Property) : HookM (list Property) :=
  match vs with
  | [] => mret []
  | v :: vs' =>
      v' ← property_step cls_key class_data access has_trampoline v;
      vs'' ← properties_loop cls_key class_data access has_trampoline vs';
      mret (v' :: vs'')
  end.

(** [class_hook(cls, data)]; [None] is the early [return] for a class
    that is skipped. *)
Definition class_hook (cls : Class) : HookM (option ClassOut) :=
  if negb (bool_decide (cls_parents cls = []))
     && bool_decide (cls_access_in_parent cls = private)
  then mret None
  else
    let cls_key := class_key (cls_parents cls) (cls_name cls) in
    let class_data := get_class_data cls_key in
    if cd_ignore class_data then mret None
    else
      x_module_var ← _add_subpackage (cd_subpackage class_data);
      enums ← class_enums cls cls_key class_data (cls_enums_public cls);
      let inherits :=
        qualify_base (cls_namespace cls) (cd_base_qualnames class_data)
          <$> cls_inherits cls in
      let '(x_inherits, unmatched) :=
        filter_bases inherits (ignored_bases_dict (cd_ignored_bases class_data)) in
      if Dict.truthy unmatched
      then raise (ignored_bases_error (cls_name cls) inherits unmatched)
      else
        let cls_qualname := cls_namespace cls +:+ "::" +:+ cls_name cls in
        _ ← set_class_hierarchy cls_qualname
              (((λ base, default "" (base_x_qualname base)) <$> x_inherits)
               ++ cd_force_depends class_data);
        let st0 := {| ml_has_constructor := false;
                      ml_is_polymorphic :=
                        if bool_decide (cls_inherits cls = []) then cd_is_polymorphic class_data
                        else true;
                      ml_methods := [] |} in
        st1 ← methods_loop cls_key class_data public st0 (cls_methods cls public);
        st2 ← methods_loop cls_key class_data protected st1 (cls_methods cls protected);
        st3 ← methods_loop cls_key class_data private st2 (cls_methods cls private);
        let has_trampoline :=
          ml_is_polymorphic st3 && negb (cls_final cls)
          && negb (cd_force_no_trampoline class_data) in
        props1 ← properties_loop cls_key class_data public has_trampoline
                   (cls_properties cls public);
        props2 ← properties_loop cls_key class_data protected has_trampoline
                   (cls_properties cls protected);
        props3 ← properties_loop cls_key class_data private has_trampoline
                   (cls_properties cls private);
        let x_qualname_ := qualname_translate cls_qualname in
        mret (Some
          {| cls_x_module_var := x_module_var;
             cls_x_enums := enums;
             cls_inherits' := inherits;
             cls_x_inherits := x_inherits;
             cls_x_qualname := cls_qualname;
             cls_x_qualname_ := x_qualname_;
             cls_x_methods := ml_methods st3;
             cls_x_properties := props1 ++ props2 ++ props3;
             cls_x_has_trampoline := has_trampoline;
             cls_x_trampoline_name :=
               if has_trampoline
               then Some ("rpygen::Py" +:+ x_qualname_ +:+ "<" +:+ cls_name cls +:+ ">")
               else None;
             cls_x_has_constructor := ml_has_constructor st3;
             cls_x_varname := "cls_" +:+ cls_name cls;
             cls_x_name := _set_name sp (cls_name cls) (cd_rename class_data) |}).


(** The loop over [header.enums] in [header_hook]. *)
Fixpoint header_enums (es : list Enum) : HookM (list (string * Enum)) :=
  match es with
  | [] => mret []
  | en :: es' =>
      let en1 := {| en_name := en_name en; en_namespace := en_namespace en;
                    en_values := en_values en; en_x_name := en_x_name en;
                    en_x_namespace := Some (en_namespace en) |} in
      let enum_data := get_enum_data (en_name en) in
      x_module_var ← _add_subpackage (ed_subpackage enum_data);
      en2 ← lift (_enum_hook sp en1 enum_data);
      es'' ← header_enums es';
      mret ((x_module_var, en2) :: es'')
  end.

(** The loop over [header.variables] in [header_hook], given the raw type
    of each variable. *)
Fixpoint header_variables (raw_types : list string) : HookM () :=
  match raw_types with
  | [] => mret ()
  | raw_type :: vs' => _ ← _add_type_caster raw_type; header_variables vs'
  end.

(** [header_hook(header, data)] with [self.casters = casters]; the value
    is the enums as mutated and [data["type_caster_includes"]]. *)
Definition header_hook (casters : gmap string string) (enums : list Enum)
    (variables : list string) : HookM (list (string * Enum) * list string) :=
  es ← header_enums enums;
  _ ← header_variables variables;
  recorded ← get_types;
  mret (es, _get_type_caster_includes casters recorded).
End ClassHook.

(** * Descriptions to compare the code with *)

(** The value prefix as the normaliser is described: the configured prefix,
    or the enum's own name when none is configured. *)
Definition described_prefix (configured : option string) (ename : string) : string :=
  match configured with
  | Some pfx => if PyStr.truthy pfx then pfx else ename
  | None => ename
  end.

Definition strip_leading_underscore (s : string) : string :=
  match s with
  | String "_" rest => rest
  | _ => s
  end.

(** The short name as the normaliser is described: the prefix cut off once
    when the name starts with it, then one leading underscore cut off. *)
Definition described_short_name (pfx name : string) : string :=
  if PyStr.startswith name pfx
  then strip_leading_underscore (PyStr.drop (String.length pfx) name)
  else name.

(** The enum normaliser as it is described: for a named enum the hook
    gives every enumerator the described short name. *)
Definition enum_names_as_described (sp : list string) (en : Enum) (data : EnumData) : Prop :=
  ∀ ename, en_name en = Some ename → ename ≠ "" →
    ∃ en', _enum_hook sp en data = Ok en'
      ∧ ev_x_name <$> en_values en'
        = (λ v, Some (described_short_name
                        (described_prefix (ed_value_prefix data) ename) (ev_name v)))
            <$> en_values en.

(** "Stripped once": cutting the first prefix of [sp], in list order, that
    [name] starts with; the name itself when none matches. *)
Inductive StripFirst (name : string) : list string → string → Prop :=
| strip_none : StripFirst name [] name
| strip_here pfx sp rest :
    name = pfx +:+ rest → StripFirst name (pfx :: sp) rest
| strip_later pfx sp res :
    (∀ rest, name ≠ pfx +:+ rest) → StripFirst name sp res →
    StripFirst name (pfx :: sp) res.

(** Lower-leading camel case: the first character lowercased. *)
Definition lower_first (s : string) : string :=
  match s with
  | String c rest => String (PyStr.char_lower c) rest
  | EmptyString => EmptyString
  end.

(** The first two characters are both uppercase. *)
Definition both_upper (s : string) : Prop :=
  ∃ a b rest, s = String a (String b rest)
              ∧ PyStr.char_isupper a = true ∧ PyStr.char_isupper b = true.

(** The scope of the camel-case conversion as it is described: where the
    conversion changes the resolved name, the function has neither a rename
    nor a prefix that was stripped. *)
Definition camel_case_only_unstripped (sp : list string) (name : string)
    (rename : option string) : Prop :=
  ∀ x, camel_name sp name rename = Ok x → x ≠ _set_name sp name rename →
       PyStr.otruthy rename = false ∧ ∀ pfx, pfx ∈ sp → PyStr.startswith name pfx = false.

(** A type string with the text from the first [<] onward discarded. *)
Fixpoint before_template (s : string) : string :=
  match s with
  | String c rest => if decide (c = "<"%char) then EmptyString
                     else String c (before_template rest)
  | EmptyString => EmptyString
  end.

(** [self] as [Hooks.__init__] leaves it. *)
Definition init_hooks : Hooks := {| types := ∅; class_hierarchy := ∅; subpackages := ∅ |}.

(** [self] after [_add_type_caster] has been called on each of [ts] in turn. *)
Definition record_types (ts : list string) (self : Hooks) : Hooks :=
  foldl (λ self typename, (_add_type_caster typename self).1) self ts.

(** What resolving the includes gives once [ts] have been recorded. *)
Definition includes_after (casters : gmap string string) (ts : list string) : list string :=
  _get_type_caster_includes casters (types (record_types ts init_hooks)).

(** The resolved includes as they are described: the paths the table
    gives for the recorded types cut before the first [<], a type being
    left out only when the table has no entry for it. *)
Definition includes_as_described (casters : gmap string string) (ts : list string) : Prop :=
  ∀ header, header ∈ includes_after casters ts
            ↔ ∃ t, t ∈ ts ∧ casters !! before_template t = Some header.


(** The roles the parameter loop gives, in declaration order: for each
    parameter its [ptype] and the record it ends as. *)
Fixpoint param_roles (param_override : gmap string ParamOverride) (parent : option FnParent)
    (bp bl : Dict.t BufferData) (i : nat) (ps : list Param) : list (PType * Param) :=
  match ps with
  | [] => []
  | p :: ps' =>
      let '(ptype, _, p') := param_body param_override parent bp bl i p in
      (ptype, p') :: param_roles param_override parent
                       (Dict.remove (p_name p') bp) (Dict.remove (p_name p') bl) (S i) ps'
  end.

(** An out-parameter: classified [out] and not ignored by override. *)
Definition is_out (rp : PType * Param) : bool :=
  bool_decide (rp.1 = pt_out) && negb (default false (p_ignore rp.2)).

(** The return shape as it is described: a single entry is returned
    directly. *)
Definition single_return_is_direct (out : FunctionOut) : Prop :=
  ∀ r, x_rets out = [r] → x_wrap_return out = "return " +:+ ret_x_retname r +:+ ";".

(** The buffer scenario as it is described: the length parameter is
    suppressed, and only the primary return value is returned. *)
Definition length_suppressed (r : FnRun) : Prop :=
  ∃ out, fr_outcome r = Ok out ∧ x_out_params out = []
         ∧ ret_x_retname <$> x_rets out = ["__ret"].

(** A method of [Hooks] that leaves [self.class_hierarchy] alone, however
    it ends. *)
Definition keeps_hierarchy {A} (m : HookM A) : Prop :=
  ∀ self, class_hierarchy (m self).1 = class_hierarchy self.

(** A method is marked virtual or override. *)
Definition is_virtual (fn : Function) : bool := fn_override fn || fn_virtual fn.

(** Polymorphism as it is described: marked by override, or some declared
    base, or some method at any access level marked virtual or override. *)
Definition described_polymorphic (cls : Class) (class_data : ClassData) : bool :=
  cd_is_polymorphic class_data
  || negb (bool_decide (cls_inherits cls = []))
  || existsb is_virtual
       (cls_methods cls public ++ cls_methods cls protected ++ cls_methods cls private).

(** The hierarchy entry as it is described: the qualified names of the
    declared bases minus the ignored ones, and nothing else. *)
Definition hierarchy_is_bases_minus_ignored (cls : Class) (class_data : ClassData)
    (self : Hooks) : Prop :=
  class_hierarchy self !! (cls_namespace cls +:+ "::" +:+ cls_name cls)
  = Some (base_qualname (cls_namespace cls) (cd_base_qualnames class_data)
            <$> filter (λ class, class ∉ cd_ignored_bases class_data)
                  (base_class <$> cls_inherits cls)).

(** * Inputs used in the examples *)

Module Ex.

Definition value (name : string) : EnumValue := {| ev_name := name; ev_x_name := None |}.

Definition enum (name : string) (values : list string) : Enum :=
  {| en_name := Some name; en_namespace := "frc"; en_values := value <$> values;
     en_x_name := None; en_x_namespace := None |}.

Definition enum_data (value_prefix : option string) : EnumData :=
  {| ed_rename := None; ed_value_prefix := value_prefix; ed_subpackage := None |}.

(** [enum Color { kColorRed, kColorBlue }] *)
Definition Color : Enum := enum "Color" ["kColorRed"; "kColorBlue"].

(** [enum Mode { Mode, Mode_Fast }]: the first enumerator is the prefix. *)
Definition Mode : Enum := enum "Mode" ["Mode"; "Mode_Fast"].

Definition param (name raw_type : string) (pointer : nat) (fundamental : bool) : Param :=
  {| p_name := name; p_raw_type := raw_type; p_enum := None; p_reference := 0;
     p_pointer := pointer; p_constant := 0; p_fundamental := fundamental;
     p_unresolved := false; p_array := 0; p_array_size := None; p_default := None;
     p_class_is_cls := false; p_force_out := None; p_ignore := None;
     p_x_type := None; p_x_callname := None; p_x_retname := None; p_x_pyarg := None;
     p_x_type_full := None; p_x_decl := None |}.

Definition function (name rtn : string) (ps : list Param) : Function :=
  {| fn_name := name; fn_returns := rtn; fn_rtnType := rtn; fn_constructor := false;
     fn_destructor := false; fn_operator := false; fn_const := false;
     fn_virtual := false; fn_override := false; fn_parent := None; fn_parameters := ps |}.

Definition data_with (buffers : list BufferData)
    (param_override : gmap string ParamOverride) : FunctionData :=
  {| fd_rename := None; fd_ignore := false; fd_internal := false;
     fd_no_release_gil := None; fd_cpp_code := None; fd_buffers := buffers;
     fd_param_override := param_override; fd_return_value_policy := AUTOMATIC;
     fd_keepalive := None; fd_subpackage := None |}.

Definition data (buffers : list BufferData) : FunctionData := data_with buffers ∅.

(** The parameter override [force_out: true]. *)
Definition force_out : ParamOverride :=
  {| po_name := None; po_x_type := None; po_default := None; po_force_out := Some true;
     po_array_size := None; po_ignore := None |}.

Definition buffer (src len : string) : BufferData :=
  {| buf_src := src; buf_len := len; buf_type := IN; buf_minsz := None |}.

(** [int GetValue(uint8_t* buf, int* len)] *)
Definition GetValue : Function :=
  function "GetValue" "int" [param "buf" "uint8_t" 1 true; param "len" "int" 1 true].

(** [int GetValue(uint8_t* buf, int len)] *)
Definition GetValue' : Function :=
  function "GetValue" "int" [param "buf" "uint8_t" 1 true; param "len" "int" 0 true].

(** [void Write(uint8_t* buf)] *)
Definition Write : Function := function "Write" "void" [param "buf" "uint8_t" 1 true].

(** [void Fill(void* data)] *)
Definition Fill : Function := function "Fill" "void" [param "data" "void" 1 false].

(** The override [param_override: {data: {force_out: true}}] for [Fill]. *)
Definition Fill_data : FunctionData := data_with [] {[ "data" := force_out ]}.

(** [double Read(int* status, double scale)] *)
Definition Read : Function :=
  function "Read" "double" [param "status" "int" 1 true; param "scale" "double" 0 true].

(** A type-caster table and two recordings of the same types. *)
Definition casters : gmap string string :=
  {[ "std::vector" := "pybind11/stl.h"; "std::function" := "pybind11/functional.h";
     "wpi::ArrayRef" := "wpi_arrayref_type_caster.h"; "std::string" := "" ]}.

Definition recorded1 : list string :=
  ["wpi::ArrayRef<int>"; "int"; "std::vector<double>"; "std::vector<int>";
   "wpi::ArrayRef<int>"; "std::string"].

Definition recorded2 : list string :=
  ["std::string"; "std::vector<int>"; "std::vector<double>"; "int"; "wpi::ArrayRef<int>"].

Definition base (class : string) : Base :=
  {| base_class := class; base_x_qualname := None; base_x_qualname_ := None |}.

Definition method (name : string) (virtual : bool) : Function :=
  {| fn_name := name; fn_returns := "int"; fn_rtnType := "int"; fn_constructor := false;
     fn_destructor := false; fn_operator := false; fn_const := false;
     fn_virtual := virtual; fn_override := false;
     fn_parent := Some {| par_name := "Derived"; par_namespace := "frc";
                          par_public_properties := [] |};
     fn_parameters := [] |}.

Definition class_data (ignored_bases force_depends : list string) : ClassData :=
  {| cd_ignore := false; cd_rename := None; cd_subpackage := None;
     cd_is_polymorphic := false; cd_force_no_trampoline := false;
     cd_ignored_bases := ignored_bases; cd_base_qualnames := ∅;
     cd_force_depends := force_depends |}.

Definition prop_data : PropData :=
  {| pd_ignore := false; pd_rename := None; pd_access := PA_AUTOMATIC |}.

(** [class Derived : public Base, public Mixin { virtual int Get(); }] in
    namespace [frc]. *)
Definition Derived : Class :=
  {| cls_name := "Derived"; cls_namespace := "frc"; cls_parents := [];
     cls_access_in_parent := public; cls_final := false;
     cls_inherits := [base "Base"; base "Mixin"]; cls_enums_public := [Color];
     cls_methods := λ access, match access with
                              | public => [method "Get" true]
                              | _ => []
                              end;
     cls_properties := λ _, [] |}.

(** [class_hook] with a registry that answers [cd] for every class and the
    default override for everything else. *)
Definition class_hook_with (cd : ClassData) : Class → HookM (option ClassOut) :=
  class_hook (λ _, cd) (λ _ _ _, data []) (λ _ _ _, enum_data None) (λ _ _ _, prop_data) [].

End Ex.

(** * The import helper of the command-line tool (robotpy_build/tool.py) *)

Module Tool.

(** [s.split(".")] *)
Fixpoint split_dot (s : string) : list string :=
  match s with
  | EmptyString => [EmptyString]
  | String c rest =>
      if decide (c = "."%char) then EmptyString :: split_dot rest
      else match split_dot rest with
           | head :: tail => String c head :: tail
           | [] => [String c EmptyString]
           end
  end.

(** [relimport] of [ImportCreator.run]: a dot, then the components of
    [compiled] beyond as many as [base] has, joined by dots. *)
Definition relimport (base compiled : string) : string :=
  "." +:+ PyStr.join "." (drop (List.length (split_dot base)) (split_dot compiled)).

End Tool.

(** * Further descriptions *)

(** The keep-alive pairs the parameter loop collects for a constructor:
    [(1, i + 2)] for each position [i] whose parameter is a reference. *)
Fixpoint constructor_keepalives (i : nat) (ps : list Param) : list (nat * nat) :=
  match ps with
  | [] => []
  | p :: ps' =>
      if nonzero (p_reference p) then (1, i + 2) :: constructor_keepalives (S i) ps'
      else constructor_keepalives (S i) ps'
  end.

(** The name a parameter has after the loop when no override renames it:
    its own, or the positional placeholder when it has none. *)
Definition placeholder_name (i : nat) (p : Param) : string :=
  if decide (p_name p = "") then "param" +:+ pretty i else p_name p.

(** The declaration of a temporary, as put in front of [x_lambda_pre]. *)
Definition temp_decl (out : Param) : string :=
  default "" (p_x_type out) +:+ " " +:+ p_name out +:+ " = 0".

(** A method that [class_hook] never binds: an operator, a destructor, or a
    constructor whose first parameter is of the class itself. *)
Definition never_bound (fn : Function) : bool :=
  fn_operator fn || fn_destructor fn
  || (fn_constructor fn
      && match fn_parameters fn with p :: _ => p_class_is_cls p | [] => false end).

(** All methods of a class with their access level, in the order the hook
    visits them. *)
Definition all_methods (cls : Class) : list (Access * Function) :=
  ((λ fn, (public, fn)) <$> cls_methods cls public)
  ++ ((λ fn, (protected, fn)) <$> cls_methods cls protected)
  ++ ((λ fn, (private, fn)) <$> cls_methods cls private).

(** All properties of a class with their access level, in the order the
    hook visits them. *)
Definition all_properties (cls : Class) : list (Access * Property) :=
  ((λ v, (public, v)) <$> cls_properties cls public)
  ++ ((λ v, (protected, v)) <$> cls_properties cls protected)
  ++ ((λ v, (private, v)) <$> cls_properties cls private).

(** A property record marked as ignored. *)
Definition prop_ignored (v : Property) : bool :=
  match v_data v with Some d => pd_ignore d | None => false end.

(** The type string the loop registers for a parameter, read back from the
    record the loop leaves: its [x_type] without the [const ] that is put in
    front of it for a constant parameter. *)
Definition registered_type (p : Param) : string :=
  if nonzero (p_constant p) then PyStr.drop 6 (default "" (p_x_type p))
  else default "" (p_x_type p).

(** A parameter record that no [ignore] override removes from the lists. *)
Definition listed (p : Param) : bool := negb (default false (p_ignore p)).

(** An in-parameter: classified [in] and not ignored by override. *)
Definition is_in (rp : PType * Param) : bool :=
  bool_decide (rp.1 = pt_in) && negb (default false (p_ignore rp.2)).

(** The name a parameter has after the loop: the placeholder-completed name,
    or the name an override for it sets. *)
Definition final_name (param_override : gmap string ParamOverride) (i : nat) (p : Param)
  : string :=
  default (placeholder_name i p) (param_override !! placeholder_name i p ≫= po_name).

(** [self'] holds everything [self] holds: every recorded type, every key
    of the class hierarchy and every subpackage. *)
Definition hooks_le (self self' : Hooks) : Prop :=
  types self ⊆ types self'
  ∧ dom (class_hierarchy self) ⊆ dom (class_hierarchy self')
  ∧ dom (subpackages self) ⊆ dom (subpackages self').

(** A method of [Hooks] that only adds to [self], however it ends. *)
Definition grows {A} (m : HookM A) : Prop := ∀ self, hooks_le self (m self).1.

(** A method of [Hooks] that writes to [self.types] at most: it leaves
    [self.class_hierarchy] and [self.subpackages] alone, however it ends. *)
Definition keeps_tables {A} (m : HookM A) : Prop :=
  ∀ self, class_hierarchy (m self).1 = class_hierarchy self
          ∧ subpackages (m self).1 = subpackages self.

(** The list [class_hook] stores in [self.class_hierarchy] for a class: the
    qualified names of its bases that [ignored_bases] does not remove, then
    [force_depends]. *)
Definition hierarchy_entry (cls : Class) (class_data : ClassData) : list string :=
  ((λ base, default "" (base_x_qualname base))
     <$> (filter_bases
            (qualify_base (cls_namespace cls) (cd_base_qualnames class_data)
               <$> cls_inherits cls)
            (ignored_bases_dict (cd_ignored_bases class_data))).1)
  ++ cd_force_depends class_data.

(** The methods [class_hook] hands to [_function_hook]: not one that is
    never bound, not private, and not ignored by its override. *)
Definition should_bind
    (get_function_data : Function → string → option (string * ClassData) → FunctionData)
    (cls_key : string) (class_data : ClassData) (access : Access) (fn : Function) : bool :=
  negb (never_bound fn) && negb (bool_decide (access = private))
  && negb (fd_ignore (get_function_data fn (_get_function_signature fn)
                        (Some (cls_key, class_data)))).

(** The properties [class_hook] hides: the private ones, and the protected
    ones of a class without trampoline. *)
Definition property_hidden (has_trampoline : bool) (access : Access) : bool :=
  bool_decide (access = private) || (bool_decide (access = protected) && negb has_trampoline).

(** A method that has been through [_function_hook]. *)
Definition is_bound (m : MethodOut) : bool :=
  match m_out m with Some _ => true | None => false end.

(** * Further inputs used in the examples *)

Module Ex2.

Definition ref_param (name raw_type : string) (constant : nat) : Param :=
  {| p_name := name; p_raw_type := raw_type; p_enum := None; p_reference := 1;
     p_pointer := 0; p_constant := constant; p_fundamental := false;
     p_unresolved := false; p_array := 0; p_array_size := None; p_default := None;
     p_class_is_cls := false; p_force_out := None; p_ignore := None;
     p_x_type := None; p_x_callname := None; p_x_retname := None; p_x_pyarg := None;
     p_x_type_full := None; p_x_decl := None |}.

(** The constructor [Motor(const Config& cfg, int port, Listener& listener)] *)
Definition Motor_ctor : Function :=
  {| fn_name := "Motor"; fn_returns := ""; fn_rtnType := "void"; fn_constructor := true;
     fn_destructor := false; fn_operator := false; fn_const := false;
     fn_virtual := false; fn_override := false;
     fn_parent := Some {| par_name := "Motor"; par_namespace := "frc";
                          par_public_properties := [] |};
     fn_parameters := [ref_param "cfg" "Config" 1; Ex.param "port" "int" 0 true;
                       ref_param "listener" "Listener" 0] |}.

(** [void SetRaw(int, uint16_t* raw, double)]: two parameters without a name,
    and a pointer to a fixed-width integer that the parser has not marked
    as fundamental. *)
Definition SetRaw : Function :=
  Ex.function "SetRaw" "void"
    [Ex.param "" "int" 0 true; Ex.param "raw" "uint16_t" 1 false;
     Ex.param "" "double" 0 true].

(** The copy constructor [Motor(const Motor& other)] *)
Definition Motor_copy : Function :=
  {| fn_name := "Motor"; fn_returns := ""; fn_rtnType := "void"; fn_constructor := true;
     fn_destructor := false; fn_operator := false; fn_const := false;
     fn_virtual := false; fn_override := false; fn_parent := None;
     fn_parameters :=
       [{| p_name := "other"; p_raw_type := "Motor"; p_enum := None; p_reference := 1;
           p_pointer := 0; p_constant := 1; p_fundamental := false;
           p_unresolved := false; p_array := 0; p_array_size := None; p_default := None;
           p_class_is_cls := true; p_force_out := None; p_ignore := None;
           p_x_type := None; p_x_callname := None; p_x_retname := None; p_x_pyarg := None;
           p_x_type_full := None; p_x_decl := None |}] |}.

(** The destructor [~Motor()] *)
Definition Motor_dtor : Function :=
  {| fn_name := "~Motor"; fn_returns := ""; fn_rtnType := "void"; fn_constructor := false;
     fn_destructor := true; fn_operator := false; fn_const := false;
     fn_virtual := false; fn_override := false; fn_parent := None; fn_parameters := [] |}.

Definition property (name raw_type : string) : Property :=
  {| v_name := name; v_raw_type := raw_type; v_fundamental := true; v_reference := 0;
     v_data := None; v_x_name := None; v_x_readonly := None |}.

(** A final class without bases or virtual methods:
    [class Motor final { public: Motor(const Motor&); ~Motor(); int Get();
    int port; protected: int Update(); int state; private: Motor(const
    Config&, int, Listener&); int Reset(); int handle; }] *)
Definition Motor : Class :=
  {| cls_name := "Motor"; cls_namespace := "frc"; cls_parents := [];
     cls_access_in_parent := public; cls_final := true;
     cls_inherits := []; cls_enums_public := [];
     cls_methods := λ access, match access with
                              | public => [Motor_copy; Motor_dtor; Ex.method "Get" false]
                              | protected => [Ex.method "Update" false]
                              | private => [Motor_ctor; Ex.method "Reset" false]
                              end;
     cls_properties := λ access, match access with
                                 | public => [property "port" "int"]
                                 | protected => [property "state" "int"]
                                 | private => [property "handle" "int"]
                                 end |}.

(** A class nested in a private section of [Motor]. *)
Definition Hidden : Class :=
  {| cls_name := "Hidden"; cls_namespace := "frc"; cls_parents := ["Motor"];
     cls_access_in_parent := private; cls_final := false;
     cls_inherits := [Ex.base "Base"]; cls_enums_public := [];
     cls_methods := λ _, []; cls_properties := λ _, [] |}.

(** A class with a method whose buffer spec names a source that is no
    parameter. *)
Definition Port : Class :=
  {| cls_name := "Port"; cls_namespace := "frc"; cls_parents := [];
     cls_access_in_parent := public; cls_final := false;
     cls_inherits := []; cls_enums_public := [];
     cls_methods := λ access, match access with
                              | protected => [Ex.Write]
                              | _ => []
                              end;
     cls_properties := λ _, [] |}.

(** [class_hook] with a registry that answers [fd] for every function. *)
Definition class_hook_fn (fd : FunctionData) : Class → HookM (option ClassOut) :=
  class_hook (λ _, Ex.class_data [] []) (λ _ _ _, fd) (λ _ _ _, Ex.enum_data None)
    (λ _ _ _, Ex.prop_data) [].

End Ex2.

(** * Properties *)

(** ** Strings *)

Lemma app_cons (a : ascii) (s t : string) : String a s +:+ t = String a (s +:+ t).
Proof. reflexivity. Qed.

Lemma app_nil (t : string) : "" +:+ t = t.
Proof. reflexivity. Qed.

Lemma startswith_app (pfx rest : string) : PyStr.startswith (pfx +:+ rest) pfx = true.
Proof.
  induction pfx as [|a pfx IH]; [done|].
  rewrite app_cons. simpl. by rewrite decide_True.
Qed.

Lemma startswith_inv (s pfx : string) :
  PyStr.startswith s pfx = true → s = pfx +:+ PyStr.drop (String.length pfx) s.
Proof.
  revert s. induction pfx as [|a pfx IH]; intros s; simpl; [done|].
  destruct s as [|b s]; [done|]. case_decide as Hab; [|done].
  intros Hs. subst b. rewrite app_cons. f_equal. by apply IH.
Qed.

Lemma drop_length_app (pfx rest : string) :
  PyStr.drop (String.length pfx) (pfx +:+ rest) = rest.
Proof. induction pfx as [|a pfx IH]; [done|]. rewrite app_cons. simpl. done. Qed.

Lemma startswith_iff (s pfx : string) :
  PyStr.startswith s pfx = true ↔ ∃ rest, s = pfx +:+ rest.
Proof.
  split.
  - intros H. eexists. by apply startswith_inv.
  - intros [rest ->]. apply startswith_app.
Qed.

Lemma app_empty_r (s : string) : s +:+ "" = s.
Proof. induction s as [|a s IH]; [done|]. by rewrite app_cons, IH. Qed.

Lemma drop_length_self (s : string) : PyStr.drop (String.length s) s = "".
Proof. rewrite <-(app_empty_r s) at 2. apply drop_length_app. Qed.

Lemma startswith_self (s : string) : PyStr.startswith s s = true.
Proof. apply startswith_iff. exists "". by rewrite app_empty_r. Qed.

Lemma drop_empty_inv (s pfx : string) :
  PyStr.startswith s pfx = true → PyStr.drop (String.length pfx) s = "" → s = pfx.
Proof. intros H1 H2. apply startswith_inv in H1. rewrite H2, app_empty_r in H1. done. Qed.

Lemma truthy_iff (s : string) : PyStr.truthy s = true ↔ s ≠ "".
Proof. destruct s; simpl; split; done. Qed.

(** ** Enum value names *)

Lemma enum_value_prefix_named en data ename :
  en_name en = Some ename → ename ≠ "" →
  enum_value_prefix en data = Some (described_prefix (ed_value_prefix data) ename)
  ∧ described_prefix (ed_value_prefix data) ename ≠ "".
Proof.
  intros Hn Hne. unfold enum_value_prefix, described_prefix. rewrite Hn. simpl.
  apply truthy_iff in Hne as Ht. rewrite Ht.
  destruct (ed_value_prefix data) as [p|]; simpl; [|done].
  destruct (PyStr.truthy p) eqn:Hp; [|done]. split; [done|]. by apply truthy_iff.
Qed.

Lemma enum_value_x_name_ok pfx name :
  pfx ≠ "" → name ≠ pfx →
  enum_value_x_name (Some pfx) name = Ok (described_short_name pfx name).
Proof.
  intros Hp Hne. unfold enum_value_x_name, described_short_name.
  apply truthy_iff in Hp. rewrite Hp. simpl.
  destruct (PyStr.startswith name pfx) eqn:Hs; [|done].
  destruct (PyStr.drop (String.length pfx) name) as [|c rest] eqn:Hd.
  - destruct Hne. by apply drop_empty_inv.
  - simpl. case_decide as Hc.
    + subst c. done.
    + destruct c as [[] [] [] [] [] [] [] []]; done.
Qed.

Lemma enum_value_x_name_self pfx :
  pfx ≠ "" → enum_value_x_name (Some pfx) pfx = Raise IndexError.
Proof.
  intros Hp. unfold enum_value_x_name. apply truthy_iff in Hp. rewrite Hp.
  by rewrite startswith_self, drop_length_self.
Qed.

(** Whatever ends the normalisation of a value, it is an index error. *)
Lemma enum_value_x_name_raise value_prefix name e :
  enum_value_x_name value_prefix name = Raise e → e = IndexError.
Proof.
  unfold enum_value_x_name. destruct value_prefix as [pfx|]; [|done].
  destruct (_ && _); [|done].
  destruct (PyStr.drop _ _); [congruence|]. by case_decide.
Qed.

Lemma enum_values_loop_cons value_prefix v vs :
  enum_values_loop value_prefix (v :: vs)
  = match enum_value_x_name value_prefix (ev_name v) with
    | Ok x =>
        match enum_values_loop value_prefix vs with
        | Ok vs' => Ok ({| ev_name := ev_name v; ev_x_name := Some x |} :: vs')
        | Raise e => Raise e
        end
    | Raise e => Raise e
    end.
Proof. reflexivity. Qed.

Lemma enum_values_loop_ok pfx vs :
  pfx ≠ "" → (∀ v, v ∈ vs → ev_name v ≠ pfx) →
  enum_values_loop (Some pfx) vs
  = Ok ((λ v, {| ev_name := ev_name v;
                 ev_x_name := Some (described_short_name pfx (ev_name v)) |}) <$> vs).
Proof.
  intros Hp. induction vs as [|v vs IH]; intros Hvs; [done|].
  rewrite enum_values_loop_cons, enum_value_x_name_ok, IH; [done| |done|].
  - intros w Hw. apply Hvs. by right.
  - apply Hvs. by left.
Qed.

Lemma enum_values_loop_raise pfx vs v :
  pfx ≠ "" → v ∈ vs → ev_name v = pfx →
  enum_values_loop (Some pfx) vs = Raise IndexError.
Proof.
  intros Hp Hin Hv. induction Hin as [v vs|v w vs Hin IH]; rewrite enum_values_loop_cons.
  - by rewrite Hv, enum_value_x_name_self.
  - destruct (enum_value_x_name (Some pfx) (ev_name w)) as [x|e] eqn:Hw.
    + by rewrite IH.
    + by rewrite (enum_value_x_name_raise _ _ _ Hw).
Qed.

(** C8. For a named enum, the value prefix is the configured one or else the
    enum's own name, and when no enumerator is the prefix itself the hook
    returns with every enumerator's [x_name] equal to the described short
    name: the prefix cut off once if the name starts with it, then one
    leading underscore cut off, and otherwise the name unchanged. *)
Theorem enum_hook_short_names sp en data ename :
  en_name en = Some ename → ename ≠ "" →
  (∀ v, v ∈ en_values en → ev_name v ≠ described_prefix (ed_value_prefix data) ename) →
  enum_value_prefix en data = Some (described_prefix (ed_value_prefix data) ename)
  ∧ ∃ en', _enum_hook sp en data = Ok en'
      ∧ ev_name <$> en_values en' = ev_name <$> en_values en
      ∧ ev_x_name <$> en_values en'
        = (λ v, Some (described_short_name
                        (described_prefix (ed_value_prefix data) ename) (ev_name v)))
            <$> en_values en.
Proof.
  intros Hn Hne Hvs.
  destruct (enum_value_prefix_named en data ename Hn Hne) as [Hp Hpne].
  split; [done|]. unfold _enum_hook. rewrite Hp.
  rewrite enum_values_loop_ok by done. simpl. eexists. split; [done|]. simpl.
  rewrite <-!list_fmap_compose. split; by apply list_fmap_ext.
Qed.

(** C10. For a named enum with an enumerator whose full name is exactly the
    value prefix (configured, or defaulted to the enum's name), the hook
    raises an index error instead of producing short names. *)
Theorem enum_hook_prefix_only_value sp en data ename v :
  en_name en = Some ename → ename ≠ "" →
  v ∈ en_values en →
  ev_name v = described_prefix (ed_value_prefix data) ename →
  _enum_hook sp en data = Raise IndexError.
Proof.
  intros Hn Hne Hin Hv.
  destruct (enum_value_prefix_named en data ename Hn Hne) as [Hp Hpne].
  unfold _enum_hook. rewrite Hp.
  by rewrite (enum_values_loop_raise _ _ v Hpne Hin Hv).
Qed.

(** The two Color scenarios: without a configured prefix the names pass
    through, with [value_prefix: kColor] they become [Red] and [Blue]. *)
Lemma enum_hook_short_names_Color :
  (∃ en', _enum_hook [] Ex.Color (Ex.enum_data None) = Ok en'
     ∧ ev_x_name <$> en_values en' = [Some "kColorRed"; Some "kColorBlue"])
  ∧ (∃ en', _enum_hook [] Ex.Color (Ex.enum_data (Some "kColor")) = Ok en'
       ∧ ev_x_name <$> en_values en' = [Some "Red"; Some "Blue"]).
Proof.
  split.
  - destruct (enum_hook_short_names [] Ex.Color (Ex.enum_data None) "Color")
      as (_ & en' & Hok & _ & Hx); [reflexivity|done|..].
    + intros v Hv. apply list_elem_of_In in Hv. simpl in Hv.
      destruct Hv as [<-|[<-|[]]]; done.
    + exists en'. split; [exact Hok|exact Hx].
  - destruct (enum_hook_short_names [] Ex.Color (Ex.enum_data (Some "kColor")) "Color")
      as (_ & en' & Hok & _ & Hx); [reflexivity|done|..].
    + intros v Hv. apply list_elem_of_In in Hv. simpl in Hv.
      destruct Hv as [<-|[<-|[]]]; done.
    + exists en'. split; [exact Hok|exact Hx].
Defined.

Lemma enum_hook_prefix_only_value_Mode :
  _enum_hook [] Ex.Mode (Ex.enum_data None) = Raise IndexError.
Proof.
  apply (enum_hook_prefix_only_value [] Ex.Mode (Ex.enum_data None) "Mode" (Ex.value "Mode")).
  - reflexivity.
  - done.
  - left.
  - reflexivity.
Defined.

(** C8 as stated fails: [enum Mode { Mode, Mode_Fast }] is a named enum,
    yet its enumerator [Mode] gets no short name: the described one would
    be the empty string, and the hook raises instead of returning. *)
Lemma prefix_only_value_has_no_short_name :
  described_short_name "Mode" "Mode" = ""
  ∧ ¬ enum_names_as_described [] Ex.Mode (Ex.enum_data None).
Proof.
  split; [reflexivity|].
  intros H. destruct (H "Mode") as (en' & Hok & _); [reflexivity|done|].
  vm_compute in Hok. discriminate Hok.
Qed.

(** ** Function names *)

Lemma strip_first_prefix_spec sp name : StripFirst name sp (strip_first_prefix sp name).
Proof.
  induction sp as [|pfx sp IH]; simpl; [constructor|].
  destruct (PyStr.startswith name pfx) eqn:Hs.
  - apply strip_here. by apply startswith_inv.
  - apply strip_later; [|done]. intros rest ->. by rewrite startswith_app in Hs.
Qed.

Lemma strip_first_prefix_none sp name :
  (∀ pfx, pfx ∈ sp → PyStr.startswith name pfx = false) → strip_first_prefix sp name = name.
Proof.
  induction sp as [|pfx sp IH]; intros Hsp; simpl; [done|].
  rewrite Hsp by left. apply IH. intros p Hp. apply Hsp. by right.
Qed.

Lemma char_upper_not_lower c : PyStr.char_isupper c = true → PyStr.char_islower c = false.
Proof. destruct c as [[] [] [] [] [] [] [] []]; vm_compute; congruence. Qed.

Lemma both_upper_isupper s : both_upper s → PyStr.isupper (PyStr.take 2 s) = true.
Proof.
  intros (a & b & rest & -> & Ha & Hb). unfold PyStr.isupper. simpl.
  by rewrite (char_upper_not_lower a Ha), (char_upper_not_lower b Hb), Ha.
Qed.

Lemma set_name_renamed sp name r : r ≠ "" → _set_name sp name (Some r) = r.
Proof. intros Hr. unfold _set_name. apply truthy_iff in Hr. by rewrite Hr. Qed.

Lemma set_name_not_renamed sp name rename :
  PyStr.otruthy rename = false → _set_name sp name rename = strip_first_prefix sp name.
Proof. unfold _set_name. destruct rename as [r|]; simpl; [|done]. by intros ->. Qed.

(** C5, as the code has it.  A non-empty rename is the name, whatever the
    prefixes; it is also the [x_name] that [_function_hook] binds.  Without
    a rename the first prefix in list order that the name starts with is cut
    off once, and the first character of what is left is lowercased, whether
    or not a prefix was cut off, unless its first two characters hold an
    uppercase and no lowercase character (so in particular when both are
    uppercase); an empty remainder raises. *)
Theorem function_name_resolution sp name rename :
  (∀ r, rename = Some r → r ≠ "" →
     _set_name sp name rename = r ∧ camel_name sp name rename = Ok r
     ∧ ∀ types fn data internal out,
         fn_name fn = name → fd_rename data = rename →
         fr_outcome (_function_hook sp types fn data internal) = Ok out → x_name out = r)
  ∧ (PyStr.otruthy rename = false →
     ∃ stripped,
       StripFirst name sp stripped
       ∧ _set_name sp name rename = stripped
       ∧ camel_name sp name rename
         = (if decide (stripped = "") then Raise IndexError
            else if PyStr.isupper (PyStr.take 2 stripped) then Ok stripped
            else Ok (lower_first stripped))
       ∧ (both_upper stripped → camel_name sp name rename = Ok stripped)).
Proof.
  split.
  - intros r -> Hr. rewrite set_name_renamed by done.
    assert (Hc : camel_name sp name (Some r) = Ok r).
    { unfold camel_name. rewrite set_name_renamed by done. simpl.
      apply truthy_iff in Hr. by rewrite Hr. }
    split; [done|]. split; [done|].
    intros types fn data internal out Hn Hd. unfold _function_hook.
    rewrite Hn, Hd, Hc. destruct (buffer_tables _ _ _) as [[bp bl]|e]; [|done].
    simpl. unfold finish_function. destruct (Dict.truthy _); [done|].
    intros [= <-]. simpl. rewrite Hd. simpl. apply truthy_iff in Hr. by rewrite Hr.
  - intros Hr. exists (strip_first_prefix sp name).
    split; [apply strip_first_prefix_spec|]. split; [by apply set_name_not_renamed|].
    assert (Hc : camel_name sp name rename
                 = (if decide (strip_first_prefix sp name = "") then Raise IndexError
                    else if PyStr.isupper (PyStr.take 2 (strip_first_prefix sp name))
                    then Ok (strip_first_prefix sp name)
                    else Ok (lower_first (strip_first_prefix sp name)))).
    { unfold camel_name. rewrite set_name_not_renamed, Hr by done. simpl.
      destruct (strip_first_prefix sp name) as [|c rest]; [done|].
      rewrite decide_False by done. by destruct (PyStr.isupper _). }
    split; [done|]. intros Hup. rewrite Hc.
    rewrite (both_upper_isupper _ Hup).
    destruct Hup as (a & b & rest & -> & _). done.
Qed.

(** The name [HAL_GetValue] under the prefix list [HAL_]: the prefix is cut
    off and the first character is lowercased all the same. *)
Lemma function_name_resolution_HAL :
  ∃ stripped, StripFirst "HAL_GetValue" ["HAL_"] stripped
    ∧ _set_name ["HAL_"] "HAL_GetValue" None = stripped
    ∧ camel_name ["HAL_"] "HAL_GetValue" None = Ok "getValue".
Proof.
  destruct (function_name_resolution ["HAL_"] "HAL_GetValue" None) as [_ H].
  destruct (H eq_refl) as (stripped & Hs & Hn & Hc & _).
  exists stripped. split; [exact Hs|]. split; [exact Hn|]. reflexivity.
Defined.

(** C5 as stated fails: with the prefix [HAL_] stripped from [HAL_GetValue]
    the conversion still turns [GetValue] into [getValue]. *)
Lemma camel_case_after_strip :
  ¬ camel_case_only_unstripped ["HAL_"] "HAL_GetValue" None.
Proof.
  intros H. destruct (H "getValue") as [_ Hp]; [reflexivity|done|].
  assert (Hs : PyStr.startswith "HAL_GetValue" "HAL_" = false) by (apply Hp; left).
  discriminate Hs.
Qed.

(** ** The type-caster registry *)

Lemma record_types_types ts self :
  types (record_types ts self) = list_to_set ts ∪ types self.
Proof.
  revert self. induction ts as [|t ts IH]; intros self; simpl.
  - set_solver.
  - unfold record_types in *. simpl. rewrite IH. simpl. set_solver.
Qed.

Lemma strip_template_eq (typename : string) :
  match PyStr.find "<" typename with
  | Some tmpl_idx => PyStr.take tmpl_idx typename
  | None => typename
  end = before_template typename.
Proof.
  induction typename as [|c rest IH]; simpl; [done|].
  case_decide; [done|].
  destruct (PyStr.find "<" rest) as [i|]; simpl; by rewrite <-IH.
Qed.

Lemma caster_header_Some casters typename header :
  caster_header casters typename = Some header
  ↔ header ≠ "" ∧ casters !! before_template typename = Some header.
Proof.
  unfold caster_header. rewrite strip_template_eq.
  destruct (casters !! before_template typename) as [h|]; [|naive_solver].
  destruct (PyStr.truthy h) eqn:Hh.
  - apply truthy_iff in Hh. naive_solver.
  - destruct h; naive_solver.
Qed.

(** The set [includes] that the loop over [self.types] builds. *)
Lemma includes_fold casters (recorded : gset string) header :
  header ∈ set_fold (λ typename (includes : gset string),
              match caster_header casters typename with
              | Some h => {[ h ]} ∪ includes
              | None => includes
              end) (∅ : gset string) recorded
  ↔ ∃ typename, typename ∈ recorded ∧ caster_header casters typename = Some header.
Proof.
  apply (set_fold_ind_L (λ (includes : gset string) (X : gset string),
    header ∈ includes ↔ ∃ t, t ∈ X ∧ caster_header casters t = Some header)).
  - set_solver.
  - intros t X includes Ht IH.
    destruct (caster_header casters t) as [h|] eqn:Hh.
    + rewrite elem_of_union, elem_of_singleton, IH. split.
      * intros [->|(t' & Ht' & Hh')]; [exists t|exists t']; set_solver.
      * intros (t' & [Ht'%elem_of_singleton|Ht']%elem_of_union & Hh').
        -- left. subst t'. congruence.
        -- right. by exists t'.
    + rewrite IH. split.
      * intros (t' & Ht' & Hh'). exists t'. set_solver.
      * intros (t' & [Ht'%elem_of_singleton|Ht']%elem_of_union & Hh').
        -- subst t'. congruence.
        -- by exists t'.
Qed.

(** C9. Once the types [ts] have been recorded, the resolved includes are
    sorted and free of duplicates, hold exactly the non-empty paths that the
    table gives for some recorded type cut before its first [<] (a type
    with no table entry, or with an empty path as its entry, adds nothing),
    and are the same for any other recording [ts'] of the same types,
    whatever its order and repetitions. *)
Theorem type_caster_includes casters ts ts' :
  (∀ t, t ∈ ts ↔ t ∈ ts') →
  Sorted String.le (includes_after casters ts)
  ∧ NoDup (includes_after casters ts)
  ∧ (∀ header, header ∈ includes_after casters ts
        ↔ header ≠ "" ∧ ∃ t, t ∈ ts ∧ casters !! before_template t = Some header)
  ∧ includes_after casters ts' = includes_after casters ts.
Proof.
  intros Hsame. unfold includes_after, _get_type_caster_includes.
  rewrite !record_types_types. simpl. rewrite !(right_id_L ∅ (∪)).
  split; [apply (Sorted_merge_sort _)|].
  split; [rewrite merge_sort_Permutation; apply NoDup_elements|].
  split.
  - intros header. rewrite merge_sort_Permutation, elem_of_elements, includes_fold.
    split.
    + intros (t & Ht%elem_of_list_to_set & Hh%caster_header_Some). naive_solver.
    + intros (Hne & t & Ht & Hh). exists t. split; [by apply elem_of_list_to_set|].
      by apply caster_header_Some.
  - replace (list_to_set ts' : gset string) with (list_to_set ts : gset string); [done|].
    apply set_eq. intros t. rewrite !elem_of_list_to_set. apply Hsame.
Qed.

(** Two recordings of the same types, in different orders and with a
    repetition, resolve to the same sorted includes. *)
Lemma type_caster_includes_recorded :
  includes_after Ex.casters Ex.recorded2 = includes_after Ex.casters Ex.recorded1
  ∧ Sorted String.le (includes_after Ex.casters Ex.recorded1).
Proof.
  destruct (type_caster_includes Ex.casters Ex.recorded1 Ex.recorded2) as (Hs & _ & _ & He).
  - intros t. unfold Ex.recorded1, Ex.recorded2. rewrite !elem_of_cons, !elem_of_nil.
    tauto.
  - split; [exact He|exact Hs].
Defined.

(** C9 as stated fails: with the table [{std::string: ''}] and the type
    [std::string] recorded, the type has a table entry, the empty path, but
    the resolved includes are empty: an empty path is left out like a
    missing entry. *)
Lemma empty_path_omitted :
  includes_after {[ "std::string" := "" ]} ["std::string"] = []
  ∧ ¬ includes_as_described {[ "std::string" := "" ]} ["std::string"].
Proof.
  assert (He : includes_after {[ "std::string" := "" ]} ["std::string"] = [])
    by (vm_compute; reflexivity).
  split; [exact He|].
  intros H. specialize (H ""). rewrite He in H.
  apply (not_elem_of_nil ""), H. exists "std::string". split; [left|].
  vm_compute. reflexivity.
Qed.

(** ** Buffer specifications *)





(** C4 at a failing input: [void Write(uint8_t* buf)] with the buffer spec
    [{src: buf, len: n}].  No parameter is called [n], yet the hook returns
    normally, with a statement that assigns to the undeclared [n]. *)
Theorem unmatched_length_name_accepted :
  let r := _function_hook [] ∅ Ex.Write (Ex.data [Ex.buffer "buf" "n"]) false in
  p_name <$> fr_parameters r = ["buf"]
  ∧ ∃ out, fr_outcome r = Ok out
      ∧ x_lambda_pre out
        = ["auto __buf = buf.request(false)"; "n = __buf.size * __buf.itemsize"].
Proof.
  split; [vm_compute; reflexivity|]. eexists. split; vm_compute; reflexivity.
Qed.

(** The sibling check: an unmatched source name is rejected. *)
Lemma unmatched_source_name_rejected :
  fr_outcome (_function_hook [] ∅ Ex.Write (Ex.data [Ex.buffer "data" "n"]) false)
  = Raise (ValueError "incorrect buffer param names 'data'").
Proof. vm_compute. reflexivity. Qed.

(** C3 as stated fails: in [int GetValue(uint8_t* buf, int* len)] the
    length parameter is a pointer, so it is an out-parameter and is returned
    next to the primary value. *)
Lemma GetValue_length_returned :
  ¬ length_suppressed (_function_hook [] ∅ Ex.GetValue (Ex.data [Ex.buffer "buf" "len"]) false).
Proof.
  intros (out & Hok & Hout & _). vm_compute in Hok. injection Hok as <-.
  discriminate Hout.
Qed.

(** C3, as the code has it.  For [int GetValue(uint8_t* buf, int* len)]
    with the spec [{src: buf, len: len, type: in}]: [buf] is in buffer mode,
    the length is computed as [__buf.size * __buf.itemsize], and [len],
    being a pointer, is an out-parameter passed as [&len] and returned
    after the primary value.  With a non-pointer [int len] the parameter is
    an ignored temporary and only the primary value is returned. *)
Theorem GetValue_classification :
  (∃ out buf len,
      fr_outcome (_function_hook [] ∅ Ex.GetValue (Ex.data [Ex.buffer "buf" "len"]) false)
      = Ok out
      ∧ x_all_params out = [buf; len] ∧ x_in_params out = [buf] ∧ x_out_params out = [len]
      ∧ p_x_type buf = Some "const py::buffer"
      ∧ p_x_callname buf = Some "(uint8_t*)__buf.ptr"
      ∧ p_x_callname len = Some "&len"
      ∧ x_lambda_pre out = ["int len = 0"; "auto __buf = buf.request(false)";
                            "len = __buf.size * __buf.itemsize"]
      ∧ x_rets out = [PrimaryRet "__ret" "int"; ParamRet len]
      ∧ x_wrap_return out = "return std::make_tuple(__ret,len);")
  ∧ (∃ out buf len,
      fr_outcome (_function_hook [] ∅ Ex.GetValue' (Ex.data [Ex.buffer "buf" "len"]) false)
      = Ok out
      ∧ x_all_params out = [buf; len] ∧ x_in_params out = [buf] ∧ x_out_params out = []
      ∧ p_x_callname len = Some "len"
      ∧ x_lambda_pre out = ["int len = 0"; "auto __buf = buf.request(false)";
                            "len = __buf.size * __buf.itemsize"]
      ∧ x_rets out = [PrimaryRet "__ret" "int"]
      ∧ x_wrap_return out = "return __ret;").
Proof.
  split; do 3 eexists; (split; [vm_compute; reflexivity|]);
    repeat split; vm_compute; reflexivity.
Qed.

(** ** Return aggregation *)

Lemma param_roles_cons po parent bp bl i p ps :
  param_roles po parent bp bl i (p :: ps)
  = ((param_body po parent bp bl i p).1.1, (param_body po parent bp bl i p).2)
    :: param_roles po parent
         (Dict.remove (p_name (param_body po parent bp bl i p).2) bp)
         (Dict.remove (p_name (param_body po parent bp bl i p).2) bl) (S i) ps.
Proof.
  change (param_roles po parent bp bl i (p :: ps))
    with (let '(ptype, _, p') := param_body po parent bp bl i p in
          (ptype, p') :: param_roles po parent
                           (Dict.remove (p_name p') bp) (Dict.remove (p_name p') bl) (S i) ps).
  by destruct (param_body po parent bp bl i p) as [[ptype c] p'].
Qed.

Lemma param_loop_cons is_constructor po parent st i p ps :
  param_loop is_constructor po parent st i (p :: ps)
  = param_loop is_constructor po parent (param_step is_constructor po parent st i p) (S i) ps.
Proof. reflexivity. Qed.

Lemma param_loop_roles is_constructor po parent st i ps :
  ls_out_params (param_loop is_constructor po parent st i ps)
  = ls_out_params st
    ++ (filter (λ rp, is_out rp)
          (param_roles po parent (ls_buffer_params st) (ls_buflen_params st) i ps)).*2
  ∧ ls_params (param_loop is_constructor po parent st i ps)
    = ls_params st
      ++ (param_roles po parent (ls_buffer_params st) (ls_buflen_params st) i ps).*2.
Proof.
  revert st i. induction ps as [|p ps IH]; intros st i.
  - simpl. by rewrite !app_nil_r.
  - rewrite param_loop_cons, param_roles_cons.
    destruct (IH (param_step is_constructor po parent st i p) (S i)) as [IH1 IH2].
    rewrite IH1, IH2. unfold param_step.
    destruct (param_body po parent (ls_buffer_params st) (ls_buflen_params st) i p)
      as [[ptype c] p'].
    simpl. rewrite filter_cons.
    assert (Hio : negb (default false (p_ignore p')) && bool_decide (ptype = pt_out)
                  = is_out (ptype, p')) by apply andb_comm.
    rewrite Hio. destruct (is_out (ptype, p')).
    + rewrite decide_True by done. simpl. by rewrite <-!app_assoc.
    + rewrite decide_False by (by intros []). by rewrite <-!app_assoc.
Qed.

Lemma make_rets_eq rtnType out_params :
  make_rets rtnType out_params
  = (if decide (rtnType = "void") then [] else [PrimaryRet "__ret" rtnType])
    ++ (ParamRet <$> out_params).
Proof.
  unfold make_rets. case_bool_decide as Hnil; [rewrite Hnil|]; by case_decide.
Qed.

(** What a normal return of [_function_hook] says about the tables and the
    loop that preceded it. *)
Lemma function_hook_Ok sp types fn data internal out :
  fr_outcome (_function_hook sp types fn data internal) = Ok out →
  ∃ x_name0 bp bl,
    camel_name sp (fn_name fn) (fd_rename data) = Ok x_name0
    ∧ buffer_tables (fd_buffers data) [] [] = Ok (bp, bl)
    ∧ fr_parameters (_function_hook sp types fn data internal)
      = ls_params (param_loop (fn_constructor fn) (fd_param_override data) (fn_parent fn)
                     (init_loop ({[ fn_returns fn ]} ∪ types) bp bl) 0 (fn_parameters fn))
    ∧ finish_function x_name0 fn data internal
        (param_loop (fn_constructor fn) (fd_param_override data) (fn_parent fn)
           (init_loop ({[ fn_returns fn ]} ∪ types) bp bl) 0 (fn_parameters fn))
      = Ok out.
Proof.
  unfold _function_hook.
  destruct (camel_name sp (fn_name fn) (fd_rename data)) as [x_name0|e]; [|done].
  destruct (buffer_tables (fd_buffers data) [] []) as [[bp bl]|e]; [|done].
  simpl. intros Hout. by exists x_name0, bp, bl.
Qed.

(** C2, as the code has it.  When the hook returns, [x_rets] is the primary
    return value (if the return type is not [void]) followed by the
    out-parameters, which are the parameters classified [out] and not
    ignored, in declaration order; so its length is 0 or 1 plus their
    number.  No entry gives no return statement, more than one gives a tuple
    in that order, and exactly one gives a direct return of that value
    unless the type of that entry is [void], which gives no return
    statement. *)
Theorem return_aggregation sp types fn data internal out :
  fr_outcome (_function_hook sp types fn data internal) = Ok out →
  ∃ bp bl roles,
    buffer_tables (fd_buffers data) [] [] = Ok (bp, bl)
    ∧ roles = param_roles (fd_param_override data) (fn_parent fn) bp bl 0 (fn_parameters fn)
    ∧ fr_parameters (_function_hook sp types fn data internal) = roles.*2
    ∧ x_out_params out = (filter (λ rp, is_out rp) roles).*2
    ∧ x_rets out
      = (if decide (fn_rtnType fn = "void") then []
         else [PrimaryRet "__ret" (fn_rtnType fn)])
        ++ (ParamRet <$> x_out_params out)
    ∧ List.length (x_rets out)
      = (if decide (fn_rtnType fn = "void") then 0 else 1) + List.length (x_out_params out)
    ∧ (x_rets out = [] → x_wrap_return out = "")
    ∧ (∀ r, x_rets out = [r] →
         x_wrap_return out
         = if decide (ret_x_type r = "void") then ""
           else "return " +:+ ret_x_retname r +:+ ";")
    ∧ ((2 ≤ List.length (x_rets out))%nat →
         x_wrap_return out
         = "return std::make_tuple("
           +:+ PyStr.join "," (ret_x_retname <$> x_rets out) +:+ ");").
Proof.
  intros Hout.
  destruct (function_hook_Ok _ _ _ _ _ _ Hout) as (x_name0 & bp & bl & _ & Hbt & Hps & Hfin).
  exists bp, bl, (param_roles (fd_param_override data) (fn_parent fn) bp bl 0 (fn_parameters fn)).
  destruct (param_loop_roles (fn_constructor fn) (fd_param_override data) (fn_parent fn)
              (init_loop ({[ fn_returns fn ]} ∪ types) bp bl) 0 (fn_parameters fn))
    as [Hroles1 Hroles2].
  simpl in Hroles1, Hroles2.
  unfold finish_function in Hfin. destruct (Dict.truthy _); [done|].
  injection Hfin as <-. simpl.
  split; [done|]. split; [done|]. split; [by rewrite Hps|]. split; [done|].
  rewrite make_rets_eq. split; [done|].
  split; [rewrite length_app, length_fmap; by case_decide|].
  unfold make_wrap_return.
  split; [by intros ->|]. split; [by intros r ->|].
  intros Hlen. destruct (_ ++ _) as [|r1 [|r2 rs]]; simpl in Hlen; [lia|lia|done].
Qed.

(** [double Read(int* status, double scale)]: the primary value and the
    out-parameter [status] are returned as a tuple. *)
Lemma return_aggregation_Read :
  ∃ out, fr_outcome (_function_hook [] ∅ Ex.Read (Ex.data []) false) = Ok out
    ∧ ret_x_retname <$> x_rets out = ["__ret"; "status"]
    ∧ List.length (x_rets out) = 1 + List.length (x_out_params out)
    ∧ x_wrap_return out = "return std::make_tuple(__ret,status);".
Proof.
  destruct (fr_outcome (_function_hook [] ∅ Ex.Read (Ex.data []) false)) as [out|e] eqn:Hout;
    [|vm_compute in Hout; discriminate Hout].
  destruct (return_aggregation [] ∅ Ex.Read (Ex.data []) false out Hout)
    as (bp & bl & roles & _ & _ & _ & _ & _ & Hlen & _).
  exists out. split; [reflexivity|]. vm_compute in Hout. injection Hout as <-.
  split; [reflexivity|]. split; [exact Hlen|reflexivity].
Defined.

(** C2 as stated fails: for [void Fill(void* data)] with [data] forced to
    be an out-parameter, the one return entry is [data], whose type is
    [void], and no return statement is produced. *)
Lemma void_out_param_not_returned :
  ∃ out, fr_outcome (_function_hook [] ∅ Ex.Fill Ex.Fill_data false) = Ok out
    ∧ List.length (x_rets out) = 1
    ∧ x_wrap_return out = ""
    ∧ ¬ single_return_is_direct out.
Proof.
  eexists. split; [vm_compute; reflexivity|].
  split; [reflexivity|]. split; [reflexivity|].
  intros H. specialize (H _ eq_refl). discriminate H.
Qed.

(** ** Dictionaries *)

Lemma dict_keys_cons {V} k (v : V) (d : Dict.t V) :
  Dict.keys ((k, v) :: d) = k :: Dict.keys d.
Proof. reflexivity. Qed.

Lemma dict_keys_set {V} k (v : V) d :
  NoDup (Dict.keys d) →
  NoDup (Dict.keys (Dict.set k v d))
  ∧ ∀ k', k' ∈ Dict.keys (Dict.set k v d) ↔ k' = k ∨ k' ∈ Dict.keys d.
Proof.
  induction d as [|[k1 v1] d IH]; intros Hnd; cbn [Dict.set Dict.remove Dict.get].
  - split; [apply NoDup_singleton|]. intros k'. unfold Dict.keys. simpl.
    rewrite list_elem_of_singleton, elem_of_nil. tauto.
  - rewrite dict_keys_cons in Hnd. apply NoDup_cons in Hnd as [Hk1 Hnd].
    destruct (IH Hnd) as [IH1 IH2].
    case_decide as Hk; rewrite !dict_keys_cons.
    + subst k1. split; [by apply NoDup_cons|]. intros k'. rewrite !elem_of_cons. tauto.
    + split.
      * apply NoDup_cons. split; [|done]. rewrite IH2. intros [Heq|Hin]; [|done].
        by apply Hk.
      * intros k'. rewrite !elem_of_cons, IH2. tauto.
Qed.

Lemma dict_get_set_true k d :
  Forall (λ kv, kv.2 = true) d → Forall (λ kv : string * bool, kv.2 = true) (Dict.set k true d).
Proof.
  induction d as [|[k1 v1] d IH]; intros Hd; cbn [Dict.set Dict.remove Dict.get].
  - by repeat constructor.
  - apply Forall_cons in Hd as [Hv Hd]. case_decide; constructor; auto.
Qed.

Lemma dict_get_true k (d : Dict.t bool) :
  Forall (λ kv, kv.2 = true) d →
  default false (Dict.get k d) = bool_decide (k ∈ Dict.keys d).
Proof.
  induction d as [|[k1 v1] d IH]; intros Hd; cbn [Dict.set Dict.remove Dict.get]; [done|].
  apply Forall_cons in Hd as [Hv Hd]. simpl in Hv. subst v1.
  rewrite dict_keys_cons. destruct (decide (k1 = k)) as [Hk|Hk]; simpl.
  - subst k1. symmetry. apply bool_decide_eq_true. left.
  - rewrite IH by done. apply bool_decide_ext. rewrite elem_of_cons.
    split; [by right|]. intros [Heq|Hin]; [|done]. by destruct Hk.
Qed.

Lemma dict_keys_remove {V} k (d : Dict.t V) :
  NoDup (Dict.keys d) →
  NoDup (Dict.keys (Dict.remove k d))
  ∧ ∀ k', k' ∈ Dict.keys (Dict.remove k d) ↔ k' ≠ k ∧ k' ∈ Dict.keys d.
Proof.
  induction d as [|[k1 v1] d IH]; intros Hnd; cbn [Dict.set Dict.remove Dict.get].
  - split; [constructor|]. intros k'. unfold Dict.keys. simpl. rewrite elem_of_nil. tauto.
  - rewrite dict_keys_cons in Hnd. apply NoDup_cons in Hnd as [Hk1 Hnd].
    destruct (IH Hnd) as [IH1 IH2].
    case_decide as Hk; rewrite ?dict_keys_cons.
    + subst k1. split; [done|]. intros k'. rewrite elem_of_cons. split.
      * intros Hk'. split; [|by right]. by intros ->.
      * intros [Hne [Heq|Hin]]; done.
    + split.
      * apply NoDup_cons. split; [|done]. rewrite IH2. tauto.
      * intros k'. rewrite !elem_of_cons, IH2. split; [|tauto].
        intros [->|[Hne Hin]]; [split; [done|by left]|tauto].
Qed.

Lemma dict_remove_true k (d : Dict.t bool) :
  Forall (λ kv, kv.2 = true) d → Forall (λ kv, kv.2 = true) (Dict.remove k d).
Proof.
  induction d as [|[k1 v1] d IH]; intros Hd; cbn [Dict.set Dict.remove Dict.get]; [done|].
  apply Forall_cons in Hd as [Hv Hd]. case_decide; [done|]. constructor; auto.
Qed.

Lemma filter_ext_in {A} (P1 P2 : A → Prop)
    `{!∀ x, Decision (P1 x), !∀ x, Decision (P2 x)} (l : list A) :
  (∀ x, x ∈ l → P1 x ↔ P2 x) → filter P1 l = filter P2 l.
Proof.
  induction l as [|a l IH]; intros Hl; [done|].
  rewrite !filter_cons, IH by (intros x Hx; apply Hl; by right).
  destruct (decide (P1 a)) as [H1|H1], (decide (P2 a)) as [H2|H2]; try done.
  - destruct H2. apply Hl; [left|done].
  - destruct H1. apply Hl; [left|done].
Qed.

Lemma dict_truthy_keys {V} (d : Dict.t V) : Dict.truthy d = false ↔ Dict.keys d = [].
Proof. destruct d; simpl; split; done. Qed.

(** ** Ignored bases *)

Lemma ignored_bases_dict_spec ignored :
  NoDup (Dict.keys (ignored_bases_dict ignored))
  ∧ Forall (λ kv, kv.2 = true) (ignored_bases_dict ignored)
  ∧ ∀ ib, ib ∈ Dict.keys (ignored_bases_dict ignored) ↔ ib ∈ ignored.
Proof.
  unfold ignored_bases_dict.
  cut (∀ d : Dict.t bool, NoDup (Dict.keys d) → Forall (λ kv, kv.2 = true) d →
         NoDup (Dict.keys (foldl (λ d ib, Dict.set ib true d) d ignored))
         ∧ Forall (λ kv, kv.2 = true) (foldl (λ d ib, Dict.set ib true d) d ignored)
         ∧ ∀ ib, ib ∈ Dict.keys (foldl (λ d ib, Dict.set ib true d) d ignored)
                 ↔ ib ∈ ignored ∨ ib ∈ Dict.keys d).
  { intros H. destruct (H [] (NoDup_nil_2) (Forall_nil_2 _)) as (H1 & H2 & H3).
    split; [done|]. split; [done|]. intros ib. rewrite H3.
    unfold Dict.keys. simpl. rewrite elem_of_nil. tauto. }
  induction ignored as [|ib0 ignored IH]; intros d Hnd Ht; simpl.
  - split; [done|]. split; [done|]. intros ib. rewrite elem_of_nil. tauto.
  - destruct (dict_keys_set ib0 true d Hnd) as [Hnd' Hk'].
    destruct (IH _ Hnd' (dict_get_set_true ib0 d Ht)) as (H1 & H2 & H3).
    split; [done|]. split; [done|]. intros ib. rewrite H3, Hk', elem_of_cons. tauto.
Qed.

(** With distinct declared bases, [x_inherits] is the declared bases whose
    name is not a key of [ignored_bases], and what is left of
    [ignored_bases] is the keys that name no declared base. *)
Lemma filter_bases_spec bases (d : Dict.t bool) :
  NoDup (base_class <$> bases) → NoDup (Dict.keys d) → Forall (λ kv, kv.2 = true) d →
  (filter_bases bases d).1 = filter (λ base, base_class base ∉ Dict.keys d) bases
  ∧ NoDup (Dict.keys (filter_bases bases d).2)
  ∧ ∀ k, k ∈ Dict.keys (filter_bases bases d).2
         ↔ k ∈ Dict.keys d ∧ k ∉ base_class <$> bases.
Proof.
  revert d. induction bases as [|base bases IH]; intros d Hb Hnd Ht; simpl.
  - split; [done|]. split; [done|]. intros k. rewrite elem_of_nil. tauto.
  - apply NoDup_cons in Hb as [Hbase Hb].
    destruct (dict_keys_remove (base_class base) d Hnd) as [Hnd' Hk'].
    destruct (IH (Dict.remove (base_class base) d) Hb Hnd'
                (dict_remove_true _ _ Ht)) as (IH1 & IH2 & IH3).
    destruct (filter_bases bases (Dict.remove (base_class base) d))
      as [kept unmatched] eqn:Hfb.
    simpl in *. split; [|split; [done|]].
    + assert (Hkept : kept = filter (λ base, base_class base ∉ Dict.keys d) bases).
      { rewrite IH1. apply filter_ext_in. intros b Hbin. rewrite Hk'.
        split; [|tauto]. intros Hn Hin. apply Hn. split; [|done].
        intros Heq. apply Hbase. rewrite <-Heq. apply list_elem_of_fmap. by exists b. }
      rewrite filter_cons, dict_get_true by done.
      case_bool_decide; [by rewrite decide_False by tauto|].
      rewrite decide_True by done. by rewrite Hkept.
    + intros k. rewrite IH3, Hk', elem_of_cons. tauto.
Qed.

(** ** Methods of [Hooks] and the class hierarchy *)

Lemma bind_unfold {A B} (m : HookM A) (k : A → HookM B) self :
  (m ≫= k) self
  = match m self with
    | (self', Ok a) => k a self'
    | (self', Raise e) => (self', Raise e)
    end.
Proof. reflexivity. Qed.

Lemma bind_Ok_inv {A B} (m : HookM A) (k : A → HookM B) self self' b :
  (m ≫= k) self = (self', Ok b) →
  ∃ self1 a, m self = (self1, Ok a) ∧ k a self1 = (self', Ok b).
Proof.
  rewrite bind_unfold. destruct (m self) as [self1 [a|e]]; [|done]. eauto.
Qed.

Lemma keeps_ret {A} (a : A) : keeps_hierarchy (mret a : HookM A).
Proof. done. Qed.

Lemma keeps_bind {A B} (m : HookM A) (k : A → HookM B) :
  keeps_hierarchy m → (∀ a, keeps_hierarchy (k a)) → keeps_hierarchy (m ≫= k).
Proof.
  intros Hm Hk self. rewrite bind_unfold. specialize (Hm self).
  destruct (m self) as [self1 [a|e]]; simpl in *; [|done].
  by rewrite Hk.
Qed.

Lemma keeps_add_type_caster typename : keeps_hierarchy (_add_type_caster typename).
Proof. done. Qed.

Lemma keeps_add_subpackage subpackage : keeps_hierarchy (_add_subpackage subpackage).
Proof.
  intros self. unfold _add_subpackage. destruct subpackage as [sub|]; [|done].
  by destruct (PyStr.truthy sub).
Qed.

Lemma keeps_lift {A} (r : result A) : keeps_hierarchy (lift r).
Proof. done. Qed.

Lemma keeps_run_function_hook sp fn data internal :
  keeps_hierarchy (run_function_hook sp fn data internal).
Proof. done. Qed.

Lemma keeps_method_step gfd sp cls_key class_data access st fn :
  keeps_hierarchy (method_step gfd sp cls_key class_data access st fn).
Proof.
  unfold method_step. destruct (_ || _); [apply keeps_ret|].
  case_decide; [apply keeps_ret|]. destruct (fd_ignore _); [apply keeps_ret|].
  intros self. pose proof (keeps_run_function_hook sp fn
    (gfd fn (_get_function_signature fn) (Some (cls_key, class_data)))
    (negb (bool_decide (access = public))) self) as Hk.
  destruct (run_function_hook _ _ _ _ self) as [self1 [[ps out]|e]]; done.
Qed.

Lemma keeps_methods_loop gfd sp cls_key class_data access st fns :
  keeps_hierarchy (methods_loop gfd sp cls_key class_data access st fns).
Proof.
  revert st. induction fns as [|fn fns IH]; intros st; simpl; [apply keeps_ret|].
  apply keeps_bind; [apply keeps_method_step|done].
Qed.

Lemma keeps_property_step gpd cls_key class_data access has_trampoline v :
  keeps_hierarchy (property_step gpd cls_key class_data access has_trampoline v).
Proof.
  unfold property_step. destruct (_ || _); [apply keeps_ret|].
  apply keeps_bind; [apply keeps_add_type_caster|]. intros _. apply keeps_ret.
Qed.

Lemma keeps_properties_loop gpd cls_key class_data access has_trampoline vs :
  keeps_hierarchy (properties_loop gpd cls_key class_data access has_trampoline vs).
Proof.
  induction vs as [|v vs IH]; simpl; [apply keeps_ret|].
  apply keeps_bind; [apply keeps_property_step|]. intros v'.
  apply keeps_bind; [done|]. intros vs'. apply keeps_ret.
Qed.

Lemma class_enums_state ged sp cls cls_key class_data es self :
  (class_enums ged sp cls cls_key class_data es self).1 = self.
Proof.
  induction es as [|e es IH]; simpl; [done|].
  rewrite bind_unfold. unfold lift. destruct (_enum_hook _ _ _) as [e2|err]; [|done].
  rewrite bind_unfold. destruct (class_enums _ _ _ _ _ es self) as [self1 [es'|err]];
    simpl in *; by subst.
Qed.

(** The methods loop: the polymorphism flag it leaves when it returns. *)
Lemma method_step_polymorphic gfd sp cls_key class_data access st fn self self' st' :
  method_step gfd sp cls_key class_data access st fn self = (self', Ok st') →
  ml_is_polymorphic st' = is_virtual fn || ml_is_polymorphic st.
Proof.
  unfold method_step, is_virtual. destruct (_ || _ || _); [by intros [= _ <-]|].
  case_decide; [by intros [= _ <-]|]. destruct (fd_ignore _); [by intros [= _ <-]|].
  destruct (run_function_hook _ _ _ _ self) as [self1 [[ps out]|e]]; [|done].
  by intros [= _ <-].
Qed.

Lemma methods_loop_polymorphic gfd sp cls_key class_data access st fns self self' st' :
  methods_loop gfd sp cls_key class_data access st fns self = (self', Ok st') →
  ml_is_polymorphic st' = existsb is_virtual fns || ml_is_polymorphic st.
Proof.
  revert st self. induction fns as [|fn fns IH]; intros st self; simpl.
  - by intros [= _ <-].
  - intros (self1 & st1 & Hstep & Hloop)%bind_Ok_inv.
    rewrite (IH _ _ Hloop), (method_step_polymorphic _ _ _ _ _ _ _ _ _ _ Hstep).
    by rewrite orb_assoc, (orb_comm (is_virtual fn)).
Qed.

(** ** Trampolines *)

(** C1. For every class that [class_hook] processes to the end,
    [x_has_trampoline] is [polymorphic and not final and not
    force_no_trampoline], where [polymorphic] holds exactly when the
    override marks the class polymorphic, or it has a declared base, or one
    of its methods, at any access level, is marked virtual or override. *)
Theorem trampoline_flag gcd gfd ged gpd sp cls self self' out :
  class_hook gcd gfd ged gpd sp cls self = (self', Ok (Some out)) →
  cls_x_has_trampoline out
  = described_polymorphic cls (gcd (class_key (cls_parents cls) (cls_name cls)))
    && negb (cls_final cls)
    && negb (cd_force_no_trampoline (gcd (class_key (cls_parents cls) (cls_name cls)))).
Proof.
  unfold class_hook.
  set (cls_key := class_key (cls_parents cls) (cls_name cls)).
  set (class_data := gcd cls_key).
  destruct (negb _ && _); [done|].
  destruct (cd_ignore class_data); [done|].
  intros (self1 & x_module_var & _ & H)%bind_Ok_inv.
  apply bind_Ok_inv in H as (self2 & enums & _ & H).
  destruct (filter_bases _ _) as [x_inherits unmatched].
  destruct (Dict.truthy unmatched); [done|].
  apply bind_Ok_inv in H as (self3 & u & _ & H).
  apply bind_Ok_inv in H as (self4 & st1 & Hm1 & H).
  apply bind_Ok_inv in H as (self5 & st2 & Hm2 & H).
  apply bind_Ok_inv in H as (self6 & st3 & Hm3 & H).
  apply bind_Ok_inv in H as (self7 & props1 & _ & H).
  apply bind_Ok_inv in H as (self8 & props2 & _ & H).
  apply bind_Ok_inv in H as (self9 & props3 & _ & H).
  injection H as _ <-. simpl.
  apply methods_loop_polymorphic in Hm1, Hm2, Hm3. simpl in Hm1.
  rewrite Hm3, Hm2, Hm1. unfold described_polymorphic.
  rewrite !existsb_app. fold class_data.
  do 2 f_equal.
  destruct (existsb is_virtual (cls_methods cls public)),
    (existsb is_virtual (cls_methods cls protected)),
    (existsb is_virtual (cls_methods cls private)),
    (cd_is_polymorphic class_data); by case_bool_decide.
Qed.

(** [class Derived : Base, Mixin] with a virtual method and no [final]
    marker needs a trampoline. *)
Lemma trampoline_flag_Derived :
  ∃ self' out,
    Ex.class_hook_with (Ex.class_data [] []) Ex.Derived init_hooks = (self', Ok (Some out))
    ∧ cls_x_has_trampoline out = true.
Proof.
  destruct (Ex.class_hook_with (Ex.class_data [] []) Ex.Derived init_hooks)
    as [self' [[out|]|e]] eqn:Hrun;
    [|vm_compute in Hrun; discriminate Hrun..].
  exists self', out. split; [reflexivity|].
  unfold Ex.class_hook_with in Hrun. rewrite (trampoline_flag _ _ _ _ _ _ _ _ _ Hrun).
  vm_compute. reflexivity.
Defined.

(** ** Ignored bases and the hierarchy *)

Lemma add_subpackage_Ok subpackage self :
  ∃ self1 var, _add_subpackage subpackage self = (self1, Ok var)
               ∧ class_hierarchy self1 = class_hierarchy self.
Proof.
  unfold _add_subpackage. destruct subpackage as [sub|]; [|by eexists _, _].
  destruct (PyStr.truthy sub); by eexists _, _.
Qed.

Lemma qualify_base_class namespace base_qualnames (inherits : list Base) :
  base_class <$> (qualify_base namespace base_qualnames <$> inherits)
  = base_class <$> inherits.
Proof. rewrite <-list_fmap_compose. by apply list_fmap_ext. Qed.

Lemma qualified_kept namespace base_qualnames (ignored : list string)
    (inherits : list Base) :
  (λ base, default "" (base_x_qualname base))
    <$> filter (λ base, base_class base ∉ ignored)
          (qualify_base namespace base_qualnames <$> inherits)
  = base_qualname namespace base_qualnames
      <$> filter (λ class, class ∉ ignored) (base_class <$> inherits).
Proof.
  induction inherits as [|base inherits IH]; [done|].
  rewrite !fmap_cons, !filter_cons. simpl.
  destruct (decide (base_class base ∉ ignored)); by rewrite ?fmap_cons, IH.
Qed.

(** The part of [class_hook] that follows the update of the hierarchy
    leaves the hierarchy alone. *)
Lemma class_hook_lookup_insert {A} k v (tail : HookM A) self :
  keeps_hierarchy tail →
  class_hierarchy ((set_class_hierarchy k v ≫= λ _, tail) self).1 !! k = Some v.
Proof.
  intros Hk. rewrite bind_unfold. simpl. rewrite Hk. simpl. apply lookup_insert_eq.
Qed.

(** C6, as the code has it.  For a class that is not skipped (not nested in
    a private section, not ignored by override), whose public enums
    normalise and whose declared bases are distinct: the names listed in
    [ignored_bases] that are no declared base are the invalid names; if
    there is one, the hook raises the error that names them and all the
    declared bases; if there is none, the hierarchy entry of the class is
    the qualified names of the declared bases minus the ignored ones,
    followed by the [force_depends] of the override. *)
Theorem ignored_bases_validated gcd gfd ged gpd sp cls self es :
  (cls_parents cls = [] ∨ cls_access_in_parent cls ≠ private) →
  cd_ignore (gcd (class_key (cls_parents cls) (cls_name cls))) = false →
  (∀ s, (class_enums ged sp cls (class_key (cls_parents cls) (cls_name cls))
           (gcd (class_key (cls_parents cls) (cls_name cls))) (cls_enums_public cls) s).2
        = Ok es) →
  NoDup (base_class <$> cls_inherits cls) →
  ∃ invalid,
    NoDup invalid
    ∧ (∀ ib, ib ∈ invalid
             ↔ ib ∈ cd_ignored_bases (gcd (class_key (cls_parents cls) (cls_name cls)))
               ∧ ib ∉ base_class <$> cls_inherits cls)
    ∧ (invalid ≠ [] →
       (class_hook gcd gfd ged gpd sp cls self).2
       = Raise (ValueError
                  (cls_name cls +:+ ": ignored_bases contains non-existant bases "
                   +:+ PyStr.join ", " invalid +:+ "; valid bases are "
                   +:+ PyStr.join ", " (base_class <$> cls_inherits cls))))
    ∧ (invalid = [] →
       class_hierarchy (class_hook gcd gfd ged gpd sp cls self).1
         !! (cls_namespace cls +:+ "::" +:+ cls_name cls)
       = Some ((base_qualname (cls_namespace cls)
                  (cd_base_qualnames (gcd (class_key (cls_parents cls) (cls_name cls))))
                  <$> filter (λ class, class ∉ cd_ignored_bases
                                         (gcd (class_key (cls_parents cls) (cls_name cls))))
                        (base_class <$> cls_inherits cls))
               ++ cd_force_depends (gcd (class_key (cls_parents cls) (cls_name cls))))).
Proof.
  set (cls_key := class_key (cls_parents cls) (cls_name cls)).
  set (class_data := gcd cls_key).
  intros Hnest Hign Henums Hnd.
  set (inherits := qualify_base (cls_namespace cls) (cd_base_qualnames class_data)
                     <$> cls_inherits cls).
  destruct (ignored_bases_dict_spec (cd_ignored_bases class_data)) as (Hd1 & Hd2 & Hd3).
  destruct (filter_bases_spec inherits (ignored_bases_dict (cd_ignored_bases class_data)))
    as (Hf1 & Hf2 & Hf3); [by unfold inherits; rewrite qualify_base_class|done|done|].
  unfold inherits in Hf3. rewrite qualify_base_class in Hf3. fold inherits in Hf3.
  exists (Dict.keys (filter_bases inherits
                       (ignored_bases_dict (cd_ignored_bases class_data))).2).
  split; [done|]. split; [intros ib; by rewrite Hf3, Hd3|].
  unfold class_hook. fold cls_key. fold class_data. fold inherits.
  assert (Hskip : negb (bool_decide (cls_parents cls = []))
                  && bool_decide (cls_access_in_parent cls = private) = false).
  { destruct Hnest as [Hp|Ha].
    - by rewrite bool_decide_eq_true_2.
    - rewrite (bool_decide_eq_false_2 _ Ha). apply andb_false_r. }
  rewrite Hskip, Hign. rewrite bind_unfold.
  destruct (add_subpackage_Ok (cd_subpackage class_data) self)
    as (self1 & var & Hsub & Hh1).
  rewrite Hsub. rewrite bind_unfold.
  pose proof (class_enums_state ged sp cls cls_key class_data
                (cls_enums_public cls) self1) as Hst.
  specialize (Henums self1).
  destruct (class_enums ged sp cls cls_key class_data (cls_enums_public cls) self1)
    as [self2 r]. simpl in Hst, Henums. subst self2 r.
  destruct (filter_bases inherits (ignored_bases_dict (cd_ignored_bases class_data)))
    as [x_inherits unmatched]. simpl in *.
  split.
  - intros Hne. destruct unmatched as [|kv unmatched]; [done|]. simpl.
    unfold ignored_bases_error, inherits. by rewrite qualify_base_class.
  - intros Hnil. destruct unmatched as [|kv unmatched]; [|done]. simpl.
    rewrite Hf1. unfold inherits.
    rewrite (filter_ext_in _ (λ base, base_class base ∉ cd_ignored_bases class_data))
      by (intros b _; by rewrite Hd3).
    rewrite qualified_kept.
    apply class_hook_lookup_insert.
    repeat (apply keeps_bind;
            [first [apply keeps_methods_loop|apply keeps_properties_loop]|intros ?]).
    apply keeps_ret.
Qed.

(** [class Derived : Base, Mixin] with [ignored_bases: [Other]]: the hook
    fails, naming [Other] as invalid and [Base, Mixin] as the valid bases. *)
Lemma ignored_bases_validated_Derived :
  (Ex.class_hook_with (Ex.class_data ["Other"] []) Ex.Derived init_hooks).2
  = Raise (ValueError
             "Derived: ignored_bases contains non-existant bases Other; valid bases are Base, Mixin")
  ∧ ∃ invalid,
      (∀ ib, ib ∈ invalid ↔ ib ∈ ["Other"] ∧ ib ∉ ["Base"; "Mixin"])
      ∧ (invalid ≠ [] →
         (Ex.class_hook_with (Ex.class_data ["Other"] []) Ex.Derived init_hooks).2
         = Raise (ValueError
                    ("Derived: ignored_bases contains non-existant bases "
                     +:+ PyStr.join ", " invalid +:+ "; valid bases are Base, Mixin"))).
Proof.
  split; [vm_compute; reflexivity|].
  edestruct (ignored_bases_validated (λ _, Ex.class_data ["Other"] [])
               (λ _ _ _, Ex.data []) (λ _ _ _, Ex.enum_data None) (λ _ _ _, Ex.prop_data)
               [] Ex.Derived init_hooks)
    as (invalid & _ & Hin & Herr & _).
  - left. reflexivity.
  - reflexivity.
  - intros s. vm_compute. reflexivity.
  - apply (bool_decide_unpack _). vm_compute. exact I.
  - exists invalid. split; [exact Hin|exact Herr].
Defined.

(** C6 as stated fails in its last clause: with [ignored_bases: [Mixin]]
    and [force_depends: [frc::Dep]] the hierarchy entry of [Derived] is
    [frc::Base] followed by [frc::Dep]. *)
Lemma hierarchy_entry_has_force_depends :
  class_hierarchy
    (Ex.class_hook_with (Ex.class_data ["Mixin"] ["frc::Dep"]) Ex.Derived init_hooks).1
    !! "frc::Derived" = Some ["frc::Base"; "frc::Dep"]
  ∧ ¬ hierarchy_is_bases_minus_ignored Ex.Derived (Ex.class_data ["Mixin"] ["frc::Dep"])
        (Ex.class_hook_with (Ex.class_data ["Mixin"] ["frc::Dep"]) Ex.Derived init_hooks).1.
Proof.
  split; [vm_compute; reflexivity|].
  unfold hierarchy_is_bases_minus_ignored. intros H. vm_compute in H. discriminate H.
Qed.

(** ** The check of the buffer tables after the parameter loop *)

Lemma filter_all {A} (P : A → Prop) `{!∀ x, Decision (P x)} (l : list A) :
  (∀ x, x ∈ l → P x) → filter P l = l.
Proof.
  induction l as [|a l IH]; intros Hl; [done|].
  rewrite filter_cons_True by (apply Hl; left).
  f_equal. apply IH. intros x Hx. apply Hl. by right.
Qed.

Lemma dict_keys_remove_filter {V} k (d : Dict.t V) :
  NoDup (Dict.keys d) →
  Dict.keys (Dict.remove k d) = filter (λ k', k' ≠ k) (Dict.keys d).
Proof.
  induction d as [|[k1 v1] d IH]; intros Hnd; cbn [Dict.remove]; [done|].
  rewrite dict_keys_cons in Hnd. apply NoDup_cons in Hnd as [Hk1 Hnd].
  rewrite dict_keys_cons, filter_cons.
  destruct (decide (k1 = k)) as [->|Hne].
  - rewrite decide_False by (by intros Hc). symmetry. apply filter_all.
    intros k' Hk' ->. done.
  - rewrite decide_True by done. by rewrite dict_keys_cons, IH.
Qed.

Lemma dict_keys_remove_all {V} (names : list string) (d : Dict.t V) :
  NoDup (Dict.keys d) →
  Dict.keys (foldl (λ d name, Dict.remove name d) d names)
  = filter (λ k, k ∉ names) (Dict.keys d).
Proof.
  revert d. induction names as [|name names IH]; intros d Hnd; simpl.
  - symmetry. apply filter_all. intros k _. apply not_elem_of_nil.
  - rewrite IH by (by apply dict_keys_remove).
    rewrite dict_keys_remove_filter, list_filter_filter by done.
    apply list_filter_iff. intros k. rewrite not_elem_of_cons. tauto.
Qed.

Lemma buffer_tables_NoDup bufs bp bl bp' bl' :
  NoDup (Dict.keys bp) → buffer_tables bufs bp bl = Ok (bp', bl') → NoDup (Dict.keys bp').
Proof.
  revert bp bl. induction bufs as [|b bufs IH]; intros bp bl Hnd; simpl.
  - by intros [= <- _].
  - case_decide; [done|]. apply IH. by apply dict_keys_set.
Qed.

Lemma param_loop_tables is_constructor po parent st i ps :
  ls_buffer_params (param_loop is_constructor po parent st i ps)
  = foldl (λ d name, Dict.remove name d) (ls_buffer_params st)
      (p_name <$> (param_roles po parent (ls_buffer_params st) (ls_buflen_params st) i ps).*2).
Proof.
  revert st i. induction ps as [|p ps IH]; intros st i; [done|].
  rewrite param_loop_cons, param_roles_cons, IH. unfold param_step.
  by destruct (param_body po parent (ls_buffer_params st) (ls_buflen_params st) i p)
    as [[ptype c] p'].
Qed.

(** What the code checks of C4: once the name and the tables are made, the
    hook fails exactly when a source name of the table matches no parameter
    name, with the error that lists those source names; the length names
    play no part. *)
Lemma unmatched_source_names sp types fn data internal x_name0 bp bl :
  camel_name sp (fn_name fn) (fd_rename data) = Ok x_name0 →
  buffer_tables (fd_buffers data) [] [] = Ok (bp, bl) →
  ∃ unmatched,
    unmatched
    = filter (λ k, k ∉ p_name <$> fr_parameters (_function_hook sp types fn data internal))
        (Dict.keys bp)
    ∧ (unmatched ≠ [] →
       fr_outcome (_function_hook sp types fn data internal)
       = Raise (ValueError ("incorrect buffer param names '"
                            +:+ PyStr.join "', '" unmatched +:+ "'")))
    ∧ (unmatched = [] →
       ∃ out, fr_outcome (_function_hook sp types fn data internal) = Ok out).
Proof.
  intros Hname Htables. eexists. split; [done|].
  unfold _function_hook. rewrite Hname, Htables. simpl.
  set (st := param_loop _ _ _ _ _ _).
  assert (Hkeys : Dict.keys (ls_buffer_params st)
                  = filter (λ k, k ∉ p_name <$> ls_params st) (Dict.keys bp)).
  { unfold st. rewrite param_loop_tables. simpl.
    rewrite dict_keys_remove_all by (eapply buffer_tables_NoDup; [|done]; constructor).
    by destruct (param_loop_roles (fn_constructor fn) (fd_param_override data) (fn_parent fn)
                   (init_loop ({[fn_returns fn]} ∪ types) bp bl) 0 (fn_parameters fn))
      as [_ ->]. }
  rewrite <-Hkeys. unfold finish_function.
  destruct (ls_buffer_params st) as [|[k v] d]; simpl.
  - split; [done|]. intros _. by eexists.
  - split; [done|]. done.
Qed.

(** ** Where the preconditions of the class and buffer properties bite *)

(** A class that the override ignores is not validated at all. *)
Lemma ignored_class_not_validated :
  (class_hook (λ _, {| cd_ignore := true; cd_rename := None; cd_subpackage := None;
                       cd_is_polymorphic := false; cd_force_no_trampoline := false;
                       cd_ignored_bases := ["Other"]; cd_base_qualnames := ∅;
                       cd_force_depends := [] |})
     (λ _ _ _, Ex.data []) (λ _ _ _, Ex.enum_data None) (λ _ _ _, Ex.prop_data) []
     Ex.Derived init_hooks).2 = Ok None.
Proof. reflexivity. Qed.


(** * Further properties of the hooks *)

(** ** Strings, continued *)

Lemma str_app_assoc (s t u : string) : (s +:+ t) +:+ u = s +:+ (t +:+ u).
Proof. induction s as [|a s IH]; [done|]. by rewrite !app_cons, IH. Qed.

Lemma str_length_app (s t : string) :
  String.length (s +:+ t) = (String.length s + String.length t)%nat.
Proof. induction s as [|a s IH]; [done|]. rewrite app_cons. simpl. by rewrite IH. Qed.

Lemma join_cons_cons sep (a b : string) (l : list string) :
  PyStr.join sep (a :: b :: l) = a +:+ sep +:+ PyStr.join sep (b :: l).
Proof. reflexivity. Qed.

Lemma join_snoc_merge sep (l : list string) (a b : string) :
  PyStr.join sep (l ++ [a; b]) = PyStr.join sep (l ++ [a +:+ sep +:+ b]).
Proof.
  induction l as [|x l IH]; [done|].
  destruct l as [|y l].
  - simpl. reflexivity.
  - rewrite <-!app_comm_cons, !join_cons_cons. f_equal. f_equal.
    rewrite !app_comm_cons. apply IH.
Qed.

(** ** Mangled qualified names *)

Lemma find_None_cons c a s :
  PyStr.find c (String a s) = None ↔ a ≠ c ∧ PyStr.find c s = None.
Proof.
  simpl. case_decide as Hac.
  - split; [done|]. by intros [? _].
  - destruct (PyStr.find c s); simpl; split; try done. by intros [_ ?].
Qed.

(** X1. Mangling a qualified name keeps its length, leaves none of the
    characters [:], [<], [>], [=] in it, and changes nothing when applied a
    second time. *)
Theorem qualname_translate_safe (s : string) :
  String.length (qualname_translate s) = String.length s
  ∧ Forall (λ c, PyStr.find c (qualname_translate s) = None) [":"; "<"; ">"; "="]%char
  ∧ qualname_translate (qualname_translate s) = qualname_translate s.
Proof.
  induction s as [|a s (IH1 & IH2 & IH3)]; [by repeat constructor|].
  cbn [qualname_translate]. split; [simpl; by rewrite IH1|]. split.
  - apply Forall_forall. intros c Hc. apply find_None_cons. split.
    + case_bool_decide as Ha.
      * intros <-. revert Hc. rewrite !elem_of_cons, elem_of_nil. naive_solver.
      * by intros <-.
    + rewrite Forall_forall in IH2. by apply IH2.
  - cbn [qualname_translate]. rewrite IH3. f_equal.
    destruct (bool_decide (a ∈ [":"; "<"; ">"; "="]%char)) eqn:Ha.
    + by case_bool_decide.
    + by rewrite Ha.
Qed.

(** ** The key of a nested class *)

Lemma class_key_cons parent parents name :
  class_key (parent :: parents) name = class_key parents (parent +:+ "::" +:+ name).
Proof. reflexivity. Qed.

(** X2. The key under which the overrides of a class are looked up is the
    names of its enclosing classes, outermost first, and its own name,
    joined by [::]. *)
Theorem class_key_joined (parents : list string) (name : string) :
  class_key parents name = PyStr.join "::" (reverse parents ++ [name]).
Proof.
  revert name. induction parents as [|parent parents IH]; intros name; [done|].
  rewrite class_key_cons, IH, reverse_cons, <-app_assoc. simpl.
  symmetry. apply join_snoc_merge.
Qed.

(** ** Overload signatures *)

(** X3. A const member function and a non-const one with the same
    parameters never have the same signature, so the two overloads can be
    told apart in the overrides. *)
Theorem signature_const_differs (fn fn' : Function) :
  fn_parameters fn = fn_parameters fn' → fn_const fn = true → fn_const fn' = false →
  _get_function_signature fn ≠ _get_function_signature fn'.
Proof.
  intros Hps Hc Hc'. unfold _get_function_signature. rewrite Hc, Hc', Hps.
  set (sig := PyStr.replace_space_gt _).
  destruct (PyStr.truthy sig) eqn:Ht.
  - intros Heq. apply (f_equal String.length) in Heq.
    rewrite str_length_app in Heq. simpl in Heq. lia.
  - destruct sig; [done|discriminate Ht].
Qed.

Lemma signature_const_differs_GetValue :
  _get_function_signature (Ex.function "Get" "int" [Ex.param "i" "int" 0 true])
  = "int"
  ∧ _get_function_signature
      {| fn_name := "Get"; fn_returns := "int"; fn_rtnType := "int";
         fn_constructor := false; fn_destructor := false; fn_operator := false;
         fn_const := true; fn_virtual := false; fn_override := false;
         fn_parent := None; fn_parameters := [Ex.param "i" "int" 0 true] |}
    ≠ _get_function_signature (Ex.function "Get" "int" [Ex.param "i" "int" 0 true]).
Proof.
  split; [reflexivity|].
  apply signature_const_differs; reflexivity.
Defined.

(** ** The relative import of the tool *)

Lemma split_dot_cons c s :
  c ≠ "."%char →
  ∃ head tail, Tool.split_dot s = head :: tail
               ∧ Tool.split_dot (String c s) = String c head :: tail.
Proof.
  intros Hc. simpl. rewrite decide_False by done.
  destruct (Tool.split_dot s) as [|head tail] eqn:Hs; [|by eauto].
  destruct s; simpl in Hs; [done|]. case_decide; [done|].
  by destruct (Tool.split_dot s).
Qed.

Lemma split_dot_nonempty s : Tool.split_dot s ≠ [].
Proof.
  destruct s as [|c s]; [done|]. simpl. case_decide; [done|].
  by destruct (Tool.split_dot s).
Qed.

Lemma split_dot_app (a b : string) :
  Tool.split_dot (a +:+ "." +:+ b) = Tool.split_dot a ++ Tool.split_dot b.
Proof.
  induction a as [|c a IH]; [done|].
  rewrite app_cons. destruct (decide (c = "."%char)) as [->|Hc].
  - simpl. by rewrite IH.
  - destruct (split_dot_cons c (a +:+ "." +:+ b) Hc) as (h & t & Hs & ->).
    destruct (split_dot_cons c a Hc) as (h' & t' & Hs' & ->).
    rewrite IH, Hs' in Hs. injection Hs as <- <-. done.
Qed.

Lemma join_split_dot (s : string) : PyStr.join "." (Tool.split_dot s) = s.
Proof.
  induction s as [|c s IH]; [done|].
  destruct (decide (c = "."%char)) as [->|Hc].
  - simpl. destruct (Tool.split_dot s) as [|h t] eqn:Hs; [by destruct (split_dot_nonempty s)|].
    rewrite ?join_cons_cons, IH. reflexivity.
  - destruct (split_dot_cons c s Hc) as (h & t & Hs & ->).
    rewrite Hs in IH. destruct t as [|h' t].
    + simpl in *. by rewrite IH.
    + rewrite join_cons_cons in *. rewrite app_cons. by rewrite IH.
Qed.

(** X4. For a compiled module that lies below the base package, the
    relative import is a dot followed by the path from the base to the
    module; for the base package itself it is a single dot. *)
Theorem relimport_below_base (base rest : string) :
  Tool.relimport base (base +:+ "." +:+ rest) = "." +:+ rest
  ∧ Tool.relimport base base = ".".
Proof.
  unfold Tool.relimport. split.
  - by rewrite split_dot_app, drop_app_length, join_split_dot.
  - by rewrite drop_all.
Qed.

(** ** Default values *)

Lemma resolve_fold_absent (qualify : string → string) (props : list string) (name : string) :
  name ∉ props →
  foldl (λ name prop, if decide (prop = name) then qualify name else name) name props = name.
Proof.
  induction props as [|prop props IH]; intros Hn; [done|].
  apply not_elem_of_cons in Hn as [Hne Hn]. simpl.
  rewrite decide_False by done. by apply IH.
Qed.

Lemma resolve_fold_present (qualify : string → string) (props : list string) (name : string) :
  name ∈ props → qualify name ∉ props →
  foldl (λ name prop, if decide (prop = name) then qualify name else name) name props
  = qualify name.
Proof.
  induction props as [|prop props IH]; intros Hin Hq; [by apply elem_of_nil in Hin|].
  apply not_elem_of_cons in Hq as [Hqne Hq]. simpl.
  destruct (decide (prop = name)) as [->|Hne].
  - by apply resolve_fold_absent.
  - apply elem_of_cons in Hin as [->|Hin]; [done|]. by apply IH.
Qed.

(** X5. A default that is neither [NULL] nor [nullptr] and names a public
    property of the enclosing class is rewritten to
    [namespace::class::name]; one that names no public property is left as
    it is.  (The qualified name is assumed not to be a property name
    itself.) *)
Theorem resolve_default_member (par : FnParent) (name : string) :
  name ≠ "NULL" → name ≠ "nullptr" →
  par_namespace par +:+ "::" +:+ par_name par +:+ "::" +:+ name ∉ par_public_properties par →
  _resolve_default (Some par) name
  = if bool_decide (name ∈ par_public_properties par)
    then par_namespace par +:+ "::" +:+ par_name par +:+ "::" +:+ name
    else name.
Proof.
  intros Hnull Hnullptr Hq. unfold _resolve_default.
  rewrite decide_False by (by intros [?|?]).
  case_bool_decide as Hin.
  - by apply (resolve_fold_present
                (λ name, par_namespace par +:+ "::" +:+ par_name par +:+ "::" +:+ name)).
  - by apply (resolve_fold_absent
                (λ name, par_namespace par +:+ "::" +:+ par_name par +:+ "::" +:+ name)).
Qed.

Lemma resolve_default_member_kDefault :
  _resolve_default
    (Some {| par_name := "Motor"; par_namespace := "frc";
             par_public_properties := ["kTimeout"; "kDefault"] |}) "kDefault"
  = "frc::Motor::kDefault".
Proof.
  rewrite resolve_default_member; [reflexivity|done|done|].
  apply (bool_decide_unpack _). vm_compute. exact I.
Defined.

(** ** Subpackages *)

Lemma find_replace_dot (s : string) : PyStr.find "." (PyStr.replace_dot s) = None.
Proof.
  induction s as [|a s IH]; [done|]. cbn [PyStr.replace_dot].
  apply find_None_cons. split; [|done]. by case_decide.
Qed.

Lemma find_dot_pkg (s : string) :
  PyStr.find "." s = None → PyStr.find "." ("pkg_" +:+ s) = None.
Proof.
  intros Hs. rewrite !app_cons, app_nil.
  by repeat (apply find_None_cons; split; [done|]).
Qed.

(** X6. A declaration with a subpackage gets the module variable [pkg_]
    followed by the subpackage name with its dots replaced, which holds no
    dot; the variable is recorded under the subpackage name, the other
    subpackages stay as they are, and neither the recorded types nor the
    class hierarchy change. *)
Theorem add_subpackage_records (sub : string) (self : Hooks) :
  sub ≠ "" →
  ∃ self',
    _add_subpackage (Some sub) self = (self', Ok ("pkg_" +:+ PyStr.replace_dot sub))
    ∧ PyStr.find "." ("pkg_" +:+ PyStr.replace_dot sub) = None
    ∧ subpackages self' !! sub = Some ("pkg_" +:+ PyStr.replace_dot sub)
    ∧ (∀ other, other ≠ sub → subpackages self' !! other = subpackages self !! other)
    ∧ types self' = types self
    ∧ class_hierarchy self' = class_hierarchy self.
Proof.
  intros Hsub. unfold _add_subpackage. apply truthy_iff in Hsub. rewrite Hsub.
  eexists. split; [done|]. split; [apply find_dot_pkg, find_replace_dot|].
  simpl. split; [apply lookup_insert_eq|]. split; [|done].
  intros other Hne. by apply lookup_insert_ne.
Qed.

Lemma add_subpackage_records_simulation :
  ∃ self', _add_subpackage (Some "simulation.sensors") init_hooks
           = (self', Ok "pkg_simulation_sensors")
           ∧ subpackages self' !! "simulation.sensors" = Some "pkg_simulation_sensors".
Proof.
  destruct (add_subpackage_records "simulation.sensors" init_hooks)
    as (self' & Hrun & _ & Hsub & _); [done|].
  exists self'. split; [exact Hrun|exact Hsub].
Defined.

(** ** Enums, continued *)

Lemma enum_values_loop_anonymous vs :
  enum_values_loop None vs
  = Ok ((λ v, {| ev_name := ev_name v; ev_x_name := Some (ev_name v) |}) <$> vs).
Proof.
  induction vs as [|v vs IH]; [done|].
  rewrite enum_values_loop_cons, IH. reflexivity.
Qed.

(** X7. An enum without a name (or with an empty one) cannot make the hook
    fail: every enumerator keeps its name as [x_name], the enum gets no
    [x_name] of its own, and a configured [value_prefix] or [rename] is not
    looked at. *)
Theorem enum_hook_anonymous sp en data :
  PyStr.otruthy (en_name en) = false →
  _enum_hook sp en data
  = Ok {| en_name := en_name en; en_namespace := en_namespace en;
          en_values :=
            (λ v, {| ev_name := ev_name v; ev_x_name := Some (ev_name v) |}) <$> en_values en;
          en_x_name := en_x_name en; en_x_namespace := en_x_namespace en |}.
Proof.
  intros Hname. unfold _enum_hook, enum_value_prefix. rewrite Hname.
  rewrite enum_values_loop_anonymous. simpl.
  destruct (en_name en) as [ename|]; [|done].
  simpl in Hname. by rewrite Hname.
Qed.

Lemma enum_hook_anonymous_prefixed :
  ∃ en', _enum_hook ["k"]
           {| en_name := None; en_namespace := "frc";
              en_values := [Ex.value "kRed"; Ex.value "k"];
              en_x_name := None; en_x_namespace := None |}
           {| ed_rename := Some "Color"; ed_value_prefix := Some "k";
              ed_subpackage := None |} = Ok en'
         ∧ ev_x_name <$> en_values en' = [Some "kRed"; Some "k"]
         ∧ en_x_name en' = None.
Proof.
  eexists. split; [by apply enum_hook_anonymous|]. split; reflexivity.
Defined.

Lemma enum_values_loop_again value_prefix vs vs' :
  enum_values_loop value_prefix vs = Ok vs' → enum_values_loop value_prefix vs' = Ok vs'.
Proof.
  revert vs'. induction vs as [|v vs IH]; intros vs'.
  - by intros [= <-].
  - rewrite enum_values_loop_cons.
    destruct (enum_value_x_name value_prefix (ev_name v)) as [x|e] eqn:Hx; [|done].
    destruct (enum_values_loop value_prefix vs) as [ws|e]; [|done].
    intros [= <-]. rewrite enum_values_loop_cons. simpl. by rewrite Hx, (IH ws).
Qed.

(** X8. Running the enum hook a second time on the enum it has returned
    gives that enum again: the short names are computed from the native
    names, which the hook keeps. *)
Theorem enum_hook_again sp en data en' :
  _enum_hook sp en data = Ok en' → _enum_hook sp en' data = Ok en'.
Proof.
  unfold _enum_hook.
  destruct (enum_values_loop (enum_value_prefix en data) (en_values en)) as [vs|e] eqn:Hvs;
    [|done].
  intros [= <-]. unfold enum_value_prefix. simpl.
  fold (enum_value_prefix en data).
  rewrite (enum_values_loop_again _ _ _ Hvs). simpl.
  destruct (en_name en) as [ename|]; [|done]. by destruct (PyStr.truthy ename).
Qed.

Lemma enum_hook_again_Color :
  ∃ en', _enum_hook [] Ex.Color (Ex.enum_data (Some "kColor")) = Ok en'
         ∧ _enum_hook [] en' (Ex.enum_data (Some "kColor")) = Ok en'.
Proof.
  eexists. split; [reflexivity|].
  apply (enum_hook_again [] Ex.Color). reflexivity.
Defined.

(** ** The parameter loop, continued *)

Lemma param_body_fields po parent bp bl i p :
  let r := param_body po parent bp bl i p in
  p_name r.2 = final_name po i p
  ∧ registered_type r.2 = c_x_type r.1.2
  ∧ r.1.1 = c_ptype r.1.2
  ∧ p_raw_type r.2 = p_raw_type p.
Proof.
  unfold param_body, registered_type, final_name, placeholder_name.
  cbv zeta. cbn [fst snd p_name p_constant p_x_type p_raw_type].
  repeat split.
  set (c := classify _ _ _ _ _ _ _ _ _ _ _ _).
  destruct (nonzero (c_constant c)); [|done].
  cbn [default]. rewrite !app_cons, app_nil. reflexivity.
Qed.

Lemma param_step_fields is_constructor po parent st i p :
  let r := param_body po parent (ls_buffer_params st) (ls_buflen_params st) i p in
  let st' := param_step is_constructor po parent st i p in
  ls_types st' = {[ c_x_type r.1.2 ]} ∪ ls_types st
  ∧ ls_all_params st' = ls_all_params st ++ (if listed r.2 then [r.2] else [])
  ∧ ls_in_params st' = ls_in_params st ++ (if is_in (r.1.1, r.2) then [r.2] else [])
  ∧ ls_keepalives st'
    = ls_keepalives st
      ++ (if is_constructor && nonzero (p_reference p) then [(1, i + 2)] else [])
  ∧ ls_genlambda st' = c_genlambda r.1.2 || ls_genlambda st
  ∧ ls_lambda_pre st' = ls_lambda_pre st ++ c_lambda_pre r.1.2
  ∧ ls_temps st'
    = ls_temps st ++ (if c_temp_ignored r.1.2 then [r.2] else [])
      ++ (if is_out (r.1.1, r.2) then [r.2] else [])
  ∧ ls_buffer_params st' = Dict.remove (p_name r.2) (ls_buffer_params st)
  ∧ ls_buflen_params st' = Dict.remove (p_name r.2) (ls_buflen_params st).
Proof.
  unfold param_step.
  destruct (param_body po parent (ls_buffer_params st) (ls_buflen_params st) i p)
    as [[ptype c] p'].
  cbn [fst snd ls_types ls_all_params ls_in_params ls_keepalives ls_genlambda
       ls_lambda_pre ls_temps ls_buffer_params ls_buflen_params].
  unfold listed, is_in, is_out. cbn [fst snd].
  rewrite !(andb_comm (bool_decide _)).
  split; [done|]. split; [by destruct (default false (p_ignore p')); rewrite ?app_nil_r|].
  split; [by destruct (_ && _); rewrite ?app_nil_r|].
  split; [by destruct (_ && _); rewrite ?app_nil_r|].
  split; [done|]. split; [done|]. split; [|done].
  destruct (c_temp_ignored c), (_ && _); by rewrite <-?app_assoc, ?app_nil_r.
Qed.

Lemma param_loop_lists is_constructor po parent st i ps :
  let roles := param_roles po parent (ls_buffer_params st) (ls_buflen_params st) i ps in
  let st' := param_loop is_constructor po parent st i ps in
  ls_types st' = list_to_set (registered_type <$> roles.*2) ∪ ls_types st
  ∧ ls_all_params st' = ls_all_params st ++ filter (λ p, listed p) roles.*2
  ∧ ls_in_params st' = ls_in_params st ++ (filter (λ rp, is_in rp) roles).*2
  ∧ ls_keepalives st'
    = ls_keepalives st ++ (if is_constructor then constructor_keepalives i ps else [])
  ∧ p_name <$> roles.*2 = imap (λ k p, final_name po (i + k) p) ps
  ∧ p_raw_type <$> roles.*2 = p_raw_type <$> ps.
Proof.
  revert st i. induction ps as [|p ps IH]; intros st i.
  - cbn [param_roles param_loop fmap list_fmap filter list_filter list_to_set
         constructor_keepalives imap].
    split; [set_solver|]. rewrite !app_nil_r. repeat split; try done.
    destruct is_constructor; by rewrite app_nil_r.
  - cbv zeta. rewrite param_loop_cons, param_roles_cons.
    pose proof (param_step_fields is_constructor po parent st i p) as Hstep.
    pose proof (param_body_fields po parent (ls_buffer_params st) (ls_buflen_params st) i p)
      as Hbody.
    cbv zeta in Hstep, Hbody.
    destruct Hstep as (Ht & Hall & Hin & Hka & _ & _ & _ & Hbp & Hbl).
    destruct Hbody as (Hname & Hreg & _ & Hraw).
    specialize (IH (param_step is_constructor po parent st i p) (S i)).
    cbv zeta in IH. rewrite Hbp, Hbl in IH.
    destruct IH as (IH1 & IH2 & IH3 & IH4 & IH5 & IH6).
    set (r := param_body po parent (ls_buffer_params st) (ls_buflen_params st) i p) in *.
    set (roles := param_roles po parent _ _ (S i) ps) in *.
    clearbody r roles.
    rewrite IH1, IH2, IH3, IH4, Ht, Hall, Hin, Hka.
    rewrite !fmap_cons, !filter_cons. cbn [fst snd].
    split.
    { rewrite list_to_set_cons, Hreg.
      generalize (list_to_set (registered_type <$> roles.*2) : gset string),
        (c_x_type r.1.2), (ls_types st).
      clear. intros L c T. set_solver. }
    split; [rewrite <-app_assoc; f_equal; by destruct (listed r.2)|].
    split; [rewrite <-app_assoc; f_equal; by destruct (is_in (r.1.1, r.2))|].
    split.
    { rewrite <-app_assoc. f_equal. cbn [constructor_keepalives].
      destruct is_constructor; [|done]. simpl. by destruct (nonzero (p_reference p)). }
    split.
    { rewrite IH5, Hname, imap_cons. f_equal; [by rewrite Nat.add_0_r|].
      apply imap_ext. intros k q _. simpl. f_equal. lia. }
    by rewrite IH6, Hraw.
Qed.

(** What [_function_hook] leaves once the name and the buffer tables are
    made: the state of the parameter loop, and the outcome of the part that
    follows the loop. *)
Lemma function_hook_run sp types fn data internal x_name0 bp bl :
  camel_name sp (fn_name fn) (fd_rename data) = Ok x_name0 →
  buffer_tables (fd_buffers data) [] [] = Ok (bp, bl) →
  ∃ st,
    st = param_loop (fn_constructor fn) (fd_param_override data) (fn_parent fn)
           (init_loop ({[ fn_returns fn ]} ∪ types) bp bl) 0 (fn_parameters fn)
    ∧ fr_types (_function_hook sp types fn data internal) = ls_types st
    ∧ fr_parameters (_function_hook sp types fn data internal) = ls_params st
    ∧ fr_outcome (_function_hook sp types fn data internal)
      = finish_function x_name0 fn data internal st.
Proof.
  intros Hname Htables. eexists. split; [done|].
  unfold _function_hook. by rewrite Hname, Htables.
Qed.

Lemma function_hook_Ok_run sp types fn data internal out :
  fr_outcome (_function_hook sp types fn data internal) = Ok out →
  ∃ x_name0 bp bl,
    camel_name sp (fn_name fn) (fd_rename data) = Ok x_name0
    ∧ buffer_tables (fd_buffers data) [] [] = Ok (bp, bl).
Proof.
  intros Hout. destruct (function_hook_Ok _ _ _ _ _ _ Hout) as (x & bp & bl & ? & ? & _).
  by exists x, bp, bl.
Qed.

Lemma finish_function_Ok x_name0 fn data internal st out :
  finish_function x_name0 fn data internal st = Ok out →
  ls_buffer_params st = []
  ∧ x_all_params out = ls_all_params st
  ∧ x_in_params out = ls_in_params st
  ∧ x_out_params out = ls_out_params st
  ∧ x_keepalives out = default (ls_keepalives st) (fd_keepalive data)
  ∧ x_genlambda out
    = (if bool_decide (ls_out_params st = []) then ls_genlambda st else true)
  ∧ x_lambda_pre out = declare_temps (ls_temps st) (ls_lambda_pre st).
Proof.
  unfold finish_function. destruct (ls_buffer_params st); [|done].
  by intros [= <-].
Qed.

Lemma filter_in_listed (roles : list (PType * Param)) :
  (filter (λ rp, is_in rp) roles).*2 `sublist_of` filter (λ p, listed p) roles.*2.
Proof.
  induction roles as [|[pt p] roles IH]; [done|].
  rewrite fmap_cons. cbn [snd]. rewrite !filter_cons.
  destruct (decide (is_in (pt, p))) as [Hrole|Hrole], (decide (listed p)) as [Hl|Hl].
  - rewrite fmap_cons. cbn [snd]. by apply sublist_skip.
  - destruct Hl. unfold is_in in Hrole. unfold listed.
    apply andb_prop_elim in Hrole as [_ Hrole]. done.
  - by apply sublist_cons.
  - done.
Qed.

Lemma filter_out_listed (roles : list (PType * Param)) :
  (filter (λ rp, is_out rp) roles).*2 `sublist_of` filter (λ p, listed p) roles.*2.
Proof.
  induction roles as [|[pt p] roles IH]; [done|].
  rewrite fmap_cons. cbn [snd]. rewrite !filter_cons.
  destruct (decide (is_out (pt, p))) as [Hrole|Hrole], (decide (listed p)) as [Hl|Hl].
  - rewrite fmap_cons. cbn [snd]. by apply sublist_skip.
  - destruct Hl. unfold is_out in Hrole. unfold listed.
    apply andb_prop_elim in Hrole as [_ Hrole]. done.
  - by apply sublist_cons.
  - done.
Qed.

(** X9. When the hook returns, [x_all_params] is the parameters, in
    declaration order, without those an override marks [ignore]; and
    [x_in_params] and [x_out_params] are both drawn from [x_all_params],
    keeping its order. *)
Theorem parameter_lists sp types fn data internal out :
  fr_outcome (_function_hook sp types fn data internal) = Ok out →
  x_all_params out
  = filter (λ p, listed p) (fr_parameters (_function_hook sp types fn data internal))
  ∧ x_in_params out `sublist_of` x_all_params out
  ∧ x_out_params out `sublist_of` x_all_params out.
Proof.
  intros Hout.
  destruct (function_hook_Ok_run _ _ _ _ _ _ Hout) as (x_name0 & bp & bl & Hname & Htables).
  destruct (function_hook_run sp types fn data internal _ _ _ Hname Htables)
    as (st & Hst & _ & Hps & Hfin).
  rewrite Hfin in Hout. apply finish_function_Ok in Hout as (_ & -> & -> & -> & _).
  rewrite Hps.
  destruct (param_loop_lists (fn_constructor fn) (fd_param_override data) (fn_parent fn)
              (init_loop ({[ fn_returns fn ]} ∪ types) bp bl) 0 (fn_parameters fn))
    as (_ & Hall & Hin & _).
  destruct (param_loop_roles (fn_constructor fn) (fd_param_override data) (fn_parent fn)
              (init_loop ({[ fn_returns fn ]} ∪ types) bp bl) 0 (fn_parameters fn))
    as (Hout' & Hps').
  rewrite <-Hst in Hall, Hin, Hout', Hps'. simpl in Hall, Hin, Hout', Hps'.
  rewrite Hall, Hin, Hout', Hps'.
  split; [done|]. split; [apply filter_in_listed|apply filter_out_listed].
Qed.

Lemma parameter_lists_Read :
  ∃ out, fr_outcome (_function_hook [] ∅ Ex.Read (Ex.data []) false) = Ok out
    ∧ p_name <$> x_all_params out = ["status"; "scale"]
    ∧ x_in_params out `sublist_of` x_all_params out.
Proof.
  destruct (fr_outcome (_function_hook [] ∅ Ex.Read (Ex.data []) false)) as [out|e] eqn:Hout;
    [|vm_compute in Hout; discriminate Hout].
  destruct (parameter_lists [] ∅ Ex.Read (Ex.data []) false out Hout) as (_ & Hin & _).
  exists out. split; [reflexivity|]. split; [|exact Hin].
  vm_compute in Hout. injection Hout as <-. reflexivity.
Defined.

(** X10. When the hook returns, the registry of types holds exactly what
    it held before, the return type of the function, and for every
    parameter, the ignored ones included, the [x_type] the loop has given
    it, taken before [const ] is put in front.  That is the type the
    binding uses, not always the raw type: a buffer source is recorded as
    [py::buffer], a sized array as its [std::array], and an enum or an
    override can replace it too. *)
Theorem types_recorded sp types fn data internal out :
  fr_outcome (_function_hook sp types fn data internal) = Ok out →
  fr_types (_function_hook sp types fn data internal)
  = list_to_set (registered_type
                   <$> fr_parameters (_function_hook sp types fn data internal))
    ∪ ({[ fn_returns fn ]} ∪ types).
Proof.
  intros Hout.
  destruct (function_hook_Ok_run _ _ _ _ _ _ Hout) as (x_name0 & bp & bl & Hname & Htables).
  destruct (function_hook_run sp types fn data internal _ _ _ Hname Htables)
    as (st & Hst & -> & -> & _).
  destruct (param_loop_lists (fn_constructor fn) (fd_param_override data) (fn_parent fn)
              (init_loop ({[ fn_returns fn ]} ∪ types) bp bl) 0 (fn_parameters fn))
    as (Ht & _).
  destruct (param_loop_roles (fn_constructor fn) (fd_param_override data) (fn_parent fn)
              (init_loop ({[ fn_returns fn ]} ∪ types) bp bl) 0 (fn_parameters fn))
    as (_ & Hps').
  rewrite <-Hst in Ht, Hps'. simpl in Ht, Hps'. by rewrite Ht, Hps'.
Qed.

Lemma types_recorded_GetValue :
  elements (fr_types (_function_hook [] {[ "double" ]} Ex.GetValue
                        (Ex.data [Ex.buffer "buf" "len"]) false))
  ≡ₚ ["py::buffer"; "int"; "double"].
Proof.
  erewrite types_recorded; [|vm_compute; reflexivity].
  vm_compute. apply (bool_decide_unpack _). vm_compute. exact I.
Defined.

(** ** Temporaries, keep-alives and names *)

Lemma declare_temps_eq (temps : list Param) (pre : list string) :
  declare_temps temps pre = (temp_decl <$> temps) ++ pre.
Proof.
  unfold declare_temps. revert pre. induction temps as [|t temps IH]; intros pre; [done|].
  rewrite reverse_cons, foldl_snoc, IH. reflexivity.
Qed.

Lemma param_body_plain po parent i p :
  let r := param_body po parent [] [] i p in
  c_genlambda r.1.2 = false ∧ c_lambda_pre r.1.2 = [] ∧ c_temp_ignored r.1.2 = false.
Proof.
  unfold param_body. cbv zeta. cbn [fst snd Dict.get]. unfold classify.
  repeat match goal with
         | |- context [if ?b then _ else _] => destruct b
         | |- context [match ?o with Some _ => _ | None => _ end] => destruct o
         end; done.
Qed.

Lemma param_loop_plain is_constructor po parent st i ps :
  ls_buffer_params st = [] → ls_buflen_params st = [] →
  let st' := param_loop is_constructor po parent st i ps in
  ls_genlambda st' = ls_genlambda st
  ∧ ls_lambda_pre st' = ls_lambda_pre st
  ∧ ls_temps st' = ls_temps st ++ drop (List.length (ls_out_params st)) (ls_out_params st').
Proof.
  revert st i. induction ps as [|p ps IH]; intros st i Hbp Hbl.
  - simpl. by rewrite drop_all, app_nil_r.
  - cbv zeta. rewrite param_loop_cons.
    pose proof (param_step_fields is_constructor po parent st i p) as Hstep.
    cbv zeta in Hstep. rewrite Hbp, Hbl in Hstep.
    destruct Hstep as (_ & _ & _ & _ & Hg & Hpre & Htemps & Hbp' & Hbl').
    destruct (param_body_plain po parent i p) as (Hc1 & Hc2 & Hc3).
    rewrite Hc1 in Hg. rewrite Hc2, app_nil_r in Hpre. rewrite Hc3 in Htemps.
    destruct (IH (param_step is_constructor po parent st i p) (S i)) as (IH1 & IH2 & IH3);
      [by rewrite Hbp'|by rewrite Hbl'|].
    rewrite IH1, IH2, IH3, Hg, Hpre, Htemps. split; [done|]. split; [done|].
    destruct (param_loop_roles is_constructor po parent
                (param_step is_constructor po parent st i p) (S i) ps) as [Hout _].
    rewrite Hout.
    assert (Hstep_out : ls_out_params (param_step is_constructor po parent st i p)
              = ls_out_params st
                ++ (if is_out ((param_body po parent [] [] i p).1.1,
                               (param_body po parent [] [] i p).2)
                    then [(param_body po parent [] [] i p).2] else [])).
    { unfold param_step. rewrite Hbp, Hbl.
      destruct (param_body po parent [] [] i p) as [[ptype c] p']. cbn [fst snd ls_out_params].
      unfold is_out. cbn [fst snd]. rewrite andb_comm. by destruct (_ && _); rewrite ?app_nil_r. }
    rewrite drop_app_length, Hstep_out.
    rewrite <-(app_assoc (ls_out_params st)), drop_app_length.
    rewrite app_nil_l. by rewrite <-app_assoc.
Qed.

(** X11. A function without buffer specs needs a wrapping lambda exactly
    when it has out-parameters, and what is put before the call is the
    declaration of one zero-initialised temporary per out-parameter, in
    declaration order. *)
Theorem plain_function_lambda sp types fn data internal out :
  fd_buffers data = [] →
  fr_outcome (_function_hook sp types fn data internal) = Ok out →
  x_genlambda out = negb (bool_decide (x_out_params out = []))
  ∧ x_lambda_pre out = temp_decl <$> x_out_params out.
Proof.
  intros Hbufs Hout.
  destruct (function_hook_Ok_run _ _ _ _ _ _ Hout) as (x_name0 & bp & bl & Hname & Htables).
  destruct (function_hook_run sp types fn data internal _ _ _ Hname Htables)
    as (st & Hst & _ & _ & Hfin).
  rewrite Hbufs in Htables. injection Htables as <- <-.
  rewrite Hfin in Hout.
  apply finish_function_Ok in Hout as (_ & _ & _ & -> & _ & -> & ->).
  destruct (param_loop_plain (fn_constructor fn) (fd_param_override data) (fn_parent fn)
              (init_loop ({[ fn_returns fn ]} ∪ types) [] []) 0 (fn_parameters fn))
    as (Hg & Hpre & Htemps); [done..|].
  rewrite <-Hst in Hg, Hpre, Htemps. simpl in Hg, Hpre, Htemps.
  rewrite Hg, Hpre, Htemps, declare_temps_eq, app_nil_r.
  split; [by case_bool_decide|done].
Qed.

Lemma plain_function_lambda_Read :
  ∃ out, fr_outcome (_function_hook [] ∅ Ex.Read (Ex.data []) false) = Ok out
    ∧ x_genlambda out = true
    ∧ x_lambda_pre out = ["int status = 0"].
Proof.
  destruct (fr_outcome (_function_hook [] ∅ Ex.Read (Ex.data []) false)) as [out|e] eqn:Hout;
    [|vm_compute in Hout; discriminate Hout].
  destruct (plain_function_lambda [] ∅ Ex.Read (Ex.data []) false out eq_refl Hout)
    as (Hg & Hpre).
  exists out. split; [reflexivity|]. rewrite Hg, Hpre.
  vm_compute in Hout. injection Hout as <-. split; reflexivity.
Defined.

(** X12. Unless the override sets [keepalive], the keep-alive pairs of a
    constructor are [(1, i + 2)] for each position [i] whose parameter is a
    reference, in order, and a function that is no constructor has none. *)
Theorem keepalives_of_references sp types fn data internal out :
  fd_keepalive data = None →
  fr_outcome (_function_hook sp types fn data internal) = Ok out →
  x_keepalives out
  = if fn_constructor fn then constructor_keepalives 0 (fn_parameters fn) else [].
Proof.
  intros Hka Hout.
  destruct (function_hook_Ok_run _ _ _ _ _ _ Hout) as (x_name0 & bp & bl & Hname & Htables).
  destruct (function_hook_run sp types fn data internal _ _ _ Hname Htables)
    as (st & Hst & _ & _ & Hfin).
  rewrite Hfin in Hout. apply finish_function_Ok in Hout as (_ & _ & _ & _ & -> & _).
  rewrite Hka. simpl.
  destruct (param_loop_lists (fn_constructor fn) (fd_param_override data) (fn_parent fn)
              (init_loop ({[ fn_returns fn ]} ∪ types) bp bl) 0 (fn_parameters fn))
    as (_ & _ & _ & Hk & _).
  by rewrite <-Hst in Hk.
Qed.

Lemma keepalives_of_references_Motor :
  ∃ out, fr_outcome (_function_hook [] ∅ Ex2.Motor_ctor (Ex.data []) false) = Ok out
    ∧ x_keepalives out = [(1, 2); (1, 4)].
Proof.
  destruct (fr_outcome (_function_hook [] ∅ Ex2.Motor_ctor (Ex.data []) false))
    as [out|e] eqn:Hout; [|vm_compute in Hout; discriminate Hout].
  exists out. split; [reflexivity|].
  rewrite (keepalives_of_references [] ∅ Ex2.Motor_ctor (Ex.data []) false out eq_refl Hout).
  reflexivity.
Defined.

Lemma placeholder_name_nonempty i p : placeholder_name i p ≠ "".
Proof. unfold placeholder_name. case_decide; [|done]. by rewrite !app_cons. Qed.

Lemma placeholder_name_inj i j p q :
  p_name p = "" → p_name q = "" → placeholder_name i p = placeholder_name j q → i = j.
Proof.
  unfold placeholder_name. intros -> ->. rewrite !decide_True by done.
  intros Heq. apply (inj (String.app "param")) in Heq. by apply (inj pretty) in Heq.
Qed.

(** X13. When no parameter override is configured, the names of the
    parameters after the hook are their own names, with [param] followed by
    the position for a parameter that has none; no name is empty, and two
    parameters without a name never get the same placeholder. *)
Theorem parameter_placeholders sp types fn data internal out :
  fd_param_override data = ∅ →
  fr_outcome (_function_hook sp types fn data internal) = Ok out →
  p_name <$> fr_parameters (_function_hook sp types fn data internal)
  = imap placeholder_name (fn_parameters fn)
  ∧ Forall (λ name, name ≠ "")
      (p_name <$> fr_parameters (_function_hook sp types fn data internal))
  ∧ ∀ i j p q,
      fn_parameters fn !! i = Some p → fn_parameters fn !! j = Some q →
      p_name p = "" → p_name q = "" → i ≠ j →
      placeholder_name i p ≠ placeholder_name j q.
Proof.
  intros Hpo Hout.
  destruct (function_hook_Ok_run _ _ _ _ _ _ Hout) as (x_name0 & bp & bl & Hname & Htables).
  destruct (function_hook_run sp types fn data internal _ _ _ Hname Htables)
    as (st & Hst & _ & -> & _).
  destruct (param_loop_lists (fn_constructor fn) (fd_param_override data) (fn_parent fn)
              (init_loop ({[ fn_returns fn ]} ∪ types) bp bl) 0 (fn_parameters fn))
    as (_ & _ & _ & _ & Hnames & _).
  destruct (param_loop_roles (fn_constructor fn) (fd_param_override data) (fn_parent fn)
              (init_loop ({[ fn_returns fn ]} ∪ types) bp bl) 0 (fn_parameters fn))
    as (_ & Hps).
  rewrite <-Hst in Hps. simpl in Hps. cbv zeta in Hnames. cbn [init_loop ls_buffer_params
    ls_buflen_params] in Hnames. rewrite Hps, Hnames.
  assert (Heq : imap (λ k p, final_name (fd_param_override data) (0 + k) p) (fn_parameters fn)
                = imap placeholder_name (fn_parameters fn)).
  { apply imap_ext. intros k p _. unfold final_name. by rewrite Hpo, lookup_empty. }
  rewrite Heq. split; [done|]. split.
  - apply Forall_forall. intros name (i & p & -> & _)%elem_of_lookup_imap.
    apply placeholder_name_nonempty.
  - intros i j p q _ _ Hp Hq Hij Heq'. by apply Hij, (placeholder_name_inj i j p q).
Qed.

Lemma parameter_placeholders_SetRaw :
  p_name <$> fr_parameters (_function_hook [] ∅ Ex2.SetRaw (Ex.data []) false)
  = ["param0"; "raw"; "param2"].
Proof.
  destruct (fr_outcome (_function_hook [] ∅ Ex2.SetRaw (Ex.data []) false))
    as [out|e] eqn:Hout; [|vm_compute in Hout; discriminate Hout].
  destruct (parameter_placeholders [] ∅ Ex2.SetRaw (Ex.data []) false out eq_refl Hout)
    as (-> & _). reflexivity.
Defined.

(** ** Fixed-width integer types *)

Lemma classify_unmatched name x_type x_callname constant reference pointer
    fundamental force_out array array_size :
  let c := classify None None name x_type x_callname constant reference pointer
             fundamental force_out array array_size in
  c_pointer c = pointer ∧ c_constant c = constant ∧ c_reference c = reference
  ∧ (pointer ≠ 0 → constant = 0 → fundamental = true → c_ptype c = pt_out).
Proof.
  unfold classify. cbv zeta.
  destruct (default false force_out || _) eqn:Hcond.
  - done.
  - assert (Hno : pointer ≠ 0 → constant = 0 → fundamental = true → False).
    { intros Hptr -> ->. apply orb_false_elim in Hcond as [_ Hcond].
      unfold nonzero in Hcond. by destruct pointer. }
    destruct (nonzero array); [|by repeat split; intros; exfalso; auto].
    destruct array_size as [asz|]; [destruct (asz_truthy asz)|]; done.
Qed.

Lemma param_body_int po parent i p :
  let r := param_body po parent [] [] i p in
  p_raw_type r.2 ∈ _int32_types →
  p_pointer r.2 ≠ 0 → p_constant r.2 = 0 →
  r.1.1 = pt_out ∧ p_fundamental r.2 = true.
Proof.
  unfold param_body. cbv zeta.
  cbn [fst snd Dict.get p_pointer p_constant p_fundamental p_raw_type].
  intros Hint. rewrite (bool_decide_eq_true_2 _ Hint).
  match goal with
  | |- context [classify None None ?n ?t ?cn ?c ?r ?ptr ?f ?fo ?a ?asz] =>
      destruct (classify_unmatched n t cn c r ptr f fo a asz) as (-> & -> & _ & Hrole)
  end.
  intros Hptr Hconst. split; [by apply Hrole|done].
Qed.

Lemma param_roles_plain_Forall (Q : PType * Param → Prop) po parent i ps :
  (∀ i p, p ∈ ps → Q ((param_body po parent [] [] i p).1.1, (param_body po parent [] [] i p).2)) →
  Forall Q (param_roles po parent [] [] i ps).
Proof.
  revert i. induction ps as [|p ps IH]; intros i HQ; [constructor|].
  rewrite param_roles_cons. cbn [Dict.remove]. constructor.
  - apply HQ. left.
  - apply IH. intros j q Hq. apply HQ. by right.
Qed.

(** X14. In a function without buffer specs, a parameter whose raw type is
    one of the fixed-width integer names, that is a pointer, not constant
    and not ignored, is an out-parameter, whether or not the parser has
    marked the type as fundamental. *)
Theorem int_pointer_is_out sp types fn data internal out p :
  fd_buffers data = [] →
  fr_outcome (_function_hook sp types fn data internal) = Ok out →
  p ∈ fr_parameters (_function_hook sp types fn data internal) →
  p_raw_type p ∈ _int32_types → p_pointer p ≠ 0 → p_constant p = 0 → listed p →
  p ∈ x_out_params out ∧ p_fundamental p = true.
Proof.
  intros Hbufs Hout Hp Hint Hptr Hconst Hlisted.
  destruct (function_hook_Ok_run _ _ _ _ _ _ Hout) as (x_name0 & bp & bl & Hname & Htables).
  destruct (function_hook_run sp types fn data internal _ _ _ Hname Htables)
    as (st & Hst & _ & Hps & Hfin).
  rewrite Hbufs in Htables. injection Htables as <- <-.
  rewrite Hfin in Hout. apply finish_function_Ok in Hout as (_ & _ & _ & -> & _).
  destruct (param_loop_roles (fn_constructor fn) (fd_param_override data) (fn_parent fn)
              (init_loop ({[ fn_returns fn ]} ∪ types) [] []) 0 (fn_parameters fn))
    as (Hout' & Hps').
  rewrite <-Hst in Hout', Hps'. simpl in Hout', Hps'.
  rewrite Hps, Hps' in Hp. rewrite Hout'.
  apply list_elem_of_fmap in Hp as ([pt p'] & -> & Hrp).
  assert (HQ : Forall (λ rp, p_raw_type rp.2 ∈ _int32_types → p_pointer rp.2 ≠ 0 →
                             p_constant rp.2 = 0 →
                             rp.1 = pt_out ∧ p_fundamental rp.2 = true)
                 (param_roles (fd_param_override data) (fn_parent fn) [] [] 0
                    (fn_parameters fn))).
  { apply param_roles_plain_Forall. intros i q _. apply param_body_int. }
  rewrite Forall_forall in HQ.
  destruct (HQ _ Hrp Hint Hptr Hconst) as [Hrole Hfund].
  simpl in *. split; [|done].
  apply list_elem_of_fmap. exists (pt, p'). split; [done|].
  apply list_elem_of_filter. split; [|done].
  unfold is_out. simpl. rewrite Hrole. rewrite bool_decide_eq_true_2 by done.
  by unfold listed in Hlisted.
Qed.

Lemma int_pointer_is_out_SetRaw :
  ∃ out p,
    fr_outcome (_function_hook [] ∅ Ex2.SetRaw (Ex.data []) false) = Ok out
    ∧ fr_parameters (_function_hook [] ∅ Ex2.SetRaw (Ex.data []) false) !! 1 = Some p
    ∧ p_name p = "raw"
    ∧ p ∈ x_out_params out.
Proof.
  destruct (fr_outcome (_function_hook [] ∅ Ex2.SetRaw (Ex.data []) false))
    as [out|e] eqn:Hout; [|vm_compute in Hout; discriminate Hout].
  destruct (fr_parameters (_function_hook [] ∅ Ex2.SetRaw (Ex.data []) false) !! 1)
    as [p|] eqn:Hp; [|vm_compute in Hp; discriminate Hp].
  exists out, p. split; [reflexivity|]. split; [reflexivity|].
  pose proof Hp as Hpv. vm_compute in Hpv. injection Hpv as Hpv.
  split; [by rewrite <-Hpv|].
  apply (int_pointer_is_out [] ∅ Ex2.SetRaw (Ex.data []) false out p eq_refl Hout).
  - by apply list_elem_of_lookup_2 in Hp.
  - rewrite <-Hpv. apply (bool_decide_unpack _). vm_compute. exact I.
  - by rewrite <-Hpv.
  - by rewrite <-Hpv.
  - by rewrite <-Hpv.
Defined.

(** ** The buffer tables *)

Lemma dict_get_set {V} k k' (v : V) (d : Dict.t V) :
  Dict.get k (Dict.set k' v d) = if decide (k' = k) then Some v else Dict.get k d.
Proof.
  induction d as [|[k1 v1] d IH]; cbn [Dict.set Dict.get].
  - done.
  - destruct (decide (k1 = k')) as [->|Hne]; cbn [Dict.get].
    + by destruct (decide (k' = k)).
    + rewrite IH. destruct (decide (k1 = k)) as [->|]; [|done].
      by rewrite decide_False by done.
Qed.

Lemma buffer_tables_get bufs bp bl :
  Forall (λ b, buf_src b ≠ buf_len b) bufs →
  ∃ bp' bl',
    buffer_tables bufs bp bl = Ok (bp', bl')
    ∧ (∀ k, Dict.get k bp'
            = match last (filter (λ b, buf_src b = k) bufs) with
              | Some b => Some b
              | None => Dict.get k bp
              end)
    ∧ (∀ k, Dict.get k bl'
            = match last (filter (λ b, buf_len b = k) bufs) with
              | Some b => Some b
              | None => Dict.get k bl
              end).
Proof.
  revert bp bl. induction bufs as [|b bufs IH]; intros bp bl Hall.
  - by exists bp, bl.
  - apply Forall_cons in Hall as [Hb Hall]. cbn [buffer_tables].
    rewrite decide_False by done.
    destruct (IH (Dict.set (buf_src b) b bp) (Dict.set (buf_len b) b bl) Hall)
      as (bp' & bl' & -> & Hbp & Hbl).
    exists bp', bl'. split; [done|]. split; intros k.
    + rewrite Hbp, filter_cons, dict_get_set.
      destruct (decide (buf_src b = k)) as [Hk|Hk]; [|done].
      rewrite last_cons. by destruct (last _).
    + rewrite Hbl, filter_cons, dict_get_set.
      destruct (decide (buf_len b = k)) as [Hk|Hk]; [|done].
      rewrite last_cons. by destruct (last _).
Qed.

(** X15. When no buffer spec has the same source and length name the two
    buffer tables are built, and a name looks up, in either table, the last
    spec that gives it as its source (or as its length): a later spec for
    the same name replaces an earlier one. *)
Theorem buffer_tables_last_wins (bufs : list BufferData) :
  Forall (λ b, buf_src b ≠ buf_len b) bufs →
  ∃ bp bl,
    buffer_tables bufs [] [] = Ok (bp, bl)
    ∧ (∀ k, Dict.get k bp = last (filter (λ b, buf_src b = k) bufs))
    ∧ (∀ k, Dict.get k bl = last (filter (λ b, buf_len b = k) bufs)).
Proof.
  intros Hall. destruct (buffer_tables_get bufs [] [] Hall) as (bp & bl & Ht & Hbp & Hbl).
  exists bp, bl. split; [done|].
  split; intros k; [rewrite Hbp|rewrite Hbl]; by destruct (last _).
Qed.

Lemma buffer_tables_last_wins_twice :
  ∃ bp bl,
    buffer_tables [Ex.buffer "buf" "n"; Ex.buffer "buf" "len"] [] [] = Ok (bp, bl)
    ∧ Dict.get "buf" bp = Some (Ex.buffer "buf" "len")
    ∧ Dict.keys bl = ["n"; "len"].
Proof.
  destruct (buffer_tables_last_wins [Ex.buffer "buf" "n"; Ex.buffer "buf" "len"])
    as (bp & bl & Ht & Hbp & _); [by repeat constructor|].
  exists bp, bl. split; [exact Ht|]. split; [by rewrite Hbp|].
  vm_compute in Ht. by injection Ht as <- <-.
Defined.

(** ** Buffers and the wrapping lambda *)

Lemma dict_remove_absent {V} k (d : Dict.t V) : Dict.get k d = None → Dict.remove k d = d.
Proof.
  induction d as [|[k1 v1] d IH]; cbn [Dict.get Dict.remove]; [done|].
  case_decide; [done|]. intros Hd. by rewrite IH.
Qed.

Lemma param_body_genlambda po parent bp bl i p :
  let r := param_body po parent bp bl i p in
  Dict.get (p_name r.2) bp ≠ None → c_genlambda r.1.2 = true.
Proof.
  unfold param_body. cbv zeta. cbn [fst snd p_name]. unfold classify.
  by destruct (Dict.get _ bp).
Qed.

Lemma param_loop_genlambda_mono is_constructor po parent st i ps :
  ls_genlambda st = true → ls_genlambda (param_loop is_constructor po parent st i ps) = true.
Proof.
  revert st i. induction ps as [|p ps IH]; intros st i Hg; [done|].
  rewrite param_loop_cons. apply IH.
  destruct (param_step_fields is_constructor po parent st i p) as (_ & _ & _ & _ & -> & _).
  rewrite Hg. apply orb_true_r.
Qed.

Lemma param_loop_genlambda is_constructor po parent st i ps :
  ls_genlambda (param_loop is_constructor po parent st i ps) = true
  ∨ ls_buffer_params (param_loop is_constructor po parent st i ps) = ls_buffer_params st.
Proof.
  revert st i. induction ps as [|p ps IH]; intros st i; [by right|].
  rewrite param_loop_cons.
  destruct (param_step_fields is_constructor po parent st i p)
    as (_ & _ & _ & _ & Hg & _ & _ & Hbp & _).
  destruct (Dict.get (p_name (param_body po parent (ls_buffer_params st)
                                (ls_buflen_params st) i p).2) (ls_buffer_params st))
    as [b|] eqn:Hget.
  - left. apply param_loop_genlambda_mono. rewrite Hg.
    rewrite param_body_genlambda; [done|]. by rewrite Hget.
  - destruct (IH (param_step is_constructor po parent st i p) (S i)) as [IH'|IH'];
      [by left|right].
    by rewrite IH', Hbp, dict_remove_absent.
Qed.

(** X16. A function with at least one buffer spec is never bound directly:
    whenever the hook returns for it, a wrapping lambda is generated. *)
Theorem buffers_need_lambda sp types fn data internal out :
  fd_buffers data ≠ [] →
  fr_outcome (_function_hook sp types fn data internal) = Ok out →
  x_genlambda out = true.
Proof.
  intros Hbufs Hout.
  destruct (function_hook_Ok_run _ _ _ _ _ _ Hout) as (x_name0 & bp & bl & Hname & Htables).
  destruct (function_hook_run sp types fn data internal _ _ _ Hname Htables)
    as (st & Hst & _ & _ & Hfin).
  rewrite Hfin in Hout. apply finish_function_Ok in Hout as (Hempty & _ & _ & _ & _ & -> & _).
  case_bool_decide; [|done].
  destruct (param_loop_genlambda (fn_constructor fn) (fd_param_override data) (fn_parent fn)
              (init_loop ({[ fn_returns fn ]} ∪ types) bp bl) 0 (fn_parameters fn))
    as [Hg|Hbp]; rewrite <-Hst in *; [done|].
  rewrite Hempty in Hbp. simpl in Hbp. subst bp. exfalso.
  destruct (fd_buffers data) as [|b bufs]; [done|].
  cbn [buffer_tables] in Htables. case_decide; [done|].
  assert (Hget : ∀ bufs bp bl bp' bl' k v,
            buffer_tables bufs bp bl = Ok (bp', bl') → Dict.get k bp = Some v →
            Dict.get k bp' ≠ None).
  { clear. induction bufs as [|b bufs IH]; intros bp bl bp' bl' k v; cbn [buffer_tables].
    - intros [= <- _] ->. done.
    - case_decide; [done|]. intros Ht Hk.
      apply (IH _ _ _ _ k (if decide (buf_src b = k) then b else v) Ht).
      rewrite dict_get_set. by destruct (decide (buf_src b = k)). }
  apply (Hget _ _ _ _ _ (buf_src b) b Htables); [|done].
  rewrite dict_get_set. by rewrite decide_True.
Qed.

Lemma buffers_need_lambda_Write :
  ∃ out, fr_outcome (_function_hook [] ∅ Ex.Write (Ex.data [Ex.buffer "buf" "n"]) false)
         = Ok out
         ∧ x_out_params out = [] ∧ x_genlambda out = true.
Proof.
  destruct (fr_outcome (_function_hook [] ∅ Ex.Write (Ex.data [Ex.buffer "buf" "n"]) false))
    as [out|e] eqn:Hout; [|vm_compute in Hout; discriminate Hout].
  exists out. split; [reflexivity|]. split.
  - vm_compute in Hout. by injection Hout as <-.
  - by apply (buffers_need_lambda [] ∅ Ex.Write (Ex.data [Ex.buffer "buf" "n"]) false out).
Defined.

(** ** Classes, continued *)

Lemma method_step_Ok gfd sp cls_key class_data access st fn self self' st' :
  method_step gfd sp cls_key class_data access st fn self = (self', Ok st') →
  ml_has_constructor st' = fn_constructor fn || ml_has_constructor st
  ∧ ∃ m, ml_methods st' = ml_methods st ++ [m]
         ∧ fn_name (m_fn m) = fn_name fn
         ∧ is_bound m = should_bind gfd cls_key class_data access fn.
Proof.
  unfold method_step, should_bind, never_bound.
  destruct (fn_operator fn || fn_destructor fn || _).
  { intros [= _ <-]. split; [done|]. by eexists. }
  case_decide as Ha.
  { intros [= _ <-]. split; [done|]. eexists. split; [done|]. split; [done|].
    simpl. by rewrite bool_decide_eq_true_2. }
  rewrite (bool_decide_eq_false_2 _ Ha).
  destruct (fd_ignore _).
  { intros [= _ <-]. split; [done|]. by eexists. }
  destruct (run_function_hook _ _ _ _ self) as [self1 [[ps out]|e]]; [|done].
  intros [= _ <-]. split; [done|]. by eexists.
Qed.

Lemma methods_loop_Ok gfd sp cls_key class_data access st fns self self' st' :
  methods_loop gfd sp cls_key class_data access st fns self = (self', Ok st') →
  ml_has_constructor st' = existsb fn_constructor fns || ml_has_constructor st
  ∧ ∃ ms, ml_methods st' = ml_methods st ++ ms
          ∧ Forall2 (λ fn m, fn_name (m_fn m) = fn_name fn
                             ∧ is_bound m = should_bind gfd cls_key class_data access fn)
              fns ms.
Proof.
  revert st self. induction fns as [|fn fns IH]; intros st self.
  - intros [= _ <-]. split; [done|]. exists []. by rewrite app_nil_r.
  - cbn [methods_loop].
    intros (self1 & st1 & Hstep & Hloop)%bind_Ok_inv.
    apply method_step_Ok in Hstep as (Hc1 & m & Hm & Hname & Hbound).
    apply IH in Hloop as (Hc & ms & Hms & Hall).
    split.
    + rewrite Hc, Hc1. simpl. by rewrite orb_assoc, (orb_comm (fn_constructor fn)).
    + exists (m :: ms). split; [by rewrite Hms, Hm, <-app_assoc|]. by constructor.
Qed.

Lemma property_step_Ok gpd cls_key class_data access ht v self :
  ∃ self' v',
    property_step gpd cls_key class_data access ht v self = (self', Ok v')
    ∧ v_name v' = v_name v
    ∧ if property_hidden ht access
      then prop_ignored v' = true ∧ v_x_name v' = v_x_name v ∧ self' = self
      else v_data v' = Some (gpd (v_name v) cls_key class_data)
           ∧ types self' = {[ v_raw_type v ]} ∪ types self
           ∧ v_x_name v'
             = Some (if PyStr.otruthy (pd_rename (gpd (v_name v) cls_key class_data))
                     then default "" (pd_rename (gpd (v_name v) cls_key class_data))
                     else if bool_decide (access = public) then v_name v
                     else "_" +:+ v_name v).
Proof.
  unfold property_step, property_hidden.
  destruct (bool_decide (access = private) || _); by eexists _, _.
Qed.

Lemma properties_loop_Ok gpd cls_key class_data access ht vs self :
  ∃ self' vs',
    properties_loop gpd cls_key class_data access ht vs self = (self', Ok vs')
    ∧ Forall2 (λ v v',
        v_name v' = v_name v
        ∧ if property_hidden ht access
          then prop_ignored v' = true ∧ v_x_name v' = v_x_name v
          else v_data v' = Some (gpd (v_name v) cls_key class_data)
               ∧ v_x_name v'
                 = Some (if PyStr.otruthy (pd_rename (gpd (v_name v) cls_key class_data))
                         then default "" (pd_rename (gpd (v_name v) cls_key class_data))
                         else if bool_decide (access = public) then v_name v
                         else "_" +:+ v_name v)) vs vs'.
Proof.
  revert self. induction vs as [|v vs IH]; intros self.
  - exists self, []. split; [done|constructor].
  - cbn [properties_loop]. rewrite bind_unfold.
    destruct (property_step_Ok gpd cls_key class_data access ht v self)
      as (self1 & v' & -> & Hname & Hv).
    rewrite bind_unfold. destruct (IH self1) as (self2 & vs' & -> & Hvs).
    exists self2, (v' :: vs'). split; [done|]. constructor; [|done].
    split; [done|]. destruct (property_hidden ht access); naive_solver.
Qed.

(** What a run of [class_hook] to the end went through. *)
Lemma class_hook_Ok_inv gcd gfd ged gpd sp cls self self' out :
  class_hook gcd gfd ged gpd sp cls self = (self', Ok (Some out)) →
  ∃ st1 st2 st3 self3 self4 self5 self6 self7 self8 props1 props2 props3,
    methods_loop gfd sp (class_key (cls_parents cls) (cls_name cls))
      (gcd (class_key (cls_parents cls) (cls_name cls))) public
      {| ml_has_constructor := false;
         ml_is_polymorphic :=
           if bool_decide (cls_inherits cls = [])
           then cd_is_polymorphic (gcd (class_key (cls_parents cls) (cls_name cls)))
           else true;
         ml_methods := [] |} (cls_methods cls public) self3 = (self4, Ok st1)
    ∧ methods_loop gfd sp (class_key (cls_parents cls) (cls_name cls))
        (gcd (class_key (cls_parents cls) (cls_name cls))) protected st1
        (cls_methods cls protected) self4 = (self5, Ok st2)
    ∧ methods_loop gfd sp (class_key (cls_parents cls) (cls_name cls))
        (gcd (class_key (cls_parents cls) (cls_name cls))) private st2
        (cls_methods cls private) self5 = (self6, Ok st3)
    ∧ properties_loop gpd (class_key (cls_parents cls) (cls_name cls))
        (gcd (class_key (cls_parents cls) (cls_name cls))) public
        (cls_x_has_trampoline out) (cls_properties cls public) self6 = (self7, Ok props1)
    ∧ properties_loop gpd (class_key (cls_parents cls) (cls_name cls))
        (gcd (class_key (cls_parents cls) (cls_name cls))) protected
        (cls_x_has_trampoline out) (cls_properties cls protected) self7 = (self8, Ok props2)
    ∧ properties_loop gpd (class_key (cls_parents cls) (cls_name cls))
        (gcd (class_key (cls_parents cls) (cls_name cls))) private
        (cls_x_has_trampoline out) (cls_properties cls private) self8 = (self', Ok props3)
    ∧ cls_x_methods out = ml_methods st3
    ∧ cls_x_has_constructor out = ml_has_constructor st3
    ∧ cls_x_properties out = props1 ++ props2 ++ props3.
Proof.
  unfold class_hook.
  set (cls_key := class_key (cls_parents cls) (cls_name cls)).
  set (class_data := gcd cls_key).
  destruct (negb _ && _); [done|].
  destruct (cd_ignore class_data); [done|].
  intros (self1 & x_module_var & _ & H)%bind_Ok_inv.
  apply bind_Ok_inv in H as (self2 & enums & _ & H).
  destruct (filter_bases _ _) as [x_inherits unmatched].
  destruct (Dict.truthy unmatched); [done|].
  apply bind_Ok_inv in H as (self3 & u & _ & H).
  apply bind_Ok_inv in H as (self4 & st1 & Hm1 & H).
  apply bind_Ok_inv in H as (self5 & st2 & Hm2 & H).
  apply bind_Ok_inv in H as (self6 & st3 & Hm3 & H).
  apply bind_Ok_inv in H as (self7 & props1 & Hp1 & H).
  apply bind_Ok_inv in H as (self8 & props2 & Hp2 & H).
  apply bind_Ok_inv in H as (self9 & props3 & Hp3 & H).
  injection H as <- <-. cbn [cls_x_has_trampoline cls_x_methods cls_x_has_constructor
                             cls_x_properties].
  by exists st1, st2, st3, self3, self4, self5, self6, self7, self8, props1, props2, props3.
Qed.

(** X17. For a class processed to the end, [x_has_constructor] tells
    whether any of its methods, at any access level, is a constructor;
    private constructors and the copy and move constructors that are never
    bound count as well. *)
Theorem has_constructor_flag gcd gfd ged gpd sp cls self self' out :
  class_hook gcd gfd ged gpd sp cls self = (self', Ok (Some out)) →
  cls_x_has_constructor out = existsb (λ af, fn_constructor af.2) (all_methods cls).
Proof.
  intros (st1 & st2 & st3 & s3 & s4 & s5 & s6 & s7 & s8 & p1 & p2 & p3
          & Hm1 & Hm2 & Hm3 & _ & _ & _ & _ & -> & _)%class_hook_Ok_inv.
  apply methods_loop_Ok in Hm1 as [Hc1 _], Hm2 as [Hc2 _], Hm3 as [Hc3 _].
  rewrite Hc3, Hc2, Hc1. unfold all_methods. rewrite !existsb_app.
  assert (Hmap : ∀ access fns,
            existsb (λ af : Access * Function, fn_constructor af.2) ((λ fn, (access, fn)) <$> fns)
            = existsb fn_constructor fns).
  { intros access fns. induction fns as [|fn fns IH]; [done|].
    rewrite fmap_cons. cbn [existsb snd]. by rewrite IH. }
  rewrite !Hmap. simpl. rewrite orb_false_r.
  by destruct (existsb fn_constructor (cls_methods cls public)),
    (existsb fn_constructor (cls_methods cls protected)),
    (existsb fn_constructor (cls_methods cls private)).
Qed.

(** X18. For a class processed to the end, [cls["methods"]] keeps every
    method, in the order public, protected, private, and the methods that
    have been through [_function_hook] are exactly those that are neither
    an operator, a destructor, nor a copy or move constructor, that are not
    private, and that their override does not ignore. *)
Theorem methods_bound gcd gfd ged gpd sp cls self self' out :
  class_hook gcd gfd ged gpd sp cls self = (self', Ok (Some out)) →
  Forall2 (λ af m,
             fn_name (m_fn m) = fn_name af.2
             ∧ is_bound m
               = should_bind gfd (class_key (cls_parents cls) (cls_name cls))
                   (gcd (class_key (cls_parents cls) (cls_name cls))) af.1 af.2)
    (all_methods cls) (cls_x_methods out).
Proof.
  intros (st1 & st2 & st3 & s3 & s4 & s5 & s6 & s7 & s8 & p1 & p2 & p3
          & Hm1 & Hm2 & Hm3 & _ & _ & _ & -> & _)%class_hook_Ok_inv.
  apply methods_loop_Ok in Hm1 as (_ & ms1 & Hms1 & H1), Hm2 as (_ & ms2 & Hms2 & H2),
    Hm3 as (_ & ms3 & Hms3 & H3).
  rewrite Hms3, Hms2, Hms1. simpl. rewrite <-app_assoc. unfold all_methods.
  repeat apply Forall2_app; by apply Forall2_fmap_l.
Qed.

(** X19. For a class processed to the end, [cls["properties"]] keeps every
    property, in the order public, protected, private.  A private property,
    and a protected one when the class has no trampoline, is marked ignored
    and gets no name; any other property carries its override and is
    exposed under the rename of the override, or else under its own name,
    with an underscore in front when it is protected. *)
Theorem properties_exposed gcd gfd ged gpd sp cls self self' out :
  class_hook gcd gfd ged gpd sp cls self = (self', Ok (Some out)) →
  Forall2 (λ av v',
             v_name v' = v_name av.2
             ∧ if property_hidden (cls_x_has_trampoline out) av.1
               then prop_ignored v' = true ∧ v_x_name v' = v_x_name av.2
               else v_data v'
                    = Some (gpd (v_name av.2) (class_key (cls_parents cls) (cls_name cls))
                              (gcd (class_key (cls_parents cls) (cls_name cls))))
                    ∧ v_x_name v'
                      = Some (if PyStr.otruthy
                                   (pd_rename
                                      (gpd (v_name av.2)
                                         (class_key (cls_parents cls) (cls_name cls))
                                         (gcd (class_key (cls_parents cls) (cls_name cls)))))
                              then default ""
                                     (pd_rename
                                        (gpd (v_name av.2)
                                           (class_key (cls_parents cls) (cls_name cls))
                                           (gcd (class_key (cls_parents cls) (cls_name cls)))))
                              else if bool_decide (av.1 = public) then v_name av.2
                              else "_" +:+ v_name av.2))
    (all_properties cls) (cls_x_properties out).
Proof.
  intros (st1 & st2 & st3 & s3 & s4 & s5 & s6 & s7 & s8 & p1 & p2 & p3
          & _ & _ & _ & Hp1 & Hp2 & Hp3 & _ & _ & ->)%class_hook_Ok_inv.
  set (cls_key := class_key (cls_parents cls) (cls_name cls)) in *.
  set (class_data := gcd cls_key) in *.
  destruct (properties_loop_Ok gpd cls_key class_data public (cls_x_has_trampoline out)
              (cls_properties cls public) s6) as (? & ? & Hq1 & H1).
  destruct (properties_loop_Ok gpd cls_key class_data protected (cls_x_has_trampoline out)
              (cls_properties cls protected) s7) as (? & ? & Hq2 & H2).
  destruct (properties_loop_Ok gpd cls_key class_data private (cls_x_has_trampoline out)
              (cls_properties cls private) s8) as (? & ? & Hq3 & H3).
  rewrite Hp1 in Hq1. rewrite Hp2 in Hq2. rewrite Hp3 in Hq3.
  injection Hq1 as <- <-. injection Hq2 as <- <-. injection Hq3 as <- <-.
  unfold all_properties. repeat apply Forall2_app; by apply Forall2_fmap_l.
Qed.

(** ** Hooks only add to [self] *)

Lemma hooks_le_refl self : hooks_le self self.
Proof. by repeat split. Qed.

Lemma hooks_le_trans self1 self2 self3 :
  hooks_le self1 self2 → hooks_le self2 self3 → hooks_le self1 self3.
Proof.
  intros (H1 & H2 & H3) (H1' & H2' & H3'). repeat split.
  - by etrans.
  - by etrans.
  - by etrans.
Qed.

Lemma grows_ret {A} (a : A) : grows (mret a : HookM A).
Proof. intros self. apply hooks_le_refl. Qed.

Lemma grows_bind {A B} (m : HookM A) (k : A → HookM B) :
  grows m → (∀ a, grows (k a)) → grows (m ≫= k).
Proof.
  intros Hm Hk self. rewrite bind_unfold. specialize (Hm self).
  destruct (m self) as [self1 [a|e]]; simpl in *; [|done].
  eapply hooks_le_trans; [done|]. apply Hk.
Qed.

Lemma grows_lift {A} (r : result A) : grows (lift r).
Proof. intros self. apply hooks_le_refl. Qed.

Lemma grows_raise {A} (e : exn) : grows (raise e : HookM A).
Proof. intros self. apply hooks_le_refl. Qed.

Lemma grows_get_types : grows get_types.
Proof. intros self. apply hooks_le_refl. Qed.

Lemma grows_add_type_caster typename : grows (_add_type_caster typename).
Proof. intros self. repeat split; simpl; [set_solver|done|done]. Qed.

Lemma grows_add_subpackage subpackage : grows (_add_subpackage subpackage).
Proof.
  intros self. unfold _add_subpackage.
  destruct subpackage as [sub|]; [|apply hooks_le_refl].
  destruct (PyStr.truthy sub); [|apply hooks_le_refl].
  repeat split; simpl; [done|done|]. rewrite dom_insert_L. set_solver.
Qed.

Lemma grows_set_class_hierarchy k v : grows (set_class_hierarchy k v).
Proof.
  intros self. repeat split; simpl; [done| |done]. rewrite dom_insert_L. set_solver.
Qed.

Lemma function_hook_types_grow sp types fn data internal :
  types ⊆ fr_types (_function_hook sp types fn data internal).
Proof.
  unfold _function_hook.
  destruct (camel_name sp (fn_name fn) (fd_rename data)) as [x_name0|e]; [|done].
  destruct (buffer_tables (fd_buffers data) [] []) as [[bp bl]|e]; [|done].
  cbn [fr_types].
  destruct (param_loop_lists (fn_constructor fn) (fd_param_override data) (fn_parent fn)
              (init_loop ({[ fn_returns fn ]} ∪ types) bp bl) 0 (fn_parameters fn))
    as (-> & _).
  cbn [init_loop ls_types]. apply union_subseteq_r', union_subseteq_r.
Qed.

Lemma grows_run_function_hook sp fn data internal :
  grows (run_function_hook sp fn data internal).
Proof.
  intros self. unfold run_function_hook. repeat split; simpl; [|done|done].
  apply function_hook_types_grow.
Qed.

Lemma grows_method_step gfd sp cls_key class_data access st fn :
  grows (method_step gfd sp cls_key class_data access st fn).
Proof.
  unfold method_step. destruct (_ || _); [apply grows_ret|].
  case_decide; [apply grows_ret|]. destruct (fd_ignore _); [apply grows_ret|].
  intros self. pose proof (grows_run_function_hook sp fn
    (gfd fn (_get_function_signature fn) (Some (cls_key, class_data)))
    (negb (bool_decide (access = public))) self) as Hk.
  destruct (run_function_hook _ _ _ _ self) as [self1 [[ps out]|e]]; done.
Qed.

Lemma grows_methods_loop gfd sp cls_key class_data access st fns :
  grows (methods_loop gfd sp cls_key class_data access st fns).
Proof.
  revert st. induction fns as [|fn fns IH]; intros st; simpl; [apply grows_ret|].
  apply grows_bind; [apply grows_method_step|done].
Qed.

Lemma grows_property_step gpd cls_key class_data access has_trampoline v :
  grows (property_step gpd cls_key class_data access has_trampoline v).
Proof.
  unfold property_step. destruct (_ || _); [apply grows_ret|].
  apply grows_bind; [apply grows_add_type_caster|]. intros _. apply grows_ret.
Qed.

Lemma grows_properties_loop gpd cls_key class_data access has_trampoline vs :
  grows (properties_loop gpd cls_key class_data access has_trampoline vs).
Proof.
  induction vs as [|v vs IH]; simpl; [apply grows_ret|].
  apply grows_bind; [apply grows_property_step|]. intros v'.
  apply grows_bind; [done|]. intros vs'. apply grows_ret.
Qed.

Lemma grows_class_enums ged sp cls cls_key class_data es :
  grows (class_enums ged sp cls cls_key class_data es).
Proof. intros self. rewrite class_enums_state. apply hooks_le_refl. Qed.

Lemma grows_class_hook gcd gfd ged gpd sp cls : grows (class_hook gcd gfd ged gpd sp cls).
Proof.
  unfold class_hook. destruct (negb _ && _); [apply grows_ret|].
  destruct (cd_ignore _); [apply grows_ret|].
  apply grows_bind; [apply grows_add_subpackage|]. intros x_module_var.
  apply grows_bind; [apply grows_class_enums|]. intros enums.
  destruct (filter_bases _ _) as [x_inherits unmatched].
  destruct (Dict.truthy unmatched); [apply grows_raise|].
  apply grows_bind; [apply grows_set_class_hierarchy|]. intros _.
  repeat (apply grows_bind;
          [first [apply grows_methods_loop|apply grows_properties_loop]|intros ?]).
  apply grows_ret.
Qed.

(** ** What [class_hook] writes to the two tables *)

Lemma tables_ret {A} (a : A) : keeps_tables (mret a : HookM A).
Proof. done. Qed.

Lemma tables_bind {A B} (m : HookM A) (k : A → HookM B) :
  keeps_tables m → (∀ a, keeps_tables (k a)) → keeps_tables (m ≫= k).
Proof.
  intros Hm Hk self. rewrite bind_unfold. destruct (Hm self) as [Hh Hs].
  destruct (m self) as [self1 [a|e]]; simpl in *; [|done].
  destruct (Hk a self1) as [Hh' Hs']. split; congruence.
Qed.

Lemma tables_add_type_caster typename : keeps_tables (_add_type_caster typename).
Proof. done. Qed.

Lemma tables_run_function_hook sp fn data internal :
  keeps_tables (run_function_hook sp fn data internal).
Proof. done. Qed.

Lemma tables_method_step gfd sp cls_key class_data access st fn :
  keeps_tables (method_step gfd sp cls_key class_data access st fn).
Proof.
  unfold method_step. destruct (_ || _); [apply tables_ret|].
  destruct (decide (access = private)); [apply tables_ret|].
  destruct (fd_ignore _); [apply tables_ret|].
  intros self. pose proof (tables_run_function_hook sp fn
    (gfd fn (_get_function_signature fn) (Some (cls_key, class_data)))
    (negb (bool_decide (access = public))) self) as Hk.
  destruct (run_function_hook _ _ _ _ self) as [self1 [[ps out]|e]]; done.
Qed.

Lemma tables_methods_loop gfd sp cls_key class_data access st fns :
  keeps_tables (methods_loop gfd sp cls_key class_data access st fns).
Proof.
  revert st. induction fns as [|fn fns IH]; intros st; simpl; [apply tables_ret|].
  apply tables_bind; [apply tables_method_step|done].
Qed.

Lemma tables_property_step gpd cls_key class_data access has_trampoline v :
  keeps_tables (property_step gpd cls_key class_data access has_trampoline v).
Proof.
  unfold property_step. destruct (_ || _); [apply tables_ret|].
  apply tables_bind; [apply tables_add_type_caster|]. intros _. apply tables_ret.
Qed.

Lemma tables_properties_loop gpd cls_key class_data access has_trampoline vs :
  keeps_tables (properties_loop gpd cls_key class_data access has_trampoline vs).
Proof.
  induction vs as [|v vs IH]; simpl; [apply tables_ret|].
  apply tables_bind; [apply tables_property_step|]. intros v'.
  apply tables_bind; [done|]. intros vs'. apply tables_ret.
Qed.

Lemma add_subpackage_state subpackage self :
  ∃ self1 var,
    _add_subpackage subpackage self = (self1, Ok var)
    ∧ class_hierarchy self1 = class_hierarchy self
    ∧ (subpackages self1 = subpackages self
       ∨ ∃ sub, subpackage = Some sub
           ∧ subpackages self1
             = <[sub := "pkg_" +:+ PyStr.replace_dot sub]> (subpackages self)).
Proof.
  unfold _add_subpackage. destruct subpackage as [sub|]; [|by eexists _, _; eauto].
  destruct (PyStr.truthy sub); eexists _, _; (split; [done|]); (split; [done|]).
  - right. by exists sub.
  - by left.
Qed.

Lemma set_class_hierarchy_then {A} k v (tail : () → HookM A) self :
  (∀ u, keeps_tables (tail u)) →
  class_hierarchy ((set_class_hierarchy k v ≫= tail) self).1 = <[k := v]> (class_hierarchy self)
  ∧ subpackages ((set_class_hierarchy k v ≫= tail) self).1 = subpackages self.
Proof.
  intros Hk. rewrite bind_unfold. simpl.
  destruct (Hk () {| types := types self; class_hierarchy := <[k:=v]> (class_hierarchy self);
                     subpackages := subpackages self |}) as [Hh Hs].
  split; [exact Hh|exact Hs].
Qed.

(** X20. However [class_hook] ends, nothing is lost from [self].  The
    recorded types are kept.  [self.subpackages] is as it was, or has the
    module variable written under the subpackage of the class override and
    nothing else changed.  [self.class_hierarchy] is as it was, or has the
    entry of the class written under its qualified name, replacing an entry
    that was there under that name, and nothing else changed; it is written
    whenever the hook returns a class.  A class that is skipped leaves
    [self] exactly as it was. *)
Theorem class_hook_accumulates gcd gfd ged gpd sp cls self :
  let class_data := gcd (class_key (cls_parents cls) (cls_name cls)) in
  let cls_qualname := cls_namespace cls +:+ "::" +:+ cls_name cls in
  let run := class_hook gcd gfd ged gpd sp cls self in
  types self ⊆ types run.1
  ∧ (subpackages run.1 = subpackages self
     ∨ ∃ sub, cd_subpackage class_data = Some sub
         ∧ subpackages run.1
           = <[sub := "pkg_" +:+ PyStr.replace_dot sub]> (subpackages self))
  ∧ (class_hierarchy run.1 = class_hierarchy self
     ∨ class_hierarchy run.1
       = <[cls_qualname := hierarchy_entry cls class_data]> (class_hierarchy self))
  ∧ (∀ out, run.2 = Ok (Some out) →
       class_hierarchy run.1
       = <[cls_qualname := hierarchy_entry cls class_data]> (class_hierarchy self))
  ∧ (run.2 = Ok None → run.1 = self).
Proof.
  intros class_data cls_qualname run.
  split; [apply grows_class_hook|].
  subst run cls_qualname. unfold class_hook.
  destruct (negb _ && _); [simpl; split; [by left|]; split; [by left|]; by split|].
  fold class_data.
  destruct (cd_ignore class_data); [simpl; split; [by left|]; split; [by left|]; by split|].
  rewrite bind_unfold.
  destruct (add_subpackage_state (cd_subpackage class_data) self)
    as (self1 & var & -> & Hh1 & Hs1).
  rewrite bind_unfold.
  pose proof (class_enums_state ged sp cls (class_key (cls_parents cls) (cls_name cls))
                class_data (cls_enums_public cls) self1) as He.
  destruct (class_enums _ _ _ _ _ _ self1) as [self2 [es|e]]; simpl in He; subst self2;
    [|simpl; rewrite Hh1; split; [exact Hs1|]; split; [by left|]; by split].
  unfold hierarchy_entry.
  destruct (filter_bases _ _) as [x_inherits unmatched]. cbn [fst].
  destruct (Dict.truthy unmatched);
    [simpl; rewrite Hh1; split; [exact Hs1|]; split; [by left|]; by split|].
  match goal with
  | |- context [(set_class_hierarchy ?k ?v ≫= ?tail) self1] =>
      destruct (set_class_hierarchy_then k v tail self1) as [Hh Hs]
  end.
  { intros _.
    repeat (apply tables_bind;
            [first [apply tables_methods_loop|apply tables_properties_loop]|intros ?]).
    apply tables_ret. }
  rewrite Hh, Hs, Hh1.
  split; [exact Hs1|]. split; [by right|]. split; [done|].
  intros Hnone. exfalso. revert Hnone. rewrite bind_unfold. simpl.
  repeat (rewrite bind_unfold;
          match goal with
          | |- context [match ?m ?s with _ => _ end] =>
              destruct (m s) as [? [?|?]]; [|done]
          end).
  done.
Qed.

(** ** Free functions and headers *)


Lemma header_enums_types ged sp es self :
  types (header_enums ged sp es self).1 = types self.
Proof.
  revert self. induction es as [|en es IH]; intros self; [done|].
  cbn [header_enums]. rewrite bind_unfold.
  destruct (_add_subpackage _ self) as [self1 [v|e]] eqn:Hsub.
  - assert (Ht : types self1 = types self).
    { unfold _add_subpackage in Hsub. destruct (ed_subpackage _) as [sub|]; [|by injection Hsub as <-].
      destruct (PyStr.truthy sub); by injection Hsub as <-. }
    rewrite bind_unfold. unfold lift at 1.
    destruct (_enum_hook sp _ _) as [en2|e]; [|done].
    rewrite bind_unfold. specialize (IH self1).
    destruct (header_enums ged sp es self1) as [self2 [es'|e]]; simpl in *; congruence.
  - unfold _add_subpackage in Hsub. destruct (ed_subpackage _) as [sub|]; [|done].
    by destruct (PyStr.truthy sub).
Qed.

Lemma header_variables_Ok variables self :
  ∃ self', header_variables variables self = (self', Ok ())
           ∧ types self' = list_to_set variables ∪ types self.
Proof.
  revert self. induction variables as [|v vs IH]; intros self.
  - exists self. split; [done|]. set_solver.
  - cbn [header_variables]. rewrite bind_unfold. simpl.
    destruct (IH {| types := {[v]} ∪ types self; class_hierarchy := class_hierarchy self;
                    subpackages := subpackages self |}) as (self' & -> & Ht).
    exists self'. split; [done|]. rewrite Ht. simpl. set_solver.
Qed.

(** X22. When [header_hook] returns, the registry holds the raw type of
    every variable of the header besides what it held before, and the
    includes handed to the templates are resolved from all of it: they are
    sorted and hold the header of every recorded type that has one, the
    types of earlier headers included. *)
Theorem header_hook_includes ged sp casters enums variables self self' es includes :
  header_hook ged sp casters enums variables self = (self', Ok (es, includes)) →
  types self' = list_to_set variables ∪ types self
  ∧ includes = _get_type_caster_includes casters (types self')
  ∧ Sorted String.le includes
  ∧ ∀ header, header ∈ includes
              ↔ ∃ t, (t ∈ variables ∨ t ∈ types self)
                     ∧ caster_header casters t = Some header.
Proof.
  unfold header_hook.
  intros (self1 & es1 & Hen & H)%bind_Ok_inv.
  pose proof (header_enums_types ged sp enums self) as Ht1. rewrite Hen in Ht1. simpl in Ht1.
  apply bind_Ok_inv in H as (self2 & u & Hv & H).
  destruct (header_variables_Ok variables self1) as (self2' & Hv' & Ht2).
  rewrite Hv in Hv'. injection Hv' as <-.
  apply bind_Ok_inv in H as (self3 & recorded & Hg & H).
  injection Hg as <- <-. injection H as <- <- <-.
  rewrite Ht2, Ht1. split; [done|]. split; [done|].
  unfold _get_type_caster_includes. split; [apply (Sorted_merge_sort _)|].
  intros header. rewrite merge_sort_Permutation, elem_of_elements, includes_fold.
  split; intros (t & Ht & Hh); exists t; (split; [|done]).
  - apply elem_of_union in Ht as [Ht%elem_of_list_to_set|Ht]; [by left|by right].
  - apply elem_of_union. destruct Ht as [Ht|Ht]; [left|by right].
    by apply elem_of_list_to_set.
Qed.

(** ** The exceptions of [class_hook] *)

Lemma enum_values_loop_raise_index value_prefix vs e :
  enum_values_loop value_prefix vs = Raise e → e = IndexError.
Proof.
  induction vs as [|v vs IH]; [done|]. rewrite enum_values_loop_cons.
  destruct (enum_value_x_name value_prefix (ev_name v)) as [x|e'] eqn:Hx.
  - destruct (enum_values_loop value_prefix vs) as [vs'|e']; [done|].
    intros [= <-]. by apply IH.
  - intros [= <-]. by apply enum_value_x_name_raise in Hx.
Qed.

Lemma enum_hook_raise_index sp en data e : _enum_hook sp en data = Raise e → e = IndexError.
Proof.
  unfold _enum_hook.
  destruct (enum_values_loop _ _) as [vs|e'] eqn:Hvs; [done|].
  intros [= <-]. by apply enum_values_loop_raise_index in Hvs.
Qed.

Lemma class_enums_raise_index ged sp cls cls_key class_data es self self' e :
  class_enums ged sp cls cls_key class_data es self = (self', Raise e) → e = IndexError.
Proof.
  revert self self'. induction es as [|en es IH]; intros self self'; [done|].
  cbn [class_enums]. rewrite bind_unfold. unfold lift at 1.
  destruct (_enum_hook sp _ _) as [en2|e'] eqn:Hen.
  - rewrite bind_unfold.
    destruct (class_enums ged sp cls cls_key class_data es self) as [self1 [es'|e']] eqn:Hes;
      [done|].
    intros [= _ <-]. by apply IH in Hes.
  - intros [= _ <-]. by apply enum_hook_raise_index in Hen.
Qed.

Lemma methods_loop_raise gfd sp cls_key class_data access st fns self self' e :
  methods_loop gfd sp cls_key class_data access st fns self = (self', Raise e) →
  ∃ fn cause types,
    fn ∈ fns ∧ should_bind gfd cls_key class_data access fn = true
    ∧ e = HookError (cls_key +:+ "::" +:+ fn_name fn) cause
    ∧ fr_outcome (_function_hook sp types fn
                    (gfd fn (_get_function_signature fn) (Some (cls_key, class_data)))
                    (negb (bool_decide (access = public)))) = Raise cause.
Proof.
  revert st self self'. induction fns as [|fn fns IH]; intros st self self'; [done|].
  cbn [methods_loop]. rewrite bind_unfold.
  destruct (method_step gfd sp cls_key class_data access st fn self)
    as [self1 [st1|e1]] eqn:Hstep.
  - intros (fn' & cause & types & Hin & ?)%IH. exists fn', cause, types.
    split; [by right|done].
  - intros [= _ <-]. revert Hstep. unfold method_step.
    destruct (fn_operator fn || fn_destructor fn || _) eqn:Hnever; [by intros [=]|].
    destruct (decide (access = private)) as [Ha|Ha]; [by intros [=]|].
    destruct (fd_ignore _) eqn:Hign; [by intros [=]|].
    unfold run_function_hook.
    destruct (fr_outcome (_function_hook sp (types self) fn _ _)) as [out|cause] eqn:Hout;
      [by intros [=]|].
    simpl. intros [= _ <-]. exists fn, cause, (types self). split; [left|].
    split; [|done]. unfold should_bind, never_bound.
    by rewrite Hnever, Hign, (bool_decide_eq_false_2 _ Ha).
Qed.

(** X23. An exception that ends [class_hook] is one of three: the index
    error of the enum hook; the error about [ignored_bases]; or a
    [HookError] that names the class key and a method the hook binds, and
    carries the exception that [_function_hook] raised for that method. *)
Theorem class_hook_exceptions gcd gfd ged gpd sp cls self self' e :
  class_hook gcd gfd ged gpd sp cls self = (self', Raise e) →
  e = IndexError
  ∨ (∃ unmatched,
       e = ignored_bases_error (cls_name cls)
             (qualify_base (cls_namespace cls)
                (cd_base_qualnames (gcd (class_key (cls_parents cls) (cls_name cls))))
                <$> cls_inherits cls) unmatched)
  ∨ (∃ access fn cause types,
       fn ∈ cls_methods cls access
       ∧ should_bind gfd (class_key (cls_parents cls) (cls_name cls))
           (gcd (class_key (cls_parents cls) (cls_name cls))) access fn = true
       ∧ e = HookError (class_key (cls_parents cls) (cls_name cls) +:+ "::" +:+ fn_name fn)
               cause
       ∧ fr_outcome (_function_hook sp types fn
                       (gfd fn (_get_function_signature fn)
                          (Some (class_key (cls_parents cls) (cls_name cls),
                                 gcd (class_key (cls_parents cls) (cls_name cls)))))
                       (negb (bool_decide (access = public)))) = Raise cause).
Proof.
  unfold class_hook.
  set (cls_key := class_key (cls_parents cls) (cls_name cls)).
  set (class_data := gcd cls_key).
  destruct (negb _ && _); [done|].
  destruct (cd_ignore class_data); [done|].
  rewrite bind_unfold.
  destruct (add_subpackage_Ok (cd_subpackage class_data) self) as (self1 & var & -> & _).
  rewrite bind_unfold.
  destruct (class_enums ged sp cls cls_key class_data (cls_enums_public cls) self1)
    as [self2 [enums|e']] eqn:Hen.
  2:{ intros [= _ <-]. left. by apply class_enums_raise_index in Hen. }
  destruct (filter_bases _ _) as [x_inherits unmatched].
  destruct (Dict.truthy unmatched).
  { intros [= _ <-]. right. left. by exists unmatched. }
  rewrite bind_unfold. cbn [set_class_hierarchy].
  intros H. right. right.
  rewrite bind_unfold in H.
  destruct (methods_loop gfd sp cls_key class_data public _ _ _)
    as [self4 [st1|e1]] eqn:Hm1.
  2:{ injection H as _ <-. apply methods_loop_raise in Hm1 as (fn & cause & types & ?).
      by exists public, fn, cause, types. }
  rewrite bind_unfold in H.
  destruct (methods_loop gfd sp cls_key class_data protected _ _ _)
    as [self5 [st2|e2]] eqn:Hm2.
  2:{ injection H as _ <-. apply methods_loop_raise in Hm2 as (fn & cause & types & ?).
      by exists protected, fn, cause, types. }
  rewrite bind_unfold in H.
  destruct (methods_loop gfd sp cls_key class_data private _ _ _)
    as [self6 [st3|e3]] eqn:Hm3.
  2:{ injection H as _ <-. apply methods_loop_raise in Hm3 as (fn & cause & types & ?).
      by exists private, fn, cause, types. }
  exfalso. revert H.
  set (ht := ml_is_polymorphic st3 && _ && _).
  rewrite bind_unfold.
  destruct (properties_loop_Ok gpd cls_key class_data public ht (cls_properties cls public)
              self6) as (s7 & p1 & -> & _).
  rewrite bind_unfold.
  destruct (properties_loop_Ok gpd cls_key class_data protected ht
              (cls_properties cls protected) s7) as (s8 & p2 & -> & _).
  rewrite bind_unfold.
  destruct (properties_loop_Ok gpd cls_key class_data private ht
              (cls_properties cls private) s8) as (s9 & p3 & -> & _).
  done.
Qed.

(** ** The class hook on examples *)

Lemma has_constructor_flag_Motor :
  ∃ self' out,
    Ex2.class_hook_fn (Ex.data []) Ex2.Motor init_hooks = (self', Ok (Some out))
    ∧ cls_x_has_constructor out = true.
Proof.
  destruct (Ex2.class_hook_fn (Ex.data []) Ex2.Motor init_hooks)
    as [self' [[out|]|e]] eqn:Hrun; [|vm_compute in Hrun; discriminate Hrun..].
  exists self', out. split; [reflexivity|].
  unfold Ex2.class_hook_fn in Hrun.
  rewrite (has_constructor_flag _ _ _ _ _ _ _ _ _ Hrun). reflexivity.
Defined.

Lemma methods_bound_Motor :
  ∃ self' out,
    Ex2.class_hook_fn (Ex.data []) Ex2.Motor init_hooks = (self', Ok (Some out))
    ∧ fn_name <$> (m_fn <$> cls_x_methods out)
      = ["Motor"; "~Motor"; "Get"; "Update"; "Motor"; "Reset"]
    ∧ is_bound <$> cls_x_methods out = [false; false; true; true; false; false].
Proof.
  destruct (Ex2.class_hook_fn (Ex.data []) Ex2.Motor init_hooks)
    as [self' [[out|]|e]] eqn:Hrun; [|vm_compute in Hrun; discriminate Hrun..].
  exists self', out. split; [reflexivity|].
  unfold Ex2.class_hook_fn in Hrun.
  pose proof (methods_bound _ _ _ _ _ _ _ _ _ Hrun) as Hall.
  destruct (cls_x_methods out) as [|m1 [|m2 [|m3 [|m4 [|m5 [|m6 [|m7 ms]]]]]]];
    try (by apply Forall2_length in Hall).
  unfold all_methods in Hall. cbn [Ex2.Motor cls_methods fmap list_fmap app] in Hall.
  repeat match goal with
         | H : Forall2 _ (_ :: _) (_ :: _) |- _ => apply Forall2_cons in H as [[? ?] H]
         end.
  cbn [fmap list_fmap]. split; repeat f_equal; assumption.
Defined.

Lemma properties_exposed_Motor :
  ∃ self' out,
    Ex2.class_hook_fn (Ex.data []) Ex2.Motor init_hooks = (self', Ok (Some out))
    ∧ cls_x_has_trampoline out = false
    ∧ v_x_name <$> cls_x_properties out = [Some "port"; None; None].
Proof.
  destruct (Ex2.class_hook_fn (Ex.data []) Ex2.Motor init_hooks)
    as [self' [[out|]|e]] eqn:Hrun; [|vm_compute in Hrun; discriminate Hrun..].
  exists self', out. split; [reflexivity|].
  unfold Ex2.class_hook_fn in Hrun.
  pose proof (properties_exposed _ _ _ _ _ _ _ _ _ Hrun) as Hall.
  assert (Hht : cls_x_has_trampoline out = false).
  { pose proof Hrun as Hv. vm_compute in Hv. by injection Hv as _ <-. }
  rewrite Hht in Hall. split; [exact Hht|].
  destruct (cls_x_properties out) as [|v1 [|v2 [|v3 [|v4 vs]]]];
    try (by apply Forall2_length in Hall).
  unfold all_properties in Hall. cbn [Ex2.Motor cls_properties fmap list_fmap app] in Hall.
  repeat match goal with
         | H : Forall2 _ (_ :: _) (_ :: _) |- _ => apply Forall2_cons in H as [[? ?] H]
         end.
  simpl in *.
  repeat match goal with H : _ ∧ _ |- _ => destruct H end.
  repeat f_equal; assumption.
Defined.

Lemma class_hook_accumulates_Hidden :
  ((Ex2.class_hook_fn (Ex.data []) Ex2.Hidden init_hooks).2 = Ok None
   ∧ (Ex2.class_hook_fn (Ex.data []) Ex2.Hidden init_hooks).1 = init_hooks)
  ∧ class_hierarchy
      (Ex.class_hook_with (Ex.class_data [] ["frc::Extra"]) Ex.Derived
         {| types := ∅; subpackages := ∅;
            class_hierarchy := {[ "frc::Derived" := ["frc::Old"] ]} |}).1
    = {[ "frc::Derived" := ["frc::Base"; "frc::Mixin"; "frc::Extra"] ]}.
Proof.
  split.
  - split; [reflexivity|].
    by apply (class_hook_accumulates (λ _, Ex.class_data [] []) (λ _ _ _, Ex.data [])
                (λ _ _ _, Ex.enum_data None) (λ _ _ _, Ex.prop_data) [] Ex2.Hidden
                init_hooks).
  - unfold Ex.class_hook_with.
    destruct (class_hook_accumulates (λ _, Ex.class_data [] ["frc::Extra"])
                (λ _ _ _, Ex.data []) (λ _ _ _, Ex.enum_data None) (λ _ _ _, Ex.prop_data)
                [] Ex.Derived
                {| types := ∅; subpackages := ∅;
                   class_hierarchy := {[ "frc::Derived" := ["frc::Old"] ]} |})
      as (_ & _ & _ & Hset & _).
    destruct ((class_hook (λ _, Ex.class_data [] ["frc::Extra"])
                 (λ _ _ _, Ex.data []) (λ _ _ _, Ex.enum_data None) (λ _ _ _, Ex.prop_data)
                 [] Ex.Derived
                 {| types := ∅; subpackages := ∅;
                    class_hierarchy := {[ "frc::Derived" := ["frc::Old"] ]} |}).2)
      as [[out|]|e] eqn:Hrun; [|vm_compute in Hrun; discriminate Hrun..].
    rewrite (Hset out eq_refl). cbn [class_hierarchy]. rewrite insert_singleton.
    vm_compute. reflexivity.
Defined.


Lemma header_hook_includes_vectors :
  ∃ self' es includes,
    header_hook (λ _, Ex.enum_data None) [] Ex.casters [Ex.Color]
      ["std::vector<int>"; "int"]
      {| types := {[ "std::function<void()>" ]}; class_hierarchy := ∅; subpackages := ∅ |}
    = (self', Ok (es, includes))
    ∧ includes = ["pybind11/functional.h"; "pybind11/stl.h"].
Proof.
  destruct (header_hook (λ _, Ex.enum_data None) [] Ex.casters [Ex.Color]
              ["std::vector<int>"; "int"]
              {| types := {[ "std::function<void()>" ]}; class_hierarchy := ∅;
                 subpackages := ∅ |})
    as [self' [[es includes]|e]] eqn:Hrun; [|vm_compute in Hrun; discriminate Hrun].
  exists self', es, includes. split; [reflexivity|].
  destruct (header_hook_includes _ _ _ _ _ _ _ _ _ Hrun) as (Ht & -> & _).
  rewrite Ht. vm_compute. reflexivity.
Defined.

Lemma class_hook_exceptions_Port :
  ∃ self' e,
    Ex2.class_hook_fn (Ex.data [Ex.buffer "data" "n"]) Ex2.Port init_hooks = (self', Raise e)
    ∧ e = HookError "Port::Write" (ValueError "incorrect buffer param names 'data'")
    ∧ (e = IndexError
       ∨ (∃ unmatched,
            e = ignored_bases_error "Port"
                  (qualify_base "frc" ∅ <$> cls_inherits Ex2.Port) unmatched)
       ∨ (∃ access fn cause types,
            fn ∈ cls_methods Ex2.Port access
            ∧ should_bind (λ _ _ _, Ex.data [Ex.buffer "data" "n"]) "Port"
                (Ex.class_data [] []) access fn = true
            ∧ e = HookError ("Port" +:+ "::" +:+ fn_name fn) cause
            ∧ fr_outcome (_function_hook [] types fn (Ex.data [Ex.buffer "data" "n"])
                            (negb (bool_decide (access = public)))) = Raise cause)).
Proof.
  destruct (Ex2.class_hook_fn (Ex.data [Ex.buffer "data" "n"]) Ex2.Port init_hooks)
    as [self' [r|e]] eqn:Hrun; [vm_compute in Hrun; discriminate Hrun|].
  exists self', e. split; [reflexivity|]. split.
  - vm_compute in Hrun. by injection Hrun as _ <-.
  - unfold Ex2.class_hook_fn in Hrun.
    exact (class_hook_exceptions _ _ _ _ _ _ _ _ _ Hrun).
Defined.

(** ** The names of bound methods *)





